(** * Target-candidate matrix pipeline: a shallow embedding of the Python sources

    The development follows the layout of the repository:
    - [Py]            : the fragment of Python the sources rely on (exceptions,
                        JSON-like values, truthiness, [str] methods);
    - [Validators]    : [utils/validators.py];
    - [Step4]         : [core/step4_matrix_evaluation.py];
    - later modules   : the merge engine, the companies resynchronisation, the
                        retry wrapper, the self review, the additive persona
                        run and the structured-output parser.

    Python [str] values are Rocq [string]s holding the UTF-8 encoding of the
    text.  Lists are [list]s, dictionaries read with [d[k]] or [d.get(k)] are
    [gmap string _], and a function that can raise returns a [res]. *)

From Stdlib Require Import ssreflect ZArith String Ascii List Lia Bool.
From stdpp Require Import base tactics option list gmap strings pretty.

Open Scope string_scope.
Set Warnings "-register-all,-rewrite-rw,-deprecated".

(* ===================================================================== *)
(** * Python preliminaries *)
(* ===================================================================== *)

Module Py.

(** Exception classes raised by the modelled code; [ServiceError] stands
    for the classes of the client library of the model service. *)
Inductive exn_class :=
| ValueError | KeyError | TypeError | IndexError | AttributeError
| JSONDecodeError | Exception
| ServiceError (name : string).

Record exn := Exn { exn_cls : exn_class; exn_msg : string }.

(** A computation that returns or raises. *)
Inductive res (A : Type) :=
| Ok (a : A)
| Raise (e : exn).
Arguments Ok {A} a.
Arguments Raise {A} e.

#[global] Instance res_ret : MRet res := fun A a => Ok a.
#[global] Instance res_bind : MBind res := fun A B f m =>
  match m with Ok a => f a | Raise e => Raise e end.

Definition is_ok {A} (r : res A) : bool :=
  match r with Ok _ => true | Raise _ => false end.

(** [try: body except Exception: handler]. *)
Definition try_except {A} (body : res A) (handler : exn -> res A) : res A :=
  match body with Ok a => Ok a | Raise e => handler e end.

(** JSON-like values: what [json.loads] produces and what the state
    dictionaries hold.  A float is kept as its decimal lexeme. *)
Inductive json :=
| JNull
| JBool (b : bool)
| JNum (z : Z)
| JReal (lexeme : string)
| JStr (s : string)
| JArr (l : list json)
| JObj (kvs : list (string * json)).

(** Equality of values is decidable.  Python's [==] agrees with it on the
    values compared by the sources (identifiers, which are strings); the
    numeric coincidences of Python ([True == 1], [1 == 1.0]) are not
    modelled. *)
Lemma json_eq_dec : ∀ a b : json, {a = b} + {a ≠ b}.
Proof.
  fix IH 1. intros a b.
  destruct a as [|b1|z1|x1|s1|l1|kvs1], b as [|b2|z2|x2|s2|l2|kvs2];
    try (right; discriminate); try (left; reflexivity).
  - destruct (Bool.bool_dec b1 b2) as [->|Hne];
      [left; reflexivity | right; intros [=]; contradiction].
  - destruct (Z.eq_dec z1 z2) as [->|Hne];
      [left; reflexivity | right; intros [=]; contradiction].
  - destruct (String.string_dec x1 x2) as [->|Hne];
      [left; reflexivity | right; intros [=]; contradiction].
  - destruct (String.string_dec s1 s2) as [->|Hne];
      [left; reflexivity | right; intros [=]; contradiction].
  - assert (Hl : {l1 = l2} + {l1 ≠ l2}).
    { revert l2. induction l1 as [|x l1 IHl]; intros [|y l2];
        try (right; discriminate); try (left; reflexivity).
      destruct (IH x y) as [->|Hne]; [|right; intros [=]; contradiction].
      destruct (IHl l2) as [->|Hne]; [left; reflexivity|].
      right; intros [=]; contradiction. }
    destruct Hl as [->|Hne]; [left; reflexivity | right; intros [=]; contradiction].
  - assert (Hl : {kvs1 = kvs2} + {kvs1 ≠ kvs2}).
    { revert kvs2. induction kvs1 as [|[k1 v1] kvs1 IHl]; intros [|[k2 v2] kvs2];
        try (right; discriminate); try (left; reflexivity).
      destruct (String.string_dec k1 k2) as [->|Hne];
        [|right; intros [=]; contradiction].
      destruct (IH v1 v2) as [->|Hne]; [|right; intros [=]; contradiction].
      destruct (IHl kvs2) as [->|Hne]; [left; reflexivity|].
      right; intros [=]; contradiction. }
    destruct Hl as [->|Hne]; [left; reflexivity | right; intros [=]; contradiction].
Defined.

#[global] Instance json_eq_decision : EqDecision json := json_eq_dec.

(** A float lexeme denotes zero when its mantissa (the part before an
    exponent marker) has no digit other than [0]. *)
Fixpoint mantissa_is_zero (l : list ascii) : bool :=
  match l with
  | [] => true
  | c :: l' =>
      if bool_decide (c = "e"%char ∨ c = "E"%char) then true
      else bool_decide (c = "0"%char ∨ c = "."%char ∨ c = "-"%char) && mantissa_is_zero l'
  end.

Definition real_is_zero (lexeme : string) : bool :=
  mantissa_is_zero (list_ascii_of_string lexeme).

(** Python truthiness ([if v:], [not v]) on the values above. *)
Definition truthy (v : json) : bool :=
  match v with
  | JNull => false
  | JBool b => b
  | JNum z => negb (z =? 0)%Z
  | JReal x => negb (real_is_zero x)
  | JStr s => negb (bool_decide (s = ""))
  | JArr l => negb (bool_decide (length l = 0))
  | JObj kvs => negb (bool_decide (length kvs = 0))
  end.

(** [len(v)]: defined on strings, lists and dictionaries, [TypeError]
    otherwise.  Only [len] of lists is ever inspected, so the length of a
    string is given in bytes. *)
Definition py_len (v : json) : res nat :=
  match v with
  | JStr s => Ok (String.length s)
  | JArr l => Ok (length l)
  | JObj kvs => Ok (length kvs)
  | _ => Raise (Exn TypeError "object has no len()")
  end.

(** [f"{n}"] for a non-negative integer. *)
Definition str_nat (n : nat) : string := pretty n.

(** [sep.join(l)] for a list of strings. *)
Definition join (sep : string) (l : list string) : string := String.concat sep l.

(** [l.index(x)]: position of the first occurrence, [None] for the
    [ValueError] of a missing element. *)
Fixpoint index (x : string) (l : list string) : option nat :=
  match l with
  | [] => None
  | y :: l' => if bool_decide (y = x) then Some 0 else S <$> index x l'
  end.

(** ** Methods of [str]

    A text is its UTF-8 encoding.  The byte of ["/"] occurs in no multi-byte
    sequence, so cutting at it is cutting at the character. *)

(** [s.split(sep, 1)[0]] for a one-character [sep]: the text before the first
    [sep], the whole text when there is none. *)
Fixpoint before_char (sep : ascii) (s : string) : string :=
  match s with
  | EmptyString => EmptyString
  | String c s' =>
      if Ascii.eqb c sep then EmptyString else String c (before_char sep s')
  end.

Definition byte (c : ascii) : N := N_of_ascii c.

Definition between (lo hi b : N) : bool := (lo <=? b)%N && (b <=? hi)%N.

(** The characters [str.isspace] accepts, by the length of their encoding:
    U+0009..U+000D, U+001C..U+0020; U+0085, U+00A0; U+1680, U+2000..U+200A,
    U+2028, U+2029, U+202F, U+205F, U+3000. *)
Definition ws1 (b : N) : bool := between 9 13 b || between 28 32 b.

Definition ws2 (b1 b2 : N) : bool :=
  (b1 =? 194)%N && ((b2 =? 133)%N || (b2 =? 160)%N).

Definition ws3 (b1 b2 b3 : N) : bool :=
  ((b1 =? 225)%N && (b2 =? 154)%N && (b3 =? 128)%N)
  || ((b1 =? 226)%N && (b2 =? 128)%N
      && (between 128 138 b3 || (b3 =? 168)%N || (b3 =? 169)%N || (b3 =? 175)%N))
  || ((b1 =? 226)%N && (b2 =? 129)%N && (b3 =? 159)%N)
  || ((b1 =? 227)%N && (b2 =? 128)%N && (b3 =? 128)%N).

(** [s.lstrip()] on the bytes of [s]. *)
Fixpoint lstrip (l : list ascii) : list ascii :=
  match l with
  | [] => []
  | a :: l1 =>
      if ws1 (byte a) then lstrip l1
      else
        match l1 with
        | [] => l
        | b :: l2 =>
            if ws2 (byte a) (byte b) then lstrip l2
            else
              match l2 with
              | [] => l
              | c :: l3 =>
                  if ws3 (byte a) (byte b) (byte c) then lstrip l3 else l
              end
        end
  end.

(** [s.rstrip()] on the reversed bytes of [s]: a lead byte is no
    continuation byte, so a trailing encoding is a trailing character. *)
Fixpoint rstrip_rev (l : list ascii) : list ascii :=
  match l with
  | [] => []
  | a :: l1 =>
      if ws1 (byte a) then rstrip_rev l1
      else
        match l1 with
        | [] => l
        | b :: l2 =>
            if ws2 (byte b) (byte a) then rstrip_rev l2
            else
              match l2 with
              | [] => l
              | c :: l3 =>
                  if ws3 (byte c) (byte b) (byte a) then rstrip_rev l3 else l
              end
        end
  end.

Definition rstrip (l : list ascii) : list ascii := rev (rstrip_rev (rev l)).

(** [s.strip()]. *)
Definition strip (s : string) : string :=
  string_of_list_ascii (rstrip (lstrip (list_ascii_of_string s))).

(** ** [str(v)]

    [str] of a text is the text, of an integer its decimal notation, of a
    float its shortest notation (the lexeme is kept), of a list or a
    dictionary the [repr] of its elements between brackets.  The [repr] of a
    text is given for the texts Python prints between single quotes without
    an escape. *)
Fixpoint py_repr (v : json) : string :=
  match v with
  | JNull => "None"
  | JBool true => "True"
  | JBool false => "False"
  | JNum z => pretty z
  | JReal x => x
  | JStr s => "'" +:+ s +:+ "'"
  | JArr l => "[" +:+ String.concat ", " (map py_repr l) +:+ "]"
  | JObj kvs =>
      "{" +:+ String.concat ", "
                (map (fun kv => "'" +:+ fst kv +:+ "': " +:+ py_repr (snd kv)) kvs)
          +:+ "}"
  end.

Definition py_str (v : json) : string :=
  match v with
  | JStr s => s
  | _ => py_repr v
  end.

(** [s.lower()], on the ASCII letters.  The test it serves looks for an
    ASCII word, and no other character lowers to an ASCII letter in a
    position where the word could match. *)
Definition lower_char (c : ascii) : ascii :=
  if between 65 90 (byte c) then ascii_of_N (byte c + 32) else c.

Fixpoint lower (s : string) : string :=
  match s with
  | EmptyString => EmptyString
  | String c s' => String (lower_char c) (lower s')
  end.

(** [needle in s]. *)
Fixpoint contains (needle s : string) : bool :=
  String.prefix needle s
  || match s with
     | EmptyString => false
     | String _ s' => contains needle s'
     end.

(** [l.startswith(p)] and [l.endswith(p)] on bytes. *)
Fixpoint startswith (p l : list ascii) : bool :=
  match p, l with
  | [], _ => true
  | a :: p', b :: l' => Ascii.eqb a b && startswith p' l'
  | _ :: _, [] => false
  end.

Definition endswith (p l : list ascii) : bool := startswith (rev p) (rev l).

(** [l[:-n]]. *)
Definition drop_last (n : nat) (l : list ascii) : list ascii :=
  take (length l - n) l.

End Py.
Import Py.

(* ===================================================================== *)
(** * utils/validators.py *)
(* ===================================================================== *)

Module Validators.

Definition matrix := list (list string).

(** The column check of [validate_matrix]: the first data row (numbered
    from [i]) whose length differs from the header's raises. *)
Fixpoint check_columns (header_cols : nat) (i : nat) (rows : matrix) : res unit :=
  match rows with
  | [] => Ok ()
  | row :: rows' =>
      if bool_decide (length row ≠ header_cols)
      then Raise (Exn ValueError
             ("マトリクスの行[" +:+ str_nat i +:+ "]の列数が不正です（期待: "
              +:+ str_nat header_cols +:+ "、実際: " +:+ str_nat (length row) +:+ "）"))
      else check_columns header_cols (S i) rows'
  end.

(** [validate_matrix(matrix, expected_rows)]. *)
Definition validate_matrix (m : matrix) (expected_rows : option nat) : res bool :=
  match m with
  | [] => Raise (Exn ValueError "マトリクスが空です")
  | header :: rows =>
      _ ← match expected_rows with
          | Some n =>
              if bool_decide (length m ≠ n + 1)
              then Raise (Exn ValueError
                     ("マトリクスの行数が期待値と異なります（期待: "
                      +:+ str_nat (n + 1) +:+ "、実際: " +:+ str_nat (length m) +:+ "）"))
              else Ok ()
          | None => Ok ()
          end;
      _ ← check_columns (length header) 1 rows;
      Ok true
  end.

(** A persona as the validators see it. *)
Definition persona := gmap string json.

(** The loop over [required_keys] of [validate_persona]. *)
Fixpoint check_required (keys : list string) (p : persona) : res unit :=
  match keys with
  | [] => Ok ()
  | key :: keys' =>
      match p !! key with
      | None => Raise (Exn ValueError ("ペルソナに必須項目 '" +:+ key +:+ "' が欠落しています"))
      | Some _ => check_required keys' p
      end
  end.

(** [validate_persona(persona)]. *)
Definition validate_persona (p : persona) : res bool :=
  _ ← check_required ["id"; "industry"; "job_type"; "companies"] p;
  match default (JArr []) (p !! "companies") with
  | JArr companies =>
      if bool_decide (length companies < 3 ∨ 10 < length companies)
      then Raise (Exn ValueError
             ("企業数は3-10社である必要があります（現在: "
              +:+ str_nat (length companies) +:+ "社）"))
      else Ok true
  | _ => Raise (Exn ValueError "companiesはリスト型である必要があります")
  end.

Fixpoint validate_each (personas : list persona) : res unit :=
  match personas with
  | [] => Ok ()
  | p :: rest => _ ← validate_persona p; validate_each rest
  end.

(** [validate_personas(personas, expected_count)]. *)
Definition validate_personas (personas : list persona) (expected_count : option nat)
  : res bool :=
  _ ← match expected_count with
      | Some n =>
          if bool_decide (length personas ≠ n)
          then Raise (Exn ValueError
                 ("ペルソナ数が期待値と異なります（期待: " +:+ str_nat n
                  +:+ "、実際: " +:+ str_nat (length personas) +:+ "）"))
          else Ok ()
      | None => Ok ()
      end;
  _ ← validate_each personas;
  Ok true.

(** The standard categories of [Config]. *)
Definition CATEGORIES : list string := ["フロー"; "役割"; "使用技術"; "経験例"].

(** The loop over [required_keys] of [validate_axes] for the axis numbered
    [i]. *)
Fixpoint check_axis_keys (i : nat) (keys : list string) (a : gmap string json)
  : res unit :=
  match keys with
  | [] => Ok ()
  | key :: keys' =>
      match a !! key with
      | None => Raise (Exn ValueError
                  ("分析軸[" +:+ str_nat i +:+ "]に必須項目 '" +:+ key
                   +:+ "' が欠落しています"))
      | Some _ => check_axis_keys i keys' a
      end
  end.

(** The loop [for i, axis in enumerate(axes)].  The test of the category
    against [CATEGORIES] only writes a warning to the log. *)
Fixpoint check_axes (i : nat) (axes : list (gmap string json)) : res unit :=
  match axes with
  | [] => Ok ()
  | a :: axes' =>
      _ ← check_axis_keys i ["category"; "item"] a;
      check_axes (S i) axes'
  end.

(** [validate_axes(axes)]. *)
Definition validate_axes (axes : list (gmap string json)) : res bool :=
  match axes with
  | [] => Raise (Exn ValueError "分析軸が空です")
  | _ :: _ => _ ← check_axes 0 axes; Ok true
  end.

(** [validate_discussion_points(discussion_points)].  The search for the
    three section titles only writes warnings to the log. *)
Definition validate_discussion_points (discussion_points : string) : res bool :=
  if bool_decide (discussion_points = "") || bool_decide (strip discussion_points = "")
  then Raise (Exn ValueError "論点が空です")
  else Ok true.

End Validators.

(* ===================================================================== *)
(** * core/step4_matrix_evaluation.py *)
(* ===================================================================== *)

Module Step4.
Import Validators.

(** An axis is a dictionary read with [axis['category']] and [axis['item']]. *)
Definition axis := gmap string string.

(** The [companies] entry of a row record: a list (joined on output) or a
    text used as it is. *)
Inductive companies_field :=
| CompaniesList (l : list string)
| CompaniesText (s : string).

(** One row record of the model output.  Every entry is read with
    [row_data.get(key, default)], so each may be absent. *)
Record row_data := RowData {
  persona_id : option string;
  age_range : option string;
  industry : option string;
  job_type : option string;
  companies : option companies_field;
  evaluations : option (gmap string string)
}.

Definition identity_header : list string :=
  ["ペルソナID/年齢"; "業界"; "職種"; "在籍企業イメージ"].

(** [d[k]] on an axis. *)
Definition getitem (d : axis) (k : string) : res string :=
  match d !! k with
  | Some v => Ok v
  | None => Raise (Exn KeyError k)
  end.

(** [f"{axis['category']} - {axis['item']}"]. *)
Definition column_name (a : axis) : res string :=
  c ← getitem a "category";
  i ← getitem a "item";
  Ok (c +:+ " - " +:+ i).

(** The loop [for axis in axes: header.append(column_name)]. *)
Fixpoint column_names (axes : list axis) : res (list string) :=
  match axes with
  | [] => Ok []
  | a :: axes' =>
      n ← column_name a;
      ns ← column_names axes';
      Ok (n :: ns)
  end.

Definition render_companies (c : companies_field) : string :=
  match c with
  | CompaniesList l => join "、" l
  | CompaniesText s => s
  end.

(** The evaluation cells of one row: [evaluations.get(column_name, "")] for
    each axis, the column name being computed again for every row. *)
Fixpoint evaluation_cells (evals : gmap string string) (axes : list axis)
  : res (list string) :=
  match axes with
  | [] => Ok []
  | a :: axes' =>
      n ← column_name a;
      cells ← evaluation_cells evals axes';
      Ok (default "" (evals !! n) :: cells)
  end.

Definition convert_row (axes : list axis) (r : row_data) : res (list string) :=
  let pid := default "" (persona_id r) in
  let age := default "" (age_range r) in
  let ind := default "" (industry r) in
  let job := default "" (job_type r) in
  let comp := default "" (render_companies <$> companies r) in
  cells ← evaluation_cells (default ∅ (evaluations r)) axes;
  Ok (([pid +:+ "/" +:+ age; ind; job; comp] ++ cells)%list).

Fixpoint convert_rows (axes : list axis) (matrix_data : list row_data) : res matrix :=
  match matrix_data with
  | [] => Ok []
  | r :: rest =>
      row ← convert_row axes r;
      rows ← convert_rows axes rest;
      Ok (row :: rows)
  end.

(** [_convert_to_2d_list(matrix_data, personas, axes, age_ranges)]; the
    persona list and the age ranges are not read by the body. *)
Definition _convert_to_2d_list (matrix_data : list row_data) (axes : list axis)
  : res matrix :=
  names ← column_names axes;
  rows ← convert_rows axes matrix_data;
  Ok ((identity_header ++ names)%list :: rows).

Section Evaluate.

(** A persona is only counted and forwarded to the model here. *)
Context {persona : Type}.

(** The model call of the [idx]-th iteration: it raises, or returns a record
    whose ['matrix'] entry may be absent ([result.get('matrix', [])]). *)
Variable generate_json : nat -> persona -> res (option (list row_data)).

(** The loop over the personas, one call each, blocks concatenated in
    persona order. *)
Fixpoint collect (idx : nat) (personas : list persona) : res (list row_data) :=
  match personas with
  | [] => Ok []
  | p :: ps =>
      result ← generate_json idx p;
      rest ← collect (S idx) ps;
      Ok ((default [] result ++ rest)%list)
  end.

Definition evaluate_matrix (personas : list persona) (axes : list axis)
  (age_ranges : list string) : res matrix :=
  all_matrix_data ← collect 0 personas;
  m ← _convert_to_2d_list all_matrix_data axes;
  let expected_rows := length personas * length age_ranges in
  _ ← validate_matrix m (Some expected_rows);
  Ok m.

End Evaluate.

End Step4.

(* ===================================================================== *)
(** * services/modification_service.py *)
(* ===================================================================== *)

Module Modification.

(** A persona is a dictionary; the merge reads ['id'] and ['companies'] and
    overwrites whatever entries the delta carries. *)
Definition persona := gmap string json.

(** The grid held by the state: after a cell edit a cell holds whatever
    value the delta supplied. *)
Definition grid := list (list json).

(** [current_data]: the entries the merge reads, each possibly absent, and
    the remaining entries, which are only copied. *)
Record state := State {
  st_personas : option (list persona);
  st_axes : option json;
  st_matrix : option grid;
  st_discussion_points : option json;
  st_rest : gmap string json
}.

(** One element of ['cell_updates'].  An index is a JSON integer, or [None]
    when the entry is missing or null; the value read by
    [update.get('value')] is [JNull] when missing. *)
Record cell_update := CellUpdate {
  row_index : option Z;
  col_index : option Z;
  value : option json
}.

(** [modified_data]: the delta proposed by the model. *)
Record delta := Delta {
  d_personas : option (list persona);
  d_axes : option json;
  d_cell_updates : option (list cell_update);
  d_discussion_points : option json
}.

(** [d[k]] on a persona. *)
Definition getitem (d : persona) (k : string) : res json :=
  match d !! k with
  | Some v => Ok v
  | None => Raise (Exn KeyError k)
  end.

(** [len(p.get('companies', []))], evaluated for a log line. *)
Definition companies_count (p : persona) : res nat :=
  py_len (default (JArr []) (p !! "companies")).

(** The inner loop [for i, orig_p in enumerate(result['personas'])]: the
    first persona whose id equals the delta's is updated in place with
    [dict.update], then the loop breaks. *)
Fixpoint update_first (mod_p : persona) (personas : list persona) : res (list persona) :=
  match personas with
  | [] => Ok []
  | orig_p :: rest =>
      orig_id ← getitem orig_p "id";
      mod_id ← getitem mod_p "id";
      if bool_decide (orig_id = mod_id) then
        _ ← companies_count orig_p;
        let updated := mod_p ∪ orig_p in
        _ ← companies_count updated;
        Ok (updated :: rest)
      else
        rest' ← update_first mod_p rest;
        Ok (orig_p :: rest')
  end.

(** The outer loop [for mod_p in modified_personas]; [result['personas']]
    is looked up at every turn. *)
Fixpoint apply_persona_mods (modified_personas : list persona)
  (personas : option (list persona)) : res (option (list persona)) :=
  match modified_personas with
  | [] => Ok personas
  | mod_p :: mods =>
      _ ← match mod_p !! "companies" with
          | Some c => py_len c
          | None => Ok 0
          end;
      current ← match personas with
                | Some l => Ok l
                | None => Raise (Exn KeyError "personas")
                end;
      updated ← update_first mod_p current;
      apply_persona_mods mods (Some updated)
  end.

(** Python list indexing: an index in [0, n) counts from the front, one in
    [-n, 0) from the back, any other raises [IndexError]. *)
Definition norm_index (n : nat) (i : Z) : option nat :=
  if bool_decide (0 ≤ i < Z.of_nat n)%Z then Some (Z.to_nat i)
  else if bool_decide (- Z.of_nat n ≤ i < 0)%Z then Some (Z.to_nat (i + Z.of_nat n))
  else None.

(** [matrix[row_idx][col_idx] = new_value]. *)
Definition set_cell (m : grid) (row_idx col_idx : Z) (new_value : json) : res grid :=
  match norm_index (length m) row_idx with
  | None => Raise (Exn IndexError "list index out of range")
  | Some r =>
      match m !! r with
      | None => Raise (Exn IndexError "list index out of range")
      | Some row =>
          match norm_index (length row) col_idx with
          | None => Raise (Exn IndexError "list assignment index out of range")
          | Some c => Ok (<[r := <[c := new_value]> row]> m)
          end
      end
  end.

(** Truthiness of an index read with [update.get]: [None] and [0] are
    falsy. *)
Definition index_truthy (i : option Z) : bool :=
  match i with
  | Some z => truthy (JNum z)
  | None => false
  end.

(** One turn of [for update in cell_updates]. *)
Definition apply_cell_update (m : grid) (update : cell_update) : res grid :=
  let row_idx := row_index update in
  let col_idx := col_index update in
  let new_value := default JNull (value update) in
  match row_idx, col_idx with
  | Some r, Some c =>
      if index_truthy row_idx && index_truthy col_idx
         && bool_decide (r < Z.of_nat (length m))%Z
      then set_cell m r c new_value
      else Ok m
  | _, _ => Ok m
  end.

Fixpoint apply_cell_updates (m : grid) (cell_updates : list cell_update) : res grid :=
  match cell_updates with
  | [] => Ok m
  | update :: rest =>
      m' ← apply_cell_update m update;
      apply_cell_updates m' rest
  end.

(** [_apply_modifications(modification_type, modified_data, current_data)].
    The deep copy makes the result a fresh value; a raised exception
    discards it. *)
Definition _apply_modifications (modification_type : string)
  (modified_data : delta) (current_data : state) : res state :=
  let result := current_data in
  if bool_decide (modification_type = "personas") then
    personas ← apply_persona_mods (default [] (d_personas modified_data))
                                  (st_personas result);
    Ok (State personas (st_axes result) (st_matrix result)
              (st_discussion_points result) (st_rest result))
  else if bool_decide (modification_type = "axes") then
    match d_axes modified_data with
    | Some axes =>
        Ok (State (st_personas result) (Some axes) (st_matrix result)
                  (st_discussion_points result) (st_rest result))
    | None => Ok result
    end
  else if bool_decide (modification_type = "matrix_cells") then
    matrix ← apply_cell_updates (default [] (st_matrix result))
                                (default [] (d_cell_updates modified_data));
    Ok (State (st_personas result) (st_axes result)
              (match st_matrix result with Some _ => Some matrix | None => None end)
              (st_discussion_points result) (st_rest result))
  else if bool_decide (modification_type = "discussion_points") then
    match d_discussion_points modified_data with
    | Some text =>
        Ok (State (st_personas result) (st_axes result) (st_matrix result)
                  (Some text) (st_rest result))
    | None => Ok result
    end
  else Ok result.

(** ** [_detect_modification_target] *)

Definition persona_keywords : list string :=
  ["企業"; "ペルソナ"; "業界"; "職種"; "companies"; "候補"].

Definition axes_keywords : list string :=
  ["分析軸"; "軸"; "カテゴリ"; "フロー"; "役割"; "使用技術"; "経験例"].

Definition matrix_keywords : list string :=
  ["評価"; "マトリクス"; "〇"; "△"; "▲"; "セル"; "行"; "列"].

Definition discussion_keywords : list string :=
  ["論点"; "ディスカッション"; "議論"; "確認"].

(** [any(kw in request for kw in keywords)]. *)
Definition any_in (keywords : list string) (request : string) : bool :=
  existsb (fun kw => contains kw request) keywords.

(** A text between double quotes. *)
Definition quoted (s : string) : string :=
  String (ascii_of_nat 34) (s +:+ String (ascii_of_nat 34) "").

(** The dictionary returned by the detection: its two entries. *)
Record target := Target {
  target_type : string;
  target_constraints : string
}.

(** [_detect_modification_target(request)]. *)
Definition _detect_modification_target (request : string) : target :=
  if any_in persona_keywords request then
    Target "personas"
      "companies配列は各ペルソナ3-10社の範囲内で維持、企業名のバリエーションを増やす場合は既存企業を置き換える、既存のペルソナIDは維持"
  else if any_in axes_keywords request then
    Target "axes"
      ("カテゴリは[" +:+ quoted "フロー" +:+ ", " +:+ quoted "役割" +:+ ", "
       +:+ quoted "使用技術" +:+ ", " +:+ quoted "経験例"
       +:+ "]のいずれか、合計20-30軸に収める")
  else if any_in matrix_keywords request then
    Target "matrix_cells"
      "評価記号は〇/△/▲のいずれか、ペルソナIDと年齢、分析軸を明示"
  else if any_in discussion_keywords request then
    Target "discussion_points" "3つの論点を維持、Markdown形式"
  else
    Target "general" "既存の構造を維持しつつ、指定された箇所のみ変更".

End Modification.

(* ===================================================================== *)
(** * utils/matrix_sync.py *)
(* ===================================================================== *)

Module MatrixSync.

Definition persona := gmap string json.
Definition matrix := list (list string).

Definition ID_HEADER : string := "ペルソナID/年齢".
Definition COMPANIES_HEADER : string := "在籍企業イメージ".

Section Sync.

(** The built-in [str].  The synchronisation applies it to whatever the
    company lists hold; nothing below depends on what it prints. *)
Variable str : json -> string.

(** The loop that fills [persona_companies].  A persona without a truthy id
    is skipped; a text id is entered (a later persona with the same id
    overwrites); a list or dictionary id cannot be hashed and raises; an id
    of another kind is entered under a key that no text equals, so the
    entry can never be read back and is left out here. *)
Fixpoint build_table (personas : list persona) (persona_companies : gmap string json)
  : res (gmap string json) :=
  match personas with
  | [] => Ok persona_companies
  | p :: rest =>
      match p !! "id" with
      | None => build_table rest persona_companies
      | Some pid =>
          if negb (truthy pid) then build_table rest persona_companies
          else
            match pid with
            | JStr s =>
                build_table rest
                  (<[s := default (JArr []) (p !! "companies")]> persona_companies)
            | JArr _ | JObj _ => Raise (Exn TypeError "unhashable type")
            | _ => build_table rest persona_companies
            end
      end
  end.

(** The rendering of a company list. *)
Definition companies_str (companies : json) : string :=
  match companies with
  | JArr l => join "、" (str <$> l)
  | _ => str companies
  end.

(** The leading id token of a cell: [(cell.split("/", 1)[0] or "").strip()]. *)
Definition leading_id (cell : string) : string := strip (before_char "/" cell).

(** The body of [for row in matrix[1:]]. *)
Definition sync_row (id_col companies_col : nat) (persona_companies : gmap string json)
  (row : list string) : list string :=
  if bool_decide (length row ≤ Nat.max id_col companies_col)%nat then row
  else
    match row !! id_col with
    | None => row
    | Some cell =>
        let persona_id := leading_id cell in
        if bool_decide (persona_id = "") then row
        else
          match persona_companies !! persona_id with
          | None => row
          | Some JNull => row
          | Some companies => <[companies_col := companies_str companies]> row
          end
    end.

(** [sync_matrix_companies_with_personas(matrix, personas)]. *)
Definition sync_matrix_companies_with_personas (m : matrix) (personas : list persona)
  : res matrix :=
  if bool_decide (length m < 2) then Ok m
  else
    match m with
    | [] => Ok m
    | header :: rows =>
        match index ID_HEADER header, index COMPANIES_HEADER header with
        | Some id_col, Some companies_col =>
            persona_companies ← build_table personas ∅;
            Ok (header :: (sync_row id_col companies_col persona_companies <$> rows))
        | _, _ => Ok m
        end
    end.

End Sync.

End MatrixSync.

(* ===================================================================== *)
(** * The [json] package of the Python library *)
(* ===================================================================== *)

(** [json.loads] and [JSONDecoder.raw_decode] are not part of the
    repository; they are modelled after the decoder of CPython, on the bytes
    of the text.  A float is kept as its lexeme, a dictionary as the list of
    its pairs in source order (a lookup takes the last pair of a key).  The
    position a [JSONDecodeError] reports is left out: the parser of the
    repository only tests which message it carries.  The recursion limit of
    the interpreter is not modelled. *)

Module PyJson.

Inductive decode_error :=
| ExpectingValue
| ExpectingPropertyName
| ExpectingColon
| ExpectingComma
| UnterminatedString
| InvalidControlCharacter
| InvalidEscape
| InvalidUnicodeEscape
| ExtraData
| UnexpectedBOM.

(** The message of the [JSONDecodeError]. *)
Definition error_message (e : decode_error) : string :=
  match e with
  | ExpectingValue => "Expecting value"
  | ExpectingPropertyName => "Expecting property name enclosed in double quotes"
  | ExpectingColon => "Expecting ':' delimiter"
  | ExpectingComma => "Expecting ',' delimiter"
  | UnterminatedString => "Unterminated string starting at"
  | InvalidControlCharacter => "Invalid control character at"
  | InvalidEscape => "Invalid \escape"
  | InvalidUnicodeEscape => "Invalid \uXXXX escape"
  | ExtraData => "Extra data"
  | UnexpectedBOM => "Unexpected UTF-8 BOM (decode using utf-8-sig)"
  end.

(** The outcome of scanning a value off the front of a text. *)
Inductive scan (A : Type) :=
| Scanned (a : A) (rest : list ascii)
| Failed (e : decode_error).
Arguments Scanned {A} a rest.
Arguments Failed {A} e.

Definition chr (n : N) : ascii := ascii_of_N n.

(** The double quote. *)
Definition dquote : ascii := chr 34.

Definition is_ws (c : ascii) : bool :=
  (c =? " ")%char || (c =? chr 9)%char || (c =? chr 10)%char || (c =? chr 13)%char.

Fixpoint skip_ws (l : list ascii) : list ascii :=
  match l with
  | [] => []
  | c :: l' => if is_ws c then skip_ws l' else l
  end.

Definition is_digit (c : ascii) : bool := between 48 57 (byte c).

(** The longest run of digits at the front, and what follows it. *)
Fixpoint span_digits (l : list ascii) : list ascii * list ascii :=
  match l with
  | [] => ([], [])
  | c :: l' =>
      if is_digit c then let '(ds, r) := span_digits l' in (c :: ds, r)
      else ([], l)
  end.

Definition digits_value (ds : list ascii) : Z :=
  fold_left (fun acc d => (10 * acc + (Z.of_N (byte d) - 48))%Z) ds 0%Z.

(** The optional fraction [\.[0-9]+]. *)
Definition scan_frac (l : list ascii) : list ascii * list ascii :=
  match l with
  | c :: l' =>
      if (c =? ".")%char then
        match span_digits l' with
        | ([], _) => ([], l)
        | (ds, r) => (c :: ds, r)
        end
      else ([], l)
  | [] => ([], l)
  end.

(** The optional sign of an exponent. *)
Definition scan_sign (l : list ascii) : list ascii * list ascii :=
  match l with
  | s :: r => if (s =? "+")%char || (s =? "-")%char then ([s], r) else ([], l)
  | [] => ([], l)
  end.

(** The optional exponent [[eE][-+]?[0-9]+]. *)
Definition scan_exp (l : list ascii) : list ascii * list ascii :=
  match l with
  | c :: l' =>
      if (c =? "e")%char || (c =? "E")%char then
        let '(sign, l'') := scan_sign l' in
        match span_digits l'' with
        | ([], _) => ([], l)
        | (ds, r) => ((c :: sign ++ ds)%list, r)
        end
      else ([], l)
  | [] => ([], l)
  end.

(** The optional minus sign. *)
Definition scan_minus (l : list ascii) : bool * list ascii :=
  match l with
  | c :: l' => if (c =? "-")%char then (true, l') else (false, l)
  | [] => (false, l)
  end.

(** The integer part from its first digit [d]: [0] alone, or a non-zero
    digit and the digits that follow. *)
Definition scan_int (d : ascii) (l : list ascii) : list ascii * list ascii :=
  if (d =? "0")%char then ([d], l)
  else let '(ds, r) := span_digits l in (d :: ds, r).

(** The value of a number: an integer when there is neither fraction nor
    exponent, a float otherwise. *)
Definition number_value (neg : bool) (int_digits frac exp : list ascii) : json :=
  match frac, exp with
  | [], [] =>
      JNum (if neg then - digits_value int_digits else digits_value int_digits)%Z
  | _, _ =>
      JReal (string_of_list_ascii
               ((if neg then ["-"%char] else []) ++ int_digits ++ frac ++ exp)%list)
  end.

(** The number pattern of the decoder: an optional minus sign, the integer
    part, the optional fraction and the optional exponent. *)
Definition scan_number (l : list ascii) : option (json * list ascii) :=
  let '(neg, l1) := scan_minus l in
  match l1 with
  | d :: l2 =>
      if is_digit d then
        let '(int_digits, l3) := scan_int d l2 in
        let '(frac, l4) := scan_frac l3 in
        let '(exp, l5) := scan_exp l4 in
        Some (number_value neg int_digits frac exp, l5)
      else None
  | [] => None
  end.

(** [l] without the prefix [p], when it starts with it. *)
Fixpoint strip_prefix (p l : list ascii) : option (list ascii) :=
  match p, l with
  | [], _ => Some l
  | a :: p', b :: l' => if (a =? b)%char then strip_prefix p' l' else None
  | _ :: _, [] => None
  end.

Definition chars (s : string) : list ascii := list_ascii_of_string s.

(** The constant [word], whose first character has been read, if the text
    goes on with the rest of it. *)
Definition scan_word (word : string) (v : json) (l : list ascii)
  : option (json * list ascii) :=
  r ← strip_prefix (chars word) l; Some (v, r).

(** The constants [null], [true], [false], [NaN], [Infinity], [-Infinity],
    told apart by their first character. *)
Definition scan_constant (l : list ascii) : option (json * list ascii) :=
  match l with
  | [] => None
  | c :: l1 =>
      if (c =? "n")%char then scan_word "ull" JNull l1
      else if (c =? "t")%char then scan_word "rue" (JBool true) l1
      else if (c =? "f")%char then scan_word "alse" (JBool false) l1
      else if (c =? "N")%char then scan_word "aN" (JReal "NaN") l1
      else if (c =? "I")%char then scan_word "nfinity" (JReal "Infinity") l1
      else if (c =? "-")%char then scan_word "Infinity" (JReal "-Infinity") l1
      else None
  end.

(** ** Strings *)

Definition hex_value (c : ascii) : option N :=
  let b := byte c in
  if between 48 57 b then Some (b - 48)%N
  else if between 97 102 b then Some (b - 87)%N
  else if between 65 70 b then Some (b - 55)%N
  else None.

Definition hex4 (a b c d : ascii) : option N :=
  x1 ← hex_value a; x2 ← hex_value b; x3 ← hex_value c; x4 ← hex_value d;
  Some (((x1 * 16 + x2) * 16 + x3) * 16 + x4)%N.

(** The UTF-8 encoding of a code point (a lone surrogate is encoded like
    any other code point of its range). *)
Definition utf8_encode (cp : N) : list ascii :=
  if (cp <? 128)%N then [chr cp]
  else if (cp <? 2048)%N then
    [chr (192 + cp / 64); chr (128 + cp mod 64)]
  else if (cp <? 65536)%N then
    [chr (224 + cp / 4096); chr (128 + (cp / 64) mod 64); chr (128 + cp mod 64)]
  else
    [chr (240 + cp / 262144); chr (128 + (cp / 4096) mod 64);
     chr (128 + (cp / 64) mod 64); chr (128 + cp mod 64)].

Definition simple_escape (c : ascii) : option ascii :=
  if (c =? dquote)%char then Some dquote
  else if (c =? "\")%char then Some "\"%char
  else if (c =? "/")%char then Some "/"%char
  else if (c =? "b")%char then Some (chr 8)
  else if (c =? "f")%char then Some (chr 12)
  else if (c =? "n")%char then Some (chr 10)
  else if (c =? "r")%char then Some (chr 13)
  else if (c =? "t")%char then Some (chr 9)
  else None.

(** The bytes of a high surrogate that turned out to be alone. *)
Definition flush (pending : option N) (acc : list ascii) : list ascii :=
  match pending with
  | Some hi => (rev (utf8_encode hi) ++ acc)%list
  | None => acc
  end.

(** The code point of one [\uXXXX] escape joins the state: a low surrogate
    completes a pending high one, a high surrogate waits for its pair, any
    other code point is written after what was pending. *)
Definition push_code_point (cp : N) (pending : option N) (acc : list ascii)
  : option N * list ascii :=
  match pending with
  | Some hi =>
      if between 56320 57343 cp
      then (None, (rev (utf8_encode (65536 + (hi - 55296) * 1024 + (cp - 56320))) ++ acc)%list)
      else if between 55296 56319 cp then (Some cp, flush pending acc)
      else (None, (rev (utf8_encode cp) ++ flush pending acc)%list)
  | None =>
      if between 55296 56319 cp then (Some cp, acc)
      else (None, (rev (utf8_encode cp) ++ acc)%list)
  end.

(** [scanstring], from the character after the opening quote.  [acc] holds
    the decoded bytes in reverse; [pending] is a high surrogate escape just
    read, which the decoder joins with a low surrogate escape when one
    follows at once. *)
Fixpoint scan_string (l : list ascii) (pending : option N) (acc : list ascii)
  : scan string :=
  match l with
  | [] => Failed UnterminatedString
  | c :: l1 =>
      if (c =? dquote)%char
      then Scanned (string_of_list_ascii (rev (flush pending acc))) l1
      else if (c =? "\")%char then
        match l1 with
        | [] => Failed UnterminatedString
        | e :: l2 =>
            if (e =? "u")%char then
              match l2 with
              | h1 :: h2 :: h3 :: h4 :: l6 =>
                  match hex4 h1 h2 h3 h4 with
                  | None => Failed InvalidUnicodeEscape
                  | Some cp =>
                      let '(pending', acc') := push_code_point cp pending acc in
                      scan_string l6 pending' acc'
                  end
              | _ => Failed InvalidUnicodeEscape
              end
            else
              match simple_escape e with
              | Some d => scan_string l2 None (d :: flush pending acc)
              | None => Failed InvalidEscape
              end
        end
      else if (byte c <? 32)%N then Failed InvalidControlCharacter
      else scan_string l1 None (c :: flush pending acc)
  end.

(** ** Values *)

(** [scan_once] with the loops of [JSONObject] and [JSONArray].  [fuel]
    bounds the number of nested calls; [json_loads] supplies more than a
    text can use. *)
Fixpoint scan_once (fuel : nat) (l : list ascii) {struct fuel} : scan json :=
  match fuel with
  | 0 => Failed ExpectingValue
  | S fuel' =>
      match l with
      | [] => Failed ExpectingValue
      | c :: l1 =>
          if (c =? dquote)%char then
            match scan_string l1 None [] with
            | Scanned s r => Scanned (JStr s) r
            | Failed e => Failed e
            end
          else if (c =? "{")%char then
            match skip_ws l1 with
            | d :: l2 =>
                if (d =? "}")%char then Scanned (JObj []) l2
                else if (d =? dquote)%char then
                  match scan_members fuel' l2 [] with
                  | Scanned kvs r => Scanned (JObj kvs) r
                  | Failed e => Failed e
                  end
                else Failed ExpectingPropertyName
            | [] => Failed ExpectingPropertyName
            end
          else if (c =? "[")%char then
            match skip_ws l1 with
            | d :: l2 =>
                if (d =? "]")%char then Scanned (JArr []) l2
                else
                  match scan_elements fuel' (d :: l2) [] with
                  | Scanned vs r => Scanned (JArr vs) r
                  | Failed e => Failed e
                  end
            | [] => Failed ExpectingValue
            end
          else
            match scan_constant l with
            | Some (v, r) => Scanned v r
            | None =>
                match scan_number l with
                | Some (v, r) => Scanned v r
                | None => Failed ExpectingValue
                end
            end
      end
  end

(** The pairs of an object, from the character after the opening quote of a
    key; [acc] holds the pairs read so far in reverse. *)
with scan_members (fuel : nat) (l : list ascii) (acc : list (string * json))
  {struct fuel} : scan (list (string * json)) :=
  match fuel with
  | 0 => Failed ExpectingValue
  | S fuel' =>
      match scan_string l None [] with
      | Failed e => Failed e
      | Scanned key l1 =>
          match skip_ws l1 with
          | c :: l2 =>
              if (c =? ":")%char then
                match scan_once fuel' (skip_ws l2) with
                | Failed e => Failed e
                | Scanned v l3 =>
                    match skip_ws l3 with
                    | d :: l4 =>
                        if (d =? "}")%char then Scanned (rev ((key, v) :: acc)) l4
                        else if (d =? ",")%char then
                          match skip_ws l4 with
                          | q :: l5 =>
                              if (q =? dquote)%char
                              then scan_members fuel' l5 ((key, v) :: acc)
                              else Failed ExpectingPropertyName
                          | [] => Failed ExpectingPropertyName
                          end
                        else Failed ExpectingComma
                    | [] => Failed ExpectingComma
                    end
                end
              else Failed ExpectingColon
          | [] => Failed ExpectingColon
          end
      end
  end

(** The elements of an array, from the first character of an element. *)
with scan_elements (fuel : nat) (l : list ascii) (acc : list json)
  {struct fuel} : scan (list json) :=
  match fuel with
  | 0 => Failed ExpectingValue
  | S fuel' =>
      match scan_once fuel' l with
      | Failed e => Failed e
      | Scanned v l1 =>
          match skip_ws l1 with
          | d :: l2 =>
              if (d =? "]")%char then Scanned (rev (v :: acc)) l2
              else if (d =? ",")%char
              then scan_elements fuel' (skip_ws l2) (v :: acc)
              else Failed ExpectingComma
          | [] => Failed ExpectingComma
          end
      end
  end.

(** Enough fuel for a text: every nested call is preceded by a character
    read, and a call costs at most two units. *)
Definition fuel_for (l : list ascii) : nat := 2 * length l + 2.

(** The outcome of [json.loads]. *)
Inductive decoded :=
| Decoded (v : json)
| NotDecoded (e : decode_error).

Definition BOM : list ascii := [chr 239; chr 187; chr 191].

(** [json.loads(s)]: leading whitespace, one value, trailing whitespace. *)
Definition json_loads (s : string) : decoded :=
  let l := chars s in
  match strip_prefix BOM l with
  | Some _ => NotDecoded UnexpectedBOM
  | None =>
      match scan_once (fuel_for l) (skip_ws l) with
      | Failed e => NotDecoded e
      | Scanned v rest =>
          match skip_ws rest with
          | [] => Decoded v
          | _ :: _ => NotDecoded ExtraData
          end
      end
  end.

(** [json.JSONDecoder().raw_decode(s)]: one value from the first character,
    no whitespace skipped; the index returned is not used by the caller. *)
Definition raw_decode (s : string) : decoded :=
  let l := chars s in
  match scan_once (fuel_for l) l with
  | Failed e => NotDecoded e
  | Scanned v _ => Decoded v
  end.

End PyJson.

(* ===================================================================== *)
(** * utils/llm_client.py *)
(* ===================================================================== *)

Module LLMClient.
Import PyJson.

(** ** [generate] *)

(** What the service answers: the finish reason and the content of the
    first choice, which may be missing. *)
Record completion := Completion {
  finish_reason : string;
  content : option string
}.

(** [result and result.strip()] and its negation. *)
Definition blank (result : option string) : bool :=
  match result with
  | None => true
  | Some text => bool_decide (strip text = "")
  end.

(** [generate], given the outcome of the service call.  Whatever the call
    raises is logged and raised again. *)
Definition generate (response : res completion) : res string :=
  r ← response;
  let result := content r in
  if bool_decide (finish_reason r = "length") && negb (blank result)
  then Ok (default "" result)
  else if blank result
  then Raise (Exn Exception ("応答が空です。finish_reason: " +:+ finish_reason r))
  else Ok (default "" result).

(** ** [generate_with_retry] *)

Definition MAX_RETRIES : nat := 3.
Definition RETRY_DELAY : nat := 2.

Definition rate_limit_message : string :=
  "OpenAI APIのレート制限により処理を中断しました".

Definition retries_exhausted_message : string :=
  "予期しないエラー: 最大リトライ回数に到達しました".

(** ["rate_limit" in error_msg.lower()]. *)
Definition is_rate_limit (e : exn) : bool := contains "rate_limit" (lower (exn_msg e)).

Section Retry.

(** The outcome of the service call made by the attempt of each number. *)
Variable service : nat -> res completion.

(** The loop [for attempt in range(max_retries)], from [attempt] on with
    [remaining] turns left; [waits] records the arguments of [time.sleep]
    in order. *)
Fixpoint retry_loop (remaining attempt max_retries : nat) (waits : list nat)
  : res string * list nat :=
  match remaining with
  | 0 => (Raise (Exn Exception retries_exhausted_message), waits)
  | S remaining' =>
      match generate (service attempt) with
      | Ok text => (Ok text, waits)
      | Raise e =>
          if is_rate_limit e then
            if bool_decide (attempt < max_retries - 1)
            then retry_loop remaining' (S attempt) max_retries (waits ++ [2 ^ attempt])%list
            else (Raise (Exn Exception rate_limit_message), waits)
          else
            if bool_decide (attempt < max_retries - 1)
            then retry_loop remaining' (S attempt) max_retries (waits ++ [RETRY_DELAY])%list
            else (Raise e, waits)
      end
  end.

Definition generate_with_retry (max_retries : option nat) : res string * list nat :=
  let max_retries := default MAX_RETRIES max_retries in
  retry_loop max_retries 0 max_retries [].

End Retry.

(** ** [_parse_json] *)

Definition fence_json : list ascii := chars "```json".
Definition fence : list ascii := chars "```".

(** The cleaning between two attempts: trim, drop a leading fence marker
    (with the tag [json] or bare), drop a trailing one, trim. *)
Definition clean (response_text : string) : string :=
  let cleaned := chars (strip response_text) in
  let cleaned :=
    if startswith fence_json cleaned then drop 7 cleaned
    else if startswith fence cleaned then drop 3 cleaned
    else cleaned in
  let cleaned := if endswith fence cleaned then drop_last 3 cleaned else cleaned in
  strip (string_of_list_ascii cleaned).

(** [text.find('{')]: the text from its first opening brace. *)
Fixpoint from_first_brace (l : list ascii) : option (list ascii) :=
  match l with
  | [] => None
  | c :: l' => if (c =? "{")%char then Some l else from_first_brace l'
  end.

(** The walk [for i in range(start, len(text))]: [seen] holds the characters
    walked over, in reverse; the result is [text[start:i+1]] at the first
    closing brace that brings the depth to zero. *)
Fixpoint walk_braces (l : list ascii) (depth : Z) (in_string escape : bool)
  (seen : list ascii) : option (list ascii) :=
  match l with
  | [] => None
  | ch :: l' =>
      if (ch =? "\")%char && negb escape
      then walk_braces l' depth in_string true (ch :: seen)
      else
        let in_string :=
          if (ch =? dquote)%char && negb escape then negb in_string else in_string in
        if negb in_string then
          if (ch =? "{")%char
          then walk_braces l' (depth + 1) in_string false (ch :: seen)
          else if (ch =? "}")%char then
            if (depth - 1 =? 0)%Z then Some (rev (ch :: seen))
            else walk_braces l' (depth - 1) in_string false (ch :: seen)
          else walk_braces l' depth in_string false (ch :: seen)
        else walk_braces l' depth in_string false (ch :: seen)
  end.

(** The candidate of the last resort: the first brace-balanced stretch of
    the original text. *)
Definition first_object_candidate (text : string) : option string :=
  l ← from_first_brace (chars text);
  string_of_list_ascii <$> walk_braces l 0 false false [].

(** The exception raised when every fallback failed.  Its message quotes the
    message of the last decoding error; the position and the excerpt of the
    response that follow it in the source are left out. *)
Definition parse_failure (e : decode_error) : exn :=
  Exn Exception ("JSON解析に失敗しました: " +:+ error_message e).

Definition parse_exhausted_message : string :=
  "予期しないエラー: JSON解析の最大リトライ回数に到達しました".

(** The loop [for attempt in range(max_retries)] of [_parse_json]. *)
Fixpoint parse_loop (remaining attempt max_retries : nat)
  (response_text original_text : string) : res json :=
  match remaining with
  | 0 => Raise (Exn Exception parse_exhausted_message)
  | S remaining' =>
      match json_loads response_text with
      | Decoded result => Ok result
      | NotDecoded e =>
          let fallback :=
            if bool_decide (attempt < max_retries - 1)
            then parse_loop remaining' (S attempt) max_retries
                            (clean response_text) original_text
            else
              match first_object_candidate original_text with
              | Some candidate =>
                  match json_loads candidate with
                  | Decoded result => Ok result
                  | NotDecoded _ => Raise (parse_failure e)
                  end
              | None => Raise (parse_failure e)
              end in
          if contains "Extra data" (error_message e) then
            match raw_decode response_text with
            | Decoded result => Ok result
            | NotDecoded _ => fallback
            end
          else fallback
      end
  end.

Definition _parse_json (response_text : string) : res json :=
  parse_loop 3 0 3 response_text response_text.

(** ** [generate_json] *)

Definition generate_json (response : res completion) : res json :=
  response_text ← generate response;
  _parse_json response_text.

End LLMClient.

(* ===================================================================== *)
(** * Reading the record a model call returned *)
(* ===================================================================== *)

Module Record.

(** The dictionary a decoded object stands for: of two pairs with the same
    key the later one counts. *)
Definition dict_of (kvs : list (string * json)) : gmap string json :=
  list_to_map (rev kvs).

(** [result.get(...)] needs a dictionary: any other value has no [get]. *)
Definition as_dict (v : json) : res (gmap string json) :=
  match v with
  | JObj kvs => Ok (dict_of kvs)
  | _ => Raise (Exn AttributeError "object has no attribute 'get'")
  end.

End Record.

(* ===================================================================== *)
(** * core/step4_5_self_review.py *)
(* ===================================================================== *)

Module SelfReview.
Import LLMClient Record.

(** [_matrix_to_markdown(matrix)]. *)
Definition table_line (cells : list string) : string :=
  "| " +:+ join " | " cells +:+ " |".

Definition _matrix_to_markdown (matrix : list (list string)) : string :=
  match matrix with
  | [] => ""
  | header :: rows =>
      join (String (PyJson.chr 10) "")
           (table_line header
            :: table_line (replicate (length header) "---")
            :: (table_line <$> rows))
  end.

(** The result returned when the review failed. *)
Definition review_failed : gmap string json :=
  {[ "has_issues" := JBool false;
     "issues" := JArr [];
     "overall_quality" := JStr "レビュー失敗";
     "confidence_score" := JReal "0.5" ]}.

(** [f"{confidence:.2f}"] accepts a number and nothing else. *)
Definition format_2f (v : json) : res unit :=
  match v with
  | JNum _ | JReal _ | JBool _ => Ok ()
  | JStr _ => Raise (Exn ValueError "Unknown format code 'f' for object of type 'str'")
  | _ => Raise (Exn TypeError "unsupported format string passed to __format__")
  end.

(** The loop that logs [issue.get('description', 'N/A')] for every issue:
    iterating a list yields its elements, iterating a text or a dictionary
    yields texts, which have no [get]. *)
Definition log_issues (issues : json) : res unit :=
  match issues with
  | JArr l =>
      if forallb (fun issue => match issue with JObj _ => true | _ => false end) l
      then Ok ()
      else Raise (Exn AttributeError "object has no attribute 'get'")
  | JStr s =>
      if bool_decide (s = "") then Ok ()
      else Raise (Exn AttributeError "'str' object has no attribute 'get'")
  | JObj kvs =>
      if bool_decide (kvs = []) then Ok ()
      else Raise (Exn AttributeError "'str' object has no attribute 'get'")
  | _ => Raise (Exn TypeError "object is not iterable")
  end.

Section Review.

(** [self.prompt_template.format(job_description=..., matrix=...)]: the
    template is a file outside the sources; formatting it may raise. *)
Variable format_prompt : string -> string -> res string.

(** The service behind [self.llm], by prompt. *)
Variable service : string -> res completion.

(** The body of the [try]. *)
Definition review_body (matrix : list (list string)) (job_description : string)
  : res (gmap string json) :=
  let matrix_markdown := _matrix_to_markdown matrix in
  prompt ← format_prompt job_description matrix_markdown;
  parsed ← generate_json (service prompt);
  result ← as_dict parsed;
  let has_issues := default (JBool false) (result !! "has_issues") in
  let issues := default (JArr []) (result !! "issues") in
  let confidence := default (JReal "0.0") (result !! "confidence_score") in
  _ ← format_2f confidence;
  _ ← py_len issues;
  _ ← (if truthy has_issues then log_issues issues else Ok ());
  Ok result.

(** [review(matrix, job_description, personas, axes)]; the personas and the
    axes are not read. *)
Definition review (matrix : list (list string)) (job_description : string)
  : res (gmap string json) :=
  try_except (review_body matrix job_description) (fun _ => Ok review_failed).

End Review.

(** ** [apply_fixes] *)

(** The loop [for issue in issues] of [apply_fixes].  Each turn reads
    [issue.get(...)] and writes a log line inside a [try] whose handler
    logs the failure, so no turn raises and no turn touches the copy; only
    a value that cannot be walked at all raises, outside the [try]. *)
Definition walk_issues (issues : json) : res unit :=
  match issues with
  | JArr _ | JStr _ | JObj _ => Ok ()
  | _ => Raise (Exn TypeError "object is not iterable")
  end.

(** [apply_fixes(matrix, review_result)]: the copy [[row[:] for row in
    matrix]] holds the cells of [matrix]. *)
Definition apply_fixes (matrix : list (list string)) (review_result : gmap string json)
  : res (list (list string)) :=
  let issues := default (JArr []) (review_result !! "issues") in
  if negb (truthy issues) then Ok matrix
  else
    let modified_matrix := (fun row => row) <$> matrix in
    _ ← walk_issues issues;
    Ok modified_matrix.

End SelfReview.

(* ===================================================================== *)
(** * core/step2_persona_generation.py *)
(* ===================================================================== *)

Module Step2.
Import Validators LLMClient Record.

(** [d[k]] on a persona. *)
Definition getitem (d : persona) (k : string) : res json :=
  match d !! k with
  | Some v => Ok v
  | None => Raise (Exn KeyError k)
  end.

(** The summary of the existing personas reads ['industry'] and
    ['job_type'] of each. *)
Fixpoint existing_summary (existing_personas : list persona) : res unit :=
  match existing_personas with
  | [] => Ok ()
  | p :: rest =>
      _ ← getitem p "industry";
      _ ← getitem p "job_type";
      existing_summary rest
  end.

(** The loop [for i, persona in enumerate(new_personas): persona['id'] =
    f"P{start_id + i}"] over the value found under ['personas']: the
    elements of a list must be dictionaries; an empty text or dictionary is
    walked without effect; anything else cannot be walked or assigned to. *)
Fixpoint assign_ids (next_id : nat) (new_personas : list json) : res (list persona) :=
  match new_personas with
  | [] => Ok []
  | JObj kvs :: rest =>
      rest' ← assign_ids (S next_id) rest;
      Ok (<["id" := JStr ("P" +:+ str_nat next_id)]> (dict_of kvs) :: rest')
  | _ :: _ => Raise (Exn TypeError "object does not support item assignment")
  end.

Definition renumber (start_id : nat) (new_personas : json) : res (list persona) :=
  match new_personas with
  | JArr l => assign_ids start_id l
  | JStr s =>
      if bool_decide (s = "") then Ok []
      else Raise (Exn TypeError "'str' object does not support item assignment")
  | JObj kvs =>
      if bool_decide (kvs = []) then Ok []
      else Raise (Exn TypeError "'str' object does not support item assignment")
  | _ => Raise (Exn TypeError "object is not iterable")
  end.

Section Additional.

(** The prompt template is a file outside the sources. *)
Variable format_prompt : string -> res string.
Variable service : string -> res completion.

(** [generate_additional_personas(job_description, analysis,
    existing_personas, additional_count)]. *)
Definition generate_additional_personas (job_description : string)
  (existing_personas : list persona) (additional_count : nat)
  : res (list persona) :=
  _ ← existing_summary existing_personas;
  prompt ← format_prompt job_description;
  parsed ← generate_json (service prompt);
  result ← as_dict parsed;
  let start_id := length existing_personas + 1 in
  new_personas ← renumber start_id (default (JArr []) (result !! "personas"));
  _ ← validate_personas new_personas (Some additional_count);
  Ok new_personas.

End Additional.

End Step2.

(* ===================================================================== *)
(** * core/step3_axes_generation.py *)
(* ===================================================================== *)

Module Step3.
Import LLMClient Record.

Section Update.

(** The outcome of the one service call [update_axes] makes; the prompt is
    an f-string over the serialised arguments and cannot fail to build. *)
Variable response : res completion.

(** The body of the [try] of [update_axes].  An axis is whatever the lists
    hold; [existing_axes + additional_axes] needs a list on the right. *)
Definition update_axes_body (existing_axes : list json) : res (list json) :=
  parsed ← generate_json response;
  result ← as_dict parsed;
  if truthy (default (JBool false) (result !! "needs_update")) then
    match default (JArr []) (result !! "additional_axes") with
    | JArr additional_axes => Ok (existing_axes ++ additional_axes)%list
    | _ => Raise (Exn TypeError "can only concatenate list to list")
    end
  else Ok existing_axes.

(** [update_axes(existing_axes, new_personas, job_description)]; the new
    personas and the job description only enter the prompt. *)
Definition update_axes (existing_axes : list json) : res (list json) :=
  try_except (update_axes_body existing_axes) (fun _ => Ok existing_axes).

End Update.

End Step3.

(* ===================================================================== *)
(** * core/step5_discussion.py *)
(* ===================================================================== *)

Module Step5.
Import Validators LLMClient.

(** [_matrix_to_markdown(matrix)]: the method of the self review, repeated
    in this class line for line. *)
Definition _matrix_to_markdown (matrix : list (list string)) : string :=
  SelfReview._matrix_to_markdown matrix.

Section Extract.

Context {persona axis : Type}.

(** [self.prompt_template.format(...)] over the job description, the
    rendered matrix and the serialised personas and axes: the template is a
    file outside the sources; formatting it may raise. *)
Variable format_prompt : string -> string -> list persona -> list axis -> res string.

(** The service behind [self.llm], by prompt. *)
Variable service : string -> res completion.

(** [extract_discussion_points(matrix, job_description, personas, axes)];
    whatever the body raises is logged and raised again. *)
Definition extract_discussion_points (matrix : list (list string))
  (job_description : string) (personas : list persona) (axes : list axis)
  : res string :=
  let matrix_markdown := _matrix_to_markdown matrix in
  prompt ← format_prompt job_description matrix_markdown personas axes;
  discussion_points ← generate (service prompt);
  _ ← validate_discussion_points discussion_points;
  Ok discussion_points.

End Extract.

End Step5.

(* ===================================================================== *)
(** * services/qa_service.py *)
(* ===================================================================== *)

Module QA.
Import LLMClient.

Definition QA_HISTORY_MAX_ITEMS : nat := 10.
Definition QA_HISTORY_MAX_CHARS : nat := 100 * 100.

(** One turn of the conversation: a dictionary of texts, read with
    [turn.get('q', '')] and [turn.get('a', '')]. *)
Definition turn := gmap string string.

Section Trim.

(** [len(json.dumps(item, ensure_ascii=False))]: the serialiser belongs to
    the Python library; the trimming only compares the sums of these
    lengths with the budget. *)
Variable dumps_len : turn -> nat.

(** [sum(len(json.dumps(item, ...)) for item in trimmed)]. *)
Definition total (trimmed : list turn) : nat := sum_list (dumps_len <$> trimmed).

(** [history[-n:]] for a positive [n]. *)
Definition last_items (n : nat) (history : list turn) : list turn :=
  drop (length history - n) history.

(** The loop [while total > max_chars and trimmed: trimmed.pop(0)]. *)
Fixpoint pop_over (max_chars : nat) (trimmed : list turn) : list turn :=
  match trimmed with
  | [] => []
  | _ :: rest =>
      if bool_decide (max_chars < total trimmed) then pop_over max_chars rest
      else trimmed
  end.

(** [_trim_qa_history(history)]. *)
Definition _trim_qa_history (history : list turn) : list turn :=
  match history with
  | [] => []
  | _ :: _ => pop_over QA_HISTORY_MAX_CHARS (last_items QA_HISTORY_MAX_ITEMS history)
  end.

(** The history as it enters the prompt. *)
Definition history_text (history : list turn) : string :=
  join (String (PyJson.chr 10) (String (PyJson.chr 10) ""))
       ((fun t => "Q: " +:+ default "" (t !! "q") +:+ String (PyJson.chr 10) ""
                  +:+ "A: " +:+ default "" (t !! "a")) <$> history).

Definition user_prompt (context_json : string) (history : list turn) (question : string)
  : string :=
  "CONTEXT_JSON:" +:+ String (PyJson.chr 10) "" +:+ context_json
  +:+ String (PyJson.chr 10) (String (PyJson.chr 10) "")
  +:+ "HISTORY:" +:+ String (PyJson.chr 10) "" +:+ history_text history
  +:+ String (PyJson.chr 10) (String (PyJson.chr 10) "")
  +:+ "QUESTION:" +:+ String (PyJson.chr 10) "" +:+ question
  +:+ String (PyJson.chr 10) (String (PyJson.chr 10) "")
  +:+ "---" +:+ String (PyJson.chr 10) ""
  +:+ "制約: 回答は日本語で簡潔に。長くても2000文字以内。不要な注釈やコードブロックは付けない。".

(** The service behind [self.llm], by user prompt. *)
Variable service : string -> res completion.

(** What [answer_question] returns: the entries ['answer'] and
    ['updated_history']. *)
Record answered := Answered {
  answer : string;
  updated_history : list turn
}.

(** [answer_question(question, context, history)], with the context given
    by its serialisation ([json.dumps], or [str] when that fails) and a
    missing history given as [None].  The line appended to the history file
    is not modelled. *)
Definition answer_question (question context_json : string)
  (history : option (list turn)) : res answered :=
  let history := default [] history in
  let history := _trim_qa_history history in
  text ← generate (service (user_prompt context_json history question));
  let new_entry : turn := {[ "q" := question; "a" := strip text ]} in
  let history := _trim_qa_history (history ++ [new_entry])%list in
  Ok (Answered (strip text) history).

End Trim.

End QA.

(* ===================================================================== *)
(** * Properties of the error monad *)
(* ===================================================================== *)

Section ResFacts.
Context {A B : Type}.

Lemma bind_Ok_inv (m : res A) (f : A -> res B) (b : B) :
  (m ≫= f) = Ok b -> ∃ a, m = Ok a ∧ f a = Ok b.
Proof. destruct m as [a|e]; cbn; [eauto | discriminate]. Qed.

Lemma bind_Ok (a : A) (f : A -> res B) : (Ok a ≫= f) = f a.
Proof. reflexivity. Qed.

Lemma bind_Raise (e : exn) (f : A -> res B) : (Raise e ≫= f) = Raise e.
Proof. reflexivity. Qed.

End ResFacts.

(** Inverts a hypothesis [x ← m; k = Ok b] into its successful steps. *)
Ltac inv_bind H :=
  repeat match type of H with
  | (_ ≫= _) = Ok _ =>
      let a := fresh "a" in
      let Ha := fresh "Hstep" in
      apply bind_Ok_inv in H; destruct H as (a & Ha & H)
  end.

(* ===================================================================== *)
(** * Writing JSON texts *)
(* ===================================================================== *)

Module Quote.

(** The text with every single quote replaced by the double quote JSON
    requires; the sample texts below are written with single quotes. *)
Definition requote (s : string) : string :=
  string_of_list_ascii
    ((fun c => if (c =? "'")%char then PyJson.dquote else c) <$> list_ascii_of_string s).

End Quote.

(* ===================================================================== *)
(** * Facts on [validate_matrix] *)
(* ===================================================================== *)

Module ValidatorsFacts.
Import Validators.

Lemma check_columns_ok h i rows :
  check_columns h i rows = Ok () <-> Forall (fun row => length row = h) rows.
Proof.
  revert i; induction rows as [|row rows IH]; intros i; cbn.
  - split; [constructor | reflexivity].
  - case_bool_decide as Hlen.
    + split; [discriminate | intros Hall; inversion Hall; contradiction].
    + rewrite IH. split.
      * intros Hall; constructor; [lia | exact Hall].
      * intros Hall; inversion Hall; assumption.
Qed.

Lemma check_columns_cases h i rows :
  check_columns h i rows = Ok () ∨
  ∃ msg, check_columns h i rows = Raise (Exn ValueError msg).
Proof.
  revert i; induction rows as [|row rows IH]; intros i; cbn; [by left|].
  case_bool_decide; [right; eauto | apply IH].
Qed.

(** [validate_matrix] with an expected row count accepts exactly the
    matrices with that many data rows under a header, all as wide as it. *)
Lemma validate_matrix_ok m n :
  validate_matrix m (Some n) = Ok true <->
  length m = n + 1 ∧ Forall (fun row => length row = length (hd [] m)) m.
Proof.
  destruct m as [|header rows]; cbn.
  - split; [discriminate | intros [H _]; lia].
  - case_bool_decide as Hlen; cbn.
    + split; [discriminate | intros [H _]; lia].
    + destruct (check_columns_cases (length header) 1 rows) as [Hc | [msg Hc]].
      * rewrite Hc; cbn. apply check_columns_ok in Hc.
        split; [intros _; split; [lia | by constructor] | reflexivity].
      * rewrite Hc; cbn. split; [discriminate|].
        intros [_ Hall]. inversion Hall as [|? ? _ Hrows]; subst.
        apply (check_columns_ok _ 1) in Hrows. congruence.
Qed.

(** Whatever [validate_matrix] rejects, it rejects with a [ValueError]. *)
Lemma validate_matrix_cases m n :
  validate_matrix m (Some n) = Ok true ∨
  ∃ msg, validate_matrix m (Some n) = Raise (Exn ValueError msg).
Proof.
  destruct m as [|header rows]; cbn; [right; eauto|].
  case_bool_decide; cbn; [right; eauto|].
  destruct (check_columns_cases (length header) 1 rows) as [Hc | [msg Hc]];
    rewrite Hc; cbn; [by left | right; eauto].
Qed.

End ValidatorsFacts.

(* ===================================================================== *)
(** * Matrix assembly and evaluation (step 4) *)
(* ===================================================================== *)

Module Step4Facts.
Import Validators ValidatorsFacts Step4.

(** The axes the assembly can label: both entries present. *)
Definition axis_ok (a : axis) : Prop :=
  is_Some (a !! "category") ∧ is_Some (a !! "item").

Lemma column_name_ok a : axis_ok a -> ∃ n, column_name a = Ok n.
Proof.
  intros [[c Hc] [i Hi]]. unfold column_name, getitem.
  rewrite Hc; cbn. rewrite Hi; cbn. eauto.
Qed.

Lemma column_names_ok axes :
  Forall axis_ok axes ->
  ∃ names, column_names axes = Ok names ∧ length names = length axes.
Proof.
  induction 1 as [|a axes Ha _ (names & Hn & Hl)]; cbn; [by exists []|].
  destruct (column_name_ok a Ha) as [n ->]; cbn. rewrite Hn; cbn.
  exists (n :: names). by rewrite /= Hl.
Qed.

(** With the names computed, the evaluation cells are the mapping's entries
    under these names, the empty string standing for a missing entry. *)
Lemma evaluation_cells_spec evals axes names :
  column_names axes = Ok names ->
  evaluation_cells evals axes = Ok ((fun n => default "" (evals !! n)) <$> names).
Proof.
  revert names; induction axes as [|a axes IH]; intros names H; cbn in *.
  - by injection H as <-.
  - inv_bind H. injection H as <-. rewrite Hstep; cbn.
    by rewrite (IH _ Hstep0).
Qed.

(** The cells of an assembled row, written out. *)
Definition expected_row (names : list string) (r : row_data) : list string :=
  ([default "" (persona_id r) +:+ "/" +:+ default "" (age_range r);
    default "" (industry r);
    default "" (job_type r);
    default "" (render_companies <$> companies r)]
   ++ ((fun n => default "" (default ∅ (evaluations r) !! n)) <$> names))%list.

Lemma convert_rows_spec axes names rows :
  column_names axes = Ok names ->
  convert_rows axes rows = Ok (expected_row names <$> rows).
Proof.
  intros Hn; induction rows as [|r rows IH]; cbn; [done|].
  unfold convert_row. rewrite (evaluation_cells_spec _ _ _ Hn); cbn.
  by rewrite IH.
Qed.

Lemma convert_to_2d_list_spec axes names rows :
  column_names axes = Ok names ->
  _convert_to_2d_list rows axes
  = Ok ((identity_header ++ names)%list :: (expected_row names <$> rows)).
Proof.
  intros Hn. unfold _convert_to_2d_list. rewrite Hn; cbn.
  by rewrite (convert_rows_spec _ _ _ Hn).
Qed.

Lemma expected_row_length names r : length (expected_row names r) = 4 + length names.
Proof. unfold expected_row. by rewrite length_app length_fmap. Qed.

(** ** C10 *)


Definition sample_axes : list axis :=
  [ {[ "category" := "フロー"; "item" := "顧客折衝" ]};
    {[ "category" := "役割"; "item" := "PM" ]} ].

Definition sample_rows : list row_data :=
  [ RowData (Some "P1") (Some "25-29") (Some "FA") None
      (Some (CompaniesList ["A"; "B"; "C"]))
      (Some {[ "フロー - 顧客折衝" := "〇" ]});
    RowData None None None None None None ].

Lemma sample_axes_ok : Forall axis_ok sample_axes.
Proof. repeat constructor; eexists; vm_compute; reflexivity. Qed.


(** The assembly of the sample: the absent fields and the absent
    evaluation show as empty cells. *)
Example convert_sample :
  _convert_to_2d_list sample_rows sample_axes
  = Ok [ ["ペルソナID/年齢"; "業界"; "職種"; "在籍企業イメージ";
          "フロー - 顧客折衝"; "役割 - PM"];
         ["P1/25-29"; "FA"; ""; "A、B、C"; "〇"; ""];
         ["/"; ""; ""; ""; ""; ""] ].
Proof. vm_compute. reflexivity. Qed.

(** ** C3 *)

Section EvaluateFacts.
Context {persona : Type}.
Variable generate_json : nat -> persona -> res (option (list row_data)).

(** The shape [validate_matrix] enforces for [expected] data rows. *)
Definition well_shaped (expected : nat) (m : matrix) : Prop :=
  length m = expected + 1 ∧ Forall (fun row => length row = length (hd [] m)) m.

(** C3. A matrix returned by [evaluate_matrix] for P personas and A age
    ranges has exactly P*A + 1 rows, each with as many cells as the header
    row; and when the assembled matrix violates either condition the stage
    raises a validation error ([ValueError]) and returns nothing. *)
Theorem evaluate_matrix_shape
  (personas : list persona) (axes : list axis) (age_ranges : list string) :
  (∀ m, evaluate_matrix generate_json personas axes age_ranges = Ok m ->
        length m = length personas * length age_ranges + 1 ∧
        Forall (fun row => length row = length (hd [] m)) m) ∧
  (∀ data m,
        collect generate_json 0 personas = Ok data ->
        _convert_to_2d_list data axes = Ok m ->
        ¬ well_shaped (length personas * length age_ranges) m ->
        ∃ msg, evaluate_matrix generate_json personas axes age_ranges
               = Raise (Exn ValueError msg)).
Proof.
  split.
  - intros m H. unfold evaluate_matrix in H. inv_bind H.
    injection H as <-. destruct a1.
    + by apply validate_matrix_ok.
    + exfalso. destruct a0 as [|header rows]; cbn in Hstep1; [discriminate|].
      inv_bind Hstep1. discriminate.
  - intros data m Hc Hm Hbad. unfold evaluate_matrix.
    rewrite Hc; cbn. rewrite Hm; cbn.
    destruct (validate_matrix_cases m (length personas * length age_ranges))
      as [Hv | [msg Hv]].
    + apply validate_matrix_ok in Hv. contradiction.
    + rewrite Hv; cbn. eauto.
Qed.

(** The stage does return: when every call yields one row record per age
    range and the axes are well formed, the assembled matrix passes the
    validation. *)
Lemma collect_length (k : nat) idx personas :
  (∀ i p, personas !! i = Some p ->
     ∃ rows, generate_json (idx + i) p = Ok (Some rows) ∧ length rows = k) ->
  ∃ data, collect generate_json idx personas = Ok data ∧
          length data = length personas * k.
Proof.
  revert idx; induction personas as [|p ps IH]; intros idx H; cbn.
  - by exists [].
  - destruct (H 0 p eq_refl) as (rows & Hg & Hl).
    rewrite Nat.add_0_r in Hg. rewrite Hg; cbn.
    destruct (IH (S idx)) as (data & Hd & Hdl).
    { intros i q Hq. replace (S idx + i) with (idx + S i) by lia. by apply H. }
    rewrite Hd; cbn. exists (rows ++ data)%list.
    split; [done|]. rewrite length_app. lia.
Qed.

Lemma evaluate_matrix_returns personas axes age_ranges :
  Forall axis_ok axes ->
  (∀ i p, personas !! i = Some p ->
     ∃ rows, generate_json i p = Ok (Some rows) ∧ length rows = length age_ranges) ->
  ∃ m, evaluate_matrix generate_json personas axes age_ranges = Ok m.
Proof.
  intros Hax Hllm.
  destruct (collect_length (length age_ranges) 0 personas Hllm) as (data & Hd & Hdl).
  destruct (column_names_ok axes Hax) as (names & Hn & Hl).
  unfold evaluate_matrix. rewrite Hd; cbn.
  rewrite (convert_to_2d_list_spec _ _ data Hn); cbn [mbind res_bind].
  match goal with |- context [validate_matrix ?m ?n] =>
    assert (validate_matrix m n = Ok true) as ->; [|cbn; eauto] end.
  apply validate_matrix_ok. split.
  - cbn. rewrite length_fmap. lia.
  - constructor; cbn [hd]; [done|].
    apply Forall_fmap, Forall_forall. intros r _. unfold compose.
    by rewrite expected_row_length length_app.
Qed.

End EvaluateFacts.

(** A run with two personas and one age range. *)
Definition sample_llm (idx : nat) (p : string) : res (option (list row_data)) :=
  Ok (Some [RowData (Some p) (Some "25-29") None None None None]).

Lemma evaluate_matrix_shape_witness :
  evaluate_matrix sample_llm ["P1"; "P2"] sample_axes ["25-29"]
    = Ok [ ["ペルソナID/年齢"; "業界"; "職種"; "在籍企業イメージ";
            "フロー - 顧客折衝"; "役割 - PM"];
           ["P1/25-29"; ""; ""; ""; ""; ""];
           ["P2/25-29"; ""; ""; ""; ""; ""] ] ∧
  ∀ m, evaluate_matrix sample_llm ["P1"; "P2"] sample_axes ["25-29"] = Ok m ->
       length m = 2 * 1 + 1 ∧ Forall (fun row => length row = length (hd [] m)) m.
Proof.
  split; [vm_compute; reflexivity|].
  exact (proj1 (evaluate_matrix_shape sample_llm ["P1"; "P2"] sample_axes ["25-29"])).
Defined.

(** A model that answers with two rows where one is due makes the stage
    fail. *)
Example evaluate_matrix_rejects_extra_row :
  evaluate_matrix
    (fun _ (p : string) =>
       Ok (Some [RowData (Some p) (Some "25-29") None None None None;
                 RowData (Some p) (Some "30-39") None None None None]))
    ["P1"] sample_axes ["25-29"]
  = Raise (Exn ValueError "マトリクスの行数が期待値と異なります（期待: 2、実際: 3）").
Proof. vm_compute. reflexivity. Qed.

End Step4Facts.

(* ===================================================================== *)
(** * The merge engine *)
(* ===================================================================== *)

Module ModificationFacts.
Import Modification.

(** ** Persona deltas *)

(** What one delta entry does to one persona: nothing, or a [dict.update]
    on a persona carrying the same id. *)
Definition updated_by (d p p' : persona) : Prop :=
  p' = p ∨ (is_Some (p !! "id") ∧ p !! "id" = d !! "id" ∧ p' = d ∪ p).

Lemma update_first_spec d ps ps' :
  update_first d ps = Ok ps' ->
  Forall2 (updated_by d) ps ps'.
Proof.
  revert ps'; induction ps as [|p ps IH]; intros ps' H; cbn in H.
  - injection H as <-. constructor.
  - unfold getitem in H.
    destruct (p !! "id") as [pid|] eqn:Hp; cbn in H; [|discriminate].
    destruct (d !! "id") as [did|] eqn:Hd; cbn in H; [|discriminate].
    case_bool_decide as Heq.
    + inv_bind H. injection H as <-. constructor.
      * right. rewrite Hp Hd Heq. eauto.
      * apply Forall2_same_length_lookup; split; [done|].
        intros i x y Hx Hy. left. congruence.
    + inv_bind H. injection H as <-. constructor; [by left | by apply IH].
Qed.

(** An update never changes the id, and only installs entries the delta
    carries. *)
Lemma updated_by_id d p p' : updated_by d p p' -> p' !! "id" = p !! "id".
Proof.
  intros [-> | ([v Hv] & Hid & ->)]; [done|].
  rewrite Hid in Hv. by rewrite (lookup_union_Some_l _ _ _ _ Hv) Hid.
Qed.

Lemma updated_by_entry d p p' k :
  updated_by d p p' ->
  p' !! k = p !! k ∨
  (d !! "id" = p !! "id" ∧ is_Some (d !! k) ∧ p' !! k = d !! k).
Proof.
  intros [-> | (_ & Hid & ->)]; [by left|].
  destruct (d !! k) as [v|] eqn:Hk.
  - right. split; [done|]. split; [eauto|]. by apply lookup_union_Some_l.
  - left. by rewrite lookup_union_r.
Qed.

Lemma updated_by_other d p p' :
  is_Some (p !! "id") -> d !! "id" ≠ p !! "id" -> updated_by d p p' -> p' = p.
Proof. intros _ Hne [-> | (_ & Hid & _)]; [done | congruence]. Qed.

(** The effect of a whole list of delta entries on one persona: every entry
    of the result is the original one or one carried by a delta entry with
    the persona's id. *)
Definition merged_from (mods : list persona) (p p' : persona) : Prop :=
  p' !! "id" = p !! "id" ∧
  ((∀ d, d ∈ mods -> d !! "id" ≠ p !! "id") -> p' = p) ∧
  ∀ k, p' !! k = p !! k ∨
       ∃ d, d ∈ mods ∧ d !! "id" = p !! "id" ∧ is_Some (d !! k) ∧ p' !! k = d !! k.

Lemma merged_from_nil p : merged_from [] p p.
Proof. split; [done|]. split; [done|]. by left. Qed.

Lemma merged_from_cons d mods p p1 p' :
  updated_by d p p1 -> merged_from mods p1 p' -> merged_from (d :: mods) p p'.
Proof.
  intros Hu (Hid & Hsame & Hent).
  pose proof (updated_by_id _ _ _ Hu) as Hid1.
  split; [congruence|]. split.
  - intros Hno.
    assert (p1 = p) as ->.
    { destruct Hu as [-> | (_ & Heq & _)]; [done|].
      exfalso. apply (Hno d); [left | done]. }
    apply Hsame. intros d' Hd'. apply Hno. by right.
  - intros k. destruct (Hent k) as [Hk | (d' & Hin & Hd' & Hsome & Hk)].
    + destruct (updated_by_entry _ _ _ k Hu) as [Hk1 | (Hd & Hsome & Hk1)].
      * left. congruence.
      * right. exists d. split; [left|]. split; [done|]. split; [done|]. congruence.
    + right. exists d'. split; [by right|]. split; [congruence|]. done.
Qed.

Lemma apply_persona_mods_spec mods ps ps' :
  apply_persona_mods mods (Some ps) = Ok ps' ->
  ∃ l, ps' = Some l ∧ Forall2 (merged_from mods) ps l.
Proof.
  revert ps; induction mods as [|d mods IH]; intros ps H; cbn in H.
  - injection H as <-. exists ps. split; [done|].
    apply Forall2_same_length_lookup; split; [done|].
    intros i x y Hx Hy. assert (x = y) as -> by congruence. apply merged_from_nil.
  - inv_bind H. rename Hstep0 into Hstep1.
    apply update_first_spec in Hstep1.
    destruct (IH _ H) as (l & -> & Hl). exists l. split; [done|].
    apply Forall2_same_length_lookup. split.
    + rewrite (Forall2_length _ _ _ Hstep1). by apply Forall2_length in Hl.
    + intros i p p' Hp Hp'.
      destruct (Forall2_lookup_l _ _ _ _ _ Hstep1 Hp) as (p1 & Hp1 & Hu).
      destruct (Forall2_lookup_l _ _ _ _ _ Hl Hp1) as (p2 & Hp2 & Hm).
      assert (p2 = p') as -> by congruence.
      by eapply merged_from_cons.
Qed.

(** A delta entry whose id no persona carries leaves the list as it is. *)
Definition matches (ps : list persona) (d : persona) : bool :=
  existsb (fun p => bool_decide (p !! "id" = d !! "id")) ps.

Lemma update_first_unmatched d ps ps' :
  update_first d ps = Ok ps' -> matches ps d = false -> ps' = ps.
Proof.
  revert ps'; induction ps as [|p ps IH]; intros ps' H Hm; cbn in *.
  - by injection H as <-.
  - apply orb_false_iff in Hm as [Hp Hm]. apply bool_decide_eq_false in Hp.
    unfold getitem in H.
    destruct (p !! "id") as [pid|] eqn:Ep; cbn in H; [|discriminate].
    destruct (d !! "id") as [did|] eqn:Ed; cbn in H; [|discriminate].
    case_bool_decide as Heq; [congruence|].
    inv_bind H. injection H as <-. rewrite (IH _ Hstep); [|done].
    unfold matches. by rewrite Ed.
Qed.

Lemma matches_ids ps ps' d :
  ((.!! "id") <$> ps') = ((.!! "id") <$> ps) -> matches ps' d = matches ps d.
Proof.
  revert ps'; induction ps as [|p ps IH]; intros [|p' ps'] H;
    try discriminate; [done|].
  cbn in H. injection H as Hp H. unfold matches; cbn [existsb].
  rewrite Hp. f_equal. by apply IH.
Qed.

Lemma merged_ids mods (ps l : list persona) :
  Forall2 (merged_from mods) ps l ->
  ((.!! "id") <$> l) = ((.!! "id") <$> ps).
Proof.
  induction 1 as [|p p' ps l (Hid & _) _ IH]; cbn; [done|]. by rewrite Hid IH.
Qed.

Lemma update_first_ids d ps ps' :
  update_first d ps = Ok ps' -> ((.!! "id") <$> ps') = ((.!! "id") <$> ps).
Proof.
  intros H. apply update_first_spec in H.
  induction H as [|p p' ps l Hu _ IH]; cbn; [done|].
  by rewrite (updated_by_id _ _ _ Hu) IH.
Qed.

Lemma apply_persona_mods_filter mods ps r :
  apply_persona_mods mods (Some ps) = Ok r ->
  apply_persona_mods (List.filter (matches ps) mods) (Some ps) = Ok r.
Proof.
  revert ps; induction mods as [|d mods IH]; intros ps H; [done|].
  cbn in H. inv_bind H. rename Hstep0 into Hstep1.
  pose proof (update_first_ids _ _ _ Hstep1) as Hids.
  apply IH in H.
  rewrite (List.filter_ext (matches a0) (matches ps)) in H.
  { intros d'. by rewrite (matches_ids _ _ _ Hids). }
  cbn [List.filter]. destruct (matches ps d) eqn:Hm.
  - cbn. rewrite Hstep; cbn. by rewrite Hstep1.
  - by rewrite (update_first_unmatched _ _ _ Hstep1 Hm) in H.
Qed.

(** ** C2 *)


(** The personas of the running example and a delta that enlarges the
    company list of P2, names a persona that does not exist, and carries
    nothing for P1 and P3. *)
Definition mk_persona (id industry job : string) (companies : list string) : persona :=
  {[ "id" := JStr id; "industry" := JStr industry; "job_type" := JStr job;
     "companies" := JArr (JStr <$> companies) ]}.

Definition sample_state : state :=
  State (Some [ mk_persona "P1" "FA" "control" ["A"; "B"; "C"];
                mk_persona "P2" "auto" "mech" ["D"; "E"; "F"];
                mk_persona "P3" "semi" "process" ["G"; "H"; "I"] ])
        (Some (JArr [])) (Some [[JStr "h"]]) None ∅.

Definition sample_delta : delta :=
  Delta (Some [ {[ "id" := JStr "P2";
                   "companies" := JArr (JStr <$> ["D"; "E"; "F"; "J"; "K"; "L"]) ]};
                {[ "id" := JStr "P9"; "industry" := JStr "none" ]} ])
        None None None.

Definition sample_merged : state :=
  State (Some [ mk_persona "P1" "FA" "control" ["A"; "B"; "C"];
                mk_persona "P2" "auto" "mech" ["D"; "E"; "F"; "J"; "K"; "L"];
                mk_persona "P3" "semi" "process" ["G"; "H"; "I"] ])
        (Some (JArr [])) (Some [[JStr "h"]]) None ∅.

Lemma sample_merge : _apply_modifications "personas" sample_delta sample_state = Ok sample_merged.
Proof. vm_compute. reflexivity. Qed.


(** ** C1 *)

(** The cell of a grid at a position, if any. *)
Definition cell (m : grid) (i j : nat) : option json := m !! i ≫= (.!! j).

(** In range and away from zero, a cell edit overwrites: it returns the
    grid with the one cell replaced. *)
Lemma apply_cell_update_in_range (m : grid) (r c : Z) (v : option json) (row : list json) :
  (0 < r)%Z -> (0 < c)%Z ->
  m !! Z.to_nat r = Some row -> (c < Z.of_nat (length row))%Z ->
  apply_cell_update m (CellUpdate (Some r) (Some c) v)
  = Ok (<[Z.to_nat r := <[Z.to_nat c := default JNull v]> row]> m).
Proof.
  intros Hr Hc Hrow Hlen.
  pose proof (lookup_lt_Some _ _ _ Hrow) as Hlt.
  unfold apply_cell_update, index_truthy, truthy; cbn.
  destruct (Z.eqb_spec r 0) as [?|_]; [lia|].
  destruct (Z.eqb_spec c 0) as [?|_]; [lia|]. cbn.
  rewrite bool_decide_eq_true_2; [lia|].
  unfold set_cell, norm_index.
  rewrite bool_decide_eq_true_2; [lia|]. rewrite Hrow.
  rewrite bool_decide_eq_true_2; [lia|]. reflexivity.
Qed.

Lemma set_cell_frame (m : grid) (i j : nat) (x : json) (row : list json) :
  m !! i = Some row -> j < length row ->
  let m' := <[i := <[j := x]> row]> m in
  cell m' i j = Some x ∧
  length m' = length m ∧
  (∀ i', length <$> (m' !! i') = length <$> (m !! i')) ∧
  ∀ i' j', (i', j') ≠ (i, j) -> cell m' i' j' = cell m i' j'.
Proof.
  intros Hrow Hj m'. pose proof (lookup_lt_Some _ _ _ Hrow) as Hi.
  unfold cell, m'. split; [|split; [|split]].
  - rewrite list_lookup_insert_eq; [done|]. cbn. by rewrite list_lookup_insert_eq.
  - by rewrite length_insert.
  - intros i'. destruct (decide (i' = i)) as [->|Hne].
    + rewrite list_lookup_insert_eq; [done|]. rewrite Hrow; cbn.
      by rewrite length_insert.
    + by rewrite list_lookup_insert_ne.
  - intros i' j' Hne. destruct (decide (i' = i)) as [->|Hi'].
    + rewrite list_lookup_insert_eq; [done|]. rewrite Hrow; cbn.
      rewrite list_lookup_insert_ne; [congruence | done].
    + by rewrite list_lookup_insert_ne.
Qed.

(** A grid with a header and one data row. *)
Definition sample_grid : grid :=
  [ [JStr "ペルソナID/年齢"; JStr "業界"; JStr "フロー - 顧客折衝"];
    [JStr "P1/25-29"; JStr "FA"; JStr "△"] ].

Definition grid_state (m : grid) : state := State None None (Some m) None ∅.

Definition cells_delta (us : list cell_update) : delta := Delta None None (Some us) None.

(** An edit of an evaluation cell is applied. *)
Example cell_update_applied :
  _apply_modifications "matrix_cells"
    (cells_delta [CellUpdate (Some 1%Z) (Some 2%Z) (Some (JStr "〇"))])
    (grid_state sample_grid)
  = Ok (grid_state
          [ [JStr "ペルソナID/年齢"; JStr "業界"; JStr "フロー - 顧客折衝"];
            [JStr "P1/25-29"; JStr "FA"; JStr "〇"] ]).
Proof. vm_compute. reflexivity. Qed.

(** C1, at the failing input.  The update names row 1 and column 0: both
    indices are present and the row index is within bounds, so the cell
    (1, 0) is to be overwritten.  The guard [if row_idx and col_idx ...]
    reads the index 0 as a missing one, and the merge returns the state
    unchanged. *)
Theorem cell_update_at_column_zero_is_dropped :
  _apply_modifications "matrix_cells"
    (cells_delta [CellUpdate (Some 1%Z) (Some 0%Z) (Some (JStr "P1/30-39"))])
    (grid_state sample_grid)
  = Ok (grid_state sample_grid).
Proof. vm_compute. reflexivity. Qed.

(** The same happens for row 0, the header row. *)
Example cell_update_at_row_zero_is_dropped :
  _apply_modifications "matrix_cells"
    (cells_delta [CellUpdate (Some 0%Z) (Some 2%Z) (Some (JStr "x"))])
    (grid_state sample_grid)
  = Ok (grid_state sample_grid).
Proof. vm_compute. reflexivity. Qed.

(** A column index past the end of the row is not guarded: the merge
    raises. *)
Example cell_update_column_out_of_range :
  _apply_modifications "matrix_cells"
    (cells_delta [CellUpdate (Some 1%Z) (Some 3%Z) (Some (JStr "x"))])
    (grid_state sample_grid)
  = Raise (Exn IndexError "list assignment index out of range").
Proof. vm_compute. reflexivity. Qed.

End ModificationFacts.

(* ===================================================================== *)
(** * Resynchronising the companies column *)
(* ===================================================================== *)

Module MatrixSyncFacts.
Import MatrixSync.

(** ** [list.index] *)

Lemma index_lookup x l i : index x l = Some i -> l !! i = Some x.
Proof.
  revert i; induction l as [|y l IH]; intros i H; cbn in H; [discriminate|].
  case_bool_decide as Hy.
  - injection H as <-. by rewrite Hy.
  - destruct (index x l) as [k|]; cbn in H; [|discriminate].
    injection H as <-. by apply IH.
Qed.

Lemma index_distinct x y l i j :
  x ≠ y -> index x l = Some i -> index y l = Some j -> i ≠ j.
Proof.
  intros Hne Hi Hj ->. apply index_lookup in Hi, Hj. congruence.
Qed.

Lemma headers_distinct : ID_HEADER ≠ COMPANIES_HEADER.
Proof. discriminate. Qed.

(** ** The table of company lists *)

Section SyncFacts.
Variable str : json -> string.

(** An id that [dict] cannot hash. *)
Definition unhashable (v : json) : bool :=
  match v with JArr _ | JObj _ => true | _ => false end.

Definition hashable_id (p : persona) : Prop :=
  from_option unhashable false (p !! "id") = false.

Lemma build_table_total personas acc :
  Forall hashable_id personas -> ∃ tbl, build_table personas acc = Ok tbl.
Proof.
  intros H; revert acc; induction H as [|p ps Hp _ IH]; intros acc; cbn; [eauto|].
  unfold hashable_id in Hp.
  destruct (p !! "id") as [pid|]; [|apply IH].
  destruct (truthy pid); cbn; [|apply IH].
  destruct pid; cbn in Hp; try discriminate; apply IH.
Qed.

(** Every entry of the table is an entry of the initial table or the
    company list of a persona with a text id. *)
Lemma build_table_lookup personas acc tbl s c :
  build_table personas acc = Ok tbl -> tbl !! s = Some c ->
  acc !! s = Some c ∨ ∃ p, p ∈ personas ∧ p !! "id" = Some (JStr s).
Proof.
  revert acc; induction personas as [|p ps IH]; intros acc H Hs; cbn in H.
  - injection H as <-. by left.
  - assert (Hrest : ∀ acc', build_table ps acc' = Ok tbl -> acc' = acc ->
              acc !! s = Some c ∨ ∃ q, q ∈ p :: ps ∧ q !! "id" = Some (JStr s)).
    { intros acc' H' ->. destruct (IH _ H' Hs) as [?|(q & Hq & Hid)]; [by left|].
      right. exists q. split; [by right | done]. }
    destruct (p !! "id") as [pid|] eqn:Hp; [|by eapply Hrest].
    destruct (truthy pid); cbn in H; [|by eapply Hrest].
    destruct pid; try discriminate; try (by eapply Hrest).
    destruct (IH _ H Hs) as [Hacc|(q & Hq & Hid)].
    + destruct (decide (s0 = s)) as [->|Hne].
      * right. exists p. split; [left | done].
      * left. by rewrite lookup_insert_ne in Hacc.
    + right. exists q. split; [by right | done].
Qed.

(** ** One row *)

Section Row.
Variables (id_col companies_col : nat) (tbl : gmap string json).
Hypothesis columns_distinct : id_col ≠ companies_col.

Notation sync := (sync_row str id_col companies_col tbl).

Lemma sync_row_length row : length (sync row) = length row.
Proof.
  unfold sync_row. case_bool_decide; [done|].
  destruct (row !! id_col); [|done]. case_bool_decide; [done|].
  destruct (tbl !! _) as [[]|]; try done; by rewrite length_insert.
Qed.

Lemma sync_row_other_columns row j :
  j ≠ companies_col -> sync row !! j = row !! j.
Proof.
  intros Hj. unfold sync_row. case_bool_decide; [done|].
  destruct (row !! id_col); [|done]. case_bool_decide; [done|].
  destruct (tbl !! _) as [[]|]; try done; by rewrite list_lookup_insert_ne.
Qed.

(** A row is rewritten only when it holds both columns and its trimmed
    leading id token is a key of the table. *)
Lemma sync_row_changed row :
  sync row ≠ row ->
  id_col < length row ∧ companies_col < length row ∧
  ∃ cell, row !! id_col = Some cell ∧ leading_id cell ≠ "" ∧
          is_Some (tbl !! leading_id cell).
Proof.
  unfold sync_row. case_bool_decide as Hlen; [done|].
  destruct (row !! id_col) as [cell|] eqn:Hcell; [|done].
  case_bool_decide as Hid; [done|].
  destruct (tbl !! leading_id cell) as [c|] eqn:Htbl; [|done].
  intros _. split; [lia|]. split; [lia|]. exists cell. rewrite Htbl. eauto.
Qed.

Lemma sync_row_idempotent row : sync (sync row) = sync row.
Proof.
  unfold sync_row at 2 3. case_bool_decide as Hlen; [|].
  { unfold sync_row. by rewrite bool_decide_eq_true_2. }
  destruct (row !! id_col) as [cell|] eqn:Hcell.
  2:{ unfold sync_row. rewrite bool_decide_eq_false_2; [done|]. by rewrite Hcell. }
  case_bool_decide as Hid.
  { unfold sync_row. rewrite bool_decide_eq_false_2; [done|]. rewrite Hcell.
    by rewrite bool_decide_eq_true_2. }
  assert (Hskip : sync row = row -> sync row = row) by done.
  destruct (tbl !! leading_id cell) as [c|] eqn:Htbl.
  2:{ unfold sync_row. rewrite bool_decide_eq_false_2; [done|]. rewrite Hcell.
      rewrite bool_decide_eq_false_2; [done|]. by rewrite Htbl. }
  assert (Hnew : ∀ s, sync (<[companies_col := s]> row) =
      match c with JNull => <[companies_col := s]> row
              | _ => <[companies_col := companies_str str c]> row end).
  { intros s. unfold sync_row. rewrite length_insert.
    rewrite bool_decide_eq_false_2; [done|].
    rewrite list_lookup_insert_ne; [done|]. rewrite Hcell.
    rewrite bool_decide_eq_false_2; [done|]. rewrite Htbl.
    destruct c; try done; by rewrite list_insert_insert_eq. }
  destruct c; try (by rewrite Hnew).
  unfold sync_row. rewrite bool_decide_eq_false_2; [done|]. rewrite Hcell.
  rewrite bool_decide_eq_false_2; [done|]. by rewrite Htbl.
Qed.

End Row.

(** ** The whole pass *)

Lemma sync_short m personas :
  length m < 2 -> sync_matrix_companies_with_personas str m personas = Ok m.
Proof.
  intros H. unfold sync_matrix_companies_with_personas.
  by rewrite (bool_decide_eq_true_2 _ H).
Qed.

Lemma sync_long header row rows personas :
  sync_matrix_companies_with_personas str (header :: row :: rows) personas
  = match index ID_HEADER header, index COMPANIES_HEADER header with
    | Some id_col, Some companies_col =>
        persona_companies ← build_table personas ∅;
        Ok (header :: (sync_row str id_col companies_col persona_companies
                         <$> (row :: rows)))
    | _, _ => Ok (header :: row :: rows)
    end.
Proof.
  unfold sync_matrix_companies_with_personas.
  rewrite bool_decide_eq_false_2; [cbn; lia | done].
Qed.

(** ** C5 *)

(** C5. Resynchronising twice with the same personas gives what
    resynchronising once gives: the second pass finds the same columns and
    the same table, and rewrites every companies cell with the text it
    already holds (and when the first pass raises, so does the sequence). *)
Theorem resync_idempotent (m : matrix) (personas : list persona) :
  (sync_matrix_companies_with_personas str m personas
     ≫= fun m1 => sync_matrix_companies_with_personas str m1 personas)
  = sync_matrix_companies_with_personas str m personas.
Proof.
  destruct m as [|header [|row rows]].
  - by rewrite !sync_short; cbn; [lia..|rewrite !sync_short; cbn; [lia|]].
  - by rewrite !sync_short; cbn; [lia..|rewrite !sync_short; cbn; [lia|]].
  - rewrite sync_long.
    destruct (index ID_HEADER header) as [id_col|] eqn:Hid.
    2:{ cbn. by rewrite sync_long Hid. }
    destruct (index COMPANIES_HEADER header) as [companies_col|] eqn:Hco.
    2:{ cbn. by rewrite sync_long Hid Hco. }
    destruct (build_table personas ∅) as [tbl|e] eqn:Htbl; [|done].
    cbn. rewrite sync_long Hid Hco Htbl; cbn.
    pose proof (index_distinct _ _ _ _ _ headers_distinct Hid Hco) as Hne.
    rewrite sync_row_idempotent; [done|]. do 3 f_equal.
    rewrite -list_fmap_compose. apply list_fmap_ext. intros _ r _. cbn.
    by apply sync_row_idempotent.
Qed.

(** ** C6 *)

(** C6, as the code has it.  For personas whose ids can be hashed (texts,
    numbers, booleans, null or absent) the pass returns a matrix, and it
    differs from the input only in the companies column of data rows that
    hold both located columns and whose leading id token -- the text before
    the first "/" with the surrounding whitespace trimmed -- is non-empty
    and is the id of a persona of the list.  The number of rows, the length
    of every row, the header row, every other column, every row whose
    trimmed token is empty or matches no persona, and every row too short
    for the located columns are as they were. *)
Theorem resync_frame (m : matrix) (personas : list persona) :
  Forall hashable_id personas ->
  ∃ m', sync_matrix_companies_with_personas str m personas = Ok m' ∧
    length m' = length m ∧
    m' !! 0 = m !! 0 ∧
    ∀ i row row', m !! i = Some row -> m' !! i = Some row' ->
      length row' = length row ∧
      ∀ j, row' !! j ≠ row !! j ->
        0 < i ∧
        ∃ id_col cell p,
          index ID_HEADER (hd [] m) = Some id_col ∧
          index COMPANIES_HEADER (hd [] m) = Some j ∧
          id_col < length row ∧ j < length row ∧
          row !! id_col = Some cell ∧
          leading_id cell ≠ "" ∧
          p ∈ personas ∧ p !! "id" = Some (JStr (leading_id cell)).
Proof.
  intros Hhash.
  assert (Hid : ∀ m0 : matrix, ∃ m', Ok m0 = Ok m' ∧ length m' = length m0 ∧
            m' !! 0 = m0 !! 0 ∧
            ∀ i row row', m0 !! i = Some row -> m' !! i = Some row' ->
              length row' = length row ∧
              ∀ j, row' !! j ≠ row !! j ->
                0 < i ∧
                ∃ id_col cell p,
                  index ID_HEADER (hd [] m0) = Some id_col ∧
                  index COMPANIES_HEADER (hd [] m0) = Some j ∧
                  id_col < length row ∧ j < length row ∧
                  row !! id_col = Some cell ∧
                  leading_id cell ≠ "" ∧
                  p ∈ personas ∧ p !! "id" = Some (JStr (leading_id cell))).
  { intros m0. exists m0. do 3 (split; [done|]).
    intros i row row' H H'. assert (row' = row) as -> by congruence.
    split; [done|]. intros j Hj. by destruct Hj. }
  destruct m as [|header [|r rows]];
    [rewrite sync_short; [cbn; lia | apply Hid]..|].
  rewrite sync_long.
  destruct (index ID_HEADER header) as [id_col|] eqn:Hidc; [|apply Hid].
  destruct (index COMPANIES_HEADER header) as [companies_col|] eqn:Hcc; [|apply Hid].
  destruct (build_table_total personas ∅ Hhash) as [tbl Htbl].
  rewrite Htbl; cbn [mbind res_bind]. eexists. split; [reflexivity|].
  split; [by rewrite /= !length_fmap|]. split; [done|].
  intros [|i] row row' Hrow Hrow'.
  { cbn in Hrow, Hrow'. assert (row' = row) as -> by congruence.
    split; [done|]. intros j Hj. by destruct Hj. }
  change ((r :: rows) !! i = Some row) in Hrow.
  change ((sync_row str id_col companies_col tbl <$> r :: rows) !! i = Some row')
    in Hrow'.
  rewrite list_lookup_fmap Hrow in Hrow'. cbn in Hrow'. injection Hrow' as <-.
  split; [apply sync_row_length|].
  intros j Hj. split; [lia|].
  destruct (decide (j = companies_col)) as [->|Hne].
  2:{ by rewrite sync_row_other_columns in Hj. }
  assert (Hch : sync_row str id_col companies_col tbl row ≠ row).
  { intros Heq. by rewrite Heq in Hj. }
  apply sync_row_changed in Hch as (Hl1 & Hl2 & cell & Hcell & Hne & [c Hc]).
  destruct (build_table_lookup _ _ _ _ _ Htbl Hc) as [Hempty|(p & Hp & Hpid)].
  { by rewrite lookup_empty in Hempty. }
  2:{ exact (index_distinct _ _ _ _ _ headers_distinct Hidc Hcc). }
  exists id_col, cell, p. cbn [hd]. by repeat split.
Qed.

End SyncFacts.

(** ** The pass on the running example *)

Definition P1 : persona :=
  {[ "id" := JStr "P1"; "companies" := JArr [JStr "A"; JStr "B"; JStr "C"] ]}.

Definition sample_matrix : matrix :=
  [ [ID_HEADER; "業界"; "職種"; COMPANIES_HEADER; "フロー - 顧客折衝"];
    ["P1/25-29"; "FA"; "control"; "old"; "〇"];
    ["P2/25-29"; "auto"; "mech"; "kept"; "△"];
    ["P1/30-39"; "FA"] ].

Example sync_sample :
  sync_matrix_companies_with_personas py_str sample_matrix [P1]
  = Ok [ [ID_HEADER; "業界"; "職種"; COMPANIES_HEADER; "フロー - 顧客折衝"];
         ["P1/25-29"; "FA"; "control"; "A、B、C"; "〇"];
         ["P2/25-29"; "auto"; "mech"; "kept"; "△"];
         ["P1/30-39"; "FA"] ].
Proof. vm_compute. reflexivity. Qed.

Lemma resync_frame_witness :
  Forall hashable_id [P1] ∧
  ∃ m', sync_matrix_companies_with_personas py_str sample_matrix [P1] = Ok m' ∧
        length m' = length sample_matrix ∧ m' !! 0 = sample_matrix !! 0.
Proof.
  assert (H : Forall hashable_id [P1]) by (repeat constructor).
  split; [exact H|].
  destruct (resync_frame py_str sample_matrix [P1] H) as (m' & Hm & Hlen & Hhd & _).
  exists m'. by repeat split.
Defined.

(** C6, as stated, at a failing input.  The id cell reads [" P1/25-29"]:
    the text before the separator is [" P1"], which is the id of no persona
    of the list, and still the pass rewrites the companies cell of the row,
    because the token is trimmed before it is looked up. *)
Lemma resync_untrimmed_token_counterexample :
  ¬ (∀ m', sync_matrix_companies_with_personas py_str
             [[ID_HEADER; COMPANIES_HEADER]; [" P1/25-29"; "old"]] [P1] = Ok m' ->
       ∀ i row row',
         [[ID_HEADER; COMPANIES_HEADER]; [" P1/25-29"; "old"]] !! i = Some row ->
         m' !! i = Some row' -> row' ≠ row ->
         ∃ cell p, row !! 0 = Some cell ∧ p ∈ [P1] ∧
                   p !! "id" = Some (JStr (before_char "/" cell))).
Proof.
  intros H.
  destruct (H [[ID_HEADER; COMPANIES_HEADER]; [" P1/25-29"; "A、B、C"]]
              ltac:(vm_compute; reflexivity)
              1 [" P1/25-29"; "old"] [" P1/25-29"; "A、B、C"]
              eq_refl eq_refl ltac:(discriminate))
    as (cell & p & Hcell & Hp & Hid).
  injection Hcell as <-. apply list_elem_of_singleton in Hp as ->.
  vm_compute in Hid. discriminate.
Qed.

End MatrixSyncFacts.

(* ===================================================================== *)
(** * The retry wrapper *)
(* ===================================================================== *)

Module RetryFacts.
Import LLMClient.

Section RetryFacts.
Variable service : nat -> res completion.

(** What the caller sees when the last attempt failed with [e]. *)
Definition final_failure (e : exn) : res string :=
  if is_rate_limit e then Raise (Exn Exception rate_limit_message) else Raise e.

Lemma retry_loop_all_fail (K : nat) (last : exn) :
  (∀ i, i < K -> ∃ e, generate (service i) = Raise e) ->
  generate (service (K - 1)) = Raise last ->
  ∀ remaining attempt waits,
    0 < remaining -> attempt + remaining = K ->
    (retry_loop service remaining attempt K waits).1 = final_failure last.
Proof.
  intros Hall Hlast remaining.
  induction remaining as [|r IH]; intros attempt waits Hpos Hsum; [lia|].
  cbn [retry_loop].
  destruct (Hall attempt ltac:(lia)) as [e He]. rewrite He.
  destruct (decide (attempt < K - 1)) as [Hlt|Hge].
  - rewrite !(bool_decide_eq_true_2 _ Hlt).
    destruct (is_rate_limit e); apply IH; lia.
  - rewrite !(bool_decide_eq_false_2 _ Hge).
    assert (attempt = K - 1) as -> by lia.
    assert (e = last) as -> by congruence.
    unfold final_failure. by destruct (is_rate_limit last).
Qed.

(** ** C7 *)

(** C7, as the code has it.  When all K > 0 attempts fail, the caller gets
    the failure of the last attempt itself if its message does not mention
    a rate limit; if it does, the caller gets a new exception of class
    [Exception] with a fixed message in its place. *)
Theorem generate_with_retry_exhausted (K : nat) (last : exn) :
  0 < K ->
  (∀ i, i < K -> ∃ e, generate (service i) = Raise e) ->
  generate (service (K - 1)) = Raise last ->
  (generate_with_retry service (Some K)).1
  = if is_rate_limit last
    then Raise (Exn Exception rate_limit_message)
    else Raise last.
Proof.
  intros HK Hall Hlast. unfold generate_with_retry; cbn [default].
  by apply (retry_loop_all_fail K last Hall Hlast).
Qed.

End RetryFacts.

(** A service that is down, and one that is throttled. *)
Definition connection_error : exn := Exn (ServiceError "APIConnectionError") "Connection error.".

Definition throttled : exn :=
  Exn (ServiceError "RateLimitError") "Error code: 429 - rate_limit_exceeded".

Lemma generate_with_retry_exhausted_witness :
  generate_with_retry (fun _ => Raise connection_error) (Some 3)
  = (Raise connection_error, [2; 2]) ∧
  (generate_with_retry (fun _ => Raise connection_error) (Some 3)).1
  = if is_rate_limit connection_error
    then Raise (Exn Exception rate_limit_message)
    else Raise connection_error.
Proof.
  split; [vm_compute; reflexivity|].
  apply (generate_with_retry_exhausted (fun _ => Raise connection_error) 3 connection_error).
  - lia.
  - intros i _. by exists connection_error.
  - reflexivity.
Defined.

(** The throttled service: two waits of 1 and 2 seconds, then an exception
    that is not the one the service raised. *)
Example generate_with_retry_throttled :
  generate_with_retry (fun _ => Raise throttled) (Some 3)
  = (Raise (Exn Exception rate_limit_message), [1; 2]).
Proof. vm_compute. reflexivity. Qed.

(** C7, as stated, at a failing input: after three throttled attempts the
    exception raised is not the last failure of the service. *)
Lemma generate_with_retry_rate_limit_counterexample :
  ¬ ((generate_with_retry (fun _ => Raise throttled) (Some 3)).1
     = generate (Raise throttled)).
Proof. vm_compute. discriminate. Qed.

End RetryFacts.

(* ===================================================================== *)
(** * The self review *)
(* ===================================================================== *)

Module SelfReviewFacts.
Import LLMClient SelfReview.

Section ReviewFacts.
Variable format_prompt : string -> string -> res string.
Variable service : string -> res completion.

Lemma review_of_failure matrix job_description e :
  review_body format_prompt service matrix job_description = Raise e ->
  review format_prompt service matrix job_description = Ok review_failed.
Proof. intros H. unfold review. by rewrite H. Qed.

(** ** C8 *)

(** C8. [review] never raises.  When the model call fails, or when its
    output cannot be parsed, it returns the default result: [has_issues] is
    false, [issues] is the empty list and [confidence_score] is 0.5. *)
Theorem review_swallows_failures (matrix : list (list string)) (job_description : string) :
  (∃ r, review format_prompt service matrix job_description = Ok r) ∧
  (∀ prompt e,
     format_prompt job_description (_matrix_to_markdown matrix) = Ok prompt ->
     generate_json (service prompt) = Raise e ->
     review format_prompt service matrix job_description = Ok review_failed) ∧
  review_failed !! "has_issues" = Some (JBool false) ∧
  review_failed !! "issues" = Some (JArr []) ∧
  review_failed !! "confidence_score" = Some (JReal "0.5").
Proof.
  split; [|split; [|by vm_compute]].
  - unfold review.
    destruct (review_body format_prompt service matrix job_description); cbn; eauto.
  - intros prompt e Hp Hg. apply (review_of_failure _ _ e).
    unfold review_body. rewrite Hp; cbn. by rewrite Hg.
Qed.

End ReviewFacts.

(** A transport error, and an answer that is no JSON. *)
Definition plain_prompt (job_description matrix : string) : res string :=
  Ok (job_description +:+ matrix).

Lemma review_swallows_failures_witness :
  review plain_prompt (fun _ => Raise RetryFacts.connection_error) [["h"]; ["x"]] "job"
    = Ok review_failed ∧
  review plain_prompt (fun _ => Ok (Completion "stop" (Some "no issues found")))
         [["h"]; ["x"]] "job"
    = Ok review_failed.
Proof.
  split.
  - eapply (proj1 (proj2 (review_swallows_failures plain_prompt
                            (fun _ => Raise RetryFacts.connection_error)
                            [["h"]; ["x"]] "job"))); reflexivity.
  - vm_compute. reflexivity.
Defined.

End SelfReviewFacts.

(* ===================================================================== *)
(** * The additive persona run (step 2) *)
(* ===================================================================== *)

Module Step2Facts.
Import Validators LLMClient Record Step2.

(** The id [f"P{n}"]. *)
Definition persona_id (n : nat) : json := JStr ("P" +:+ str_nat n).

Lemma assign_ids_spec next_id l ps :
  assign_ids next_id l = Ok ps ->
  length ps = length l ∧
  ∀ i p, ps !! i = Some p -> p !! "id" = Some (persona_id (next_id + i)).
Proof.
  revert next_id ps; induction l as [|v l IH]; intros next_id ps H; cbn in H.
  - injection H as <-. split; [done|]. intros i p Hp. by rewrite lookup_nil in Hp.
  - destruct v; try discriminate.
    inv_bind H. injection H as <-.
    destruct (IH _ _ Hstep) as [Hlen Hids]. split; [by rewrite /= Hlen|].
    intros [|i] p Hp; cbn in Hp.
    + injection Hp as <-. by rewrite lookup_insert_eq Nat.add_0_r.
    + replace (next_id + S i) with (S next_id + i) by lia. by apply Hids.
Qed.

Lemma renumber_spec start_id v ps :
  renumber start_id v = Ok ps ->
  ∀ i p, ps !! i = Some p -> p !! "id" = Some (persona_id (start_id + i)).
Proof.
  destruct v; cbn; try discriminate.
  - case_bool_decide; [|discriminate]. intros [= <-] i p Hp. by rewrite lookup_nil in Hp.
  - intros H. by apply assign_ids_spec in H as [_ H].
  - case_bool_decide; [|discriminate]. intros [= <-] i p Hp. by rewrite lookup_nil in Hp.
Qed.

Lemma validate_personas_count ps n b :
  validate_personas ps (Some n) = Ok b -> length ps = n.
Proof.
  unfold validate_personas. case_bool_decide as Hlen; cbn; [discriminate|].
  intros _. destruct (decide (length ps = n)); [done | contradiction].
Qed.

Section AdditionalFacts.
Variable format_prompt : string -> res string.
Variable service : string -> res completion.

(** What a successful run returns: as many personas as asked for, numbered
    from the count of the existing ones. *)
Lemma additional_personas_spec
  (job_description : string) (existing_personas : list persona)
  (additional_count : nat) (new_personas : list persona) :
  generate_additional_personas format_prompt service job_description
    existing_personas additional_count = Ok new_personas ->
  length new_personas = additional_count ∧
  ∀ i p, new_personas !! i = Some p ->
    p !! "id" = Some (persona_id (length existing_personas + 1 + i)).
Proof.
  intros H. unfold generate_additional_personas in H. inv_bind H.
  injection H as <-. split.
  - by apply (validate_personas_count _ _ _ Hstep4).
  - intros i p Hp. by apply (renumber_spec _ _ _ Hstep3).
Qed.

(** ** C9 *)

(** C9, as the code has it.  The personas returned by the additive run are
    as many as were asked for, and the one at position i (from 0) carries
    the id P<m+1+i>, where m is the number of existing personas. *)
Theorem additional_personas_numbered_from_count
  (job_description : string) (existing_personas : list persona)
  (additional_count : nat) (new_personas : list persona) :
  generate_additional_personas format_prompt service job_description
    existing_personas additional_count = Ok new_personas ->
  length new_personas = additional_count ∧
  ∀ i p, new_personas !! i = Some p ->
    p !! "id" = Some (JStr ("P" +:+ str_nat (length existing_personas + 1 + i))).
Proof. apply additional_personas_spec. Qed.

(** When the existing personas carry the ids P1 .. Pm in order, the count m
    is their greatest id number and the new ids continue it. *)
Corollary additional_personas_continue_sequence
  (job_description : string) (existing_personas : list persona)
  (additional_count : nat) (new_personas : list persona) :
  (∀ j p, existing_personas !! j = Some p -> p !! "id" = Some (persona_id (j + 1))) ->
  generate_additional_personas format_prompt service job_description
    existing_personas additional_count = Ok new_personas ->
  ∀ i p, (existing_personas ++ new_personas)%list !! i = Some p ->
    p !! "id" = Some (persona_id (i + 1)).
Proof.
  intros Hex H i p Hp.
  apply additional_personas_spec in H as [_ Hnew].
  apply lookup_app_Some in Hp as [Hp | [Hge Hp]]; [by apply Hex|].
  rewrite (Hnew _ _ Hp). unfold persona_id.
  by replace (length existing_personas + 1 + (i - length existing_personas))
    with (i + 1) by lia.
Qed.

End AdditionalFacts.

(** ** The run on examples *)

Definition mk_persona (id : string) : persona :=
  {[ "id" := JStr id; "industry" := JStr "FA"; "job_type" := JStr "control";
     "companies" := JArr [JStr "A"; JStr "B"; JStr "C"] ]}.

(** The answer of the model: one persona, numbered P1 by the model. *)
Definition one_persona_answer : string :=
  "{'personas': [{'id': 'P1', 'industry': 'semi', 'job_type': 'process', 'companies': ['D', 'E', 'F']}]}".

Definition answering (text : string) (prompt : string) : res completion :=
  Ok (Completion "stop" (Some (Quote.requote text))).

Definition new_persona (id : string) : persona :=
  {[ "id" := JStr id; "industry" := JStr "semi"; "job_type" := JStr "process";
     "companies" := JArr [JStr "D"; JStr "E"; JStr "F"] ]}.

Example additional_after_three :
  generate_additional_personas Ok (answering one_persona_answer) "job"
    [mk_persona "P1"; mk_persona "P2"; mk_persona "P3"] 1
  = Ok [new_persona "P4"].
Proof. vm_compute. reflexivity. Qed.

Lemma additional_personas_numbered_from_count_witness :
  generate_additional_personas Ok (answering one_persona_answer) "job"
    [mk_persona "P1"; mk_persona "P2"; mk_persona "P3"] 1 = Ok [new_persona "P4"] ∧
  length [new_persona "P4"] = 1 ∧
  ∀ i p, [new_persona "P4"] !! i = Some p ->
    p !! "id" = Some (JStr ("P" +:+ str_nat (3 + 1 + i))).
Proof.
  split; [exact additional_after_three|].
  exact (additional_personas_numbered_from_count Ok (answering one_persona_answer)
           "job" [mk_persona "P1"; mk_persona "P2"; mk_persona "P3"] 1
           [new_persona "P4"] additional_after_three).
Defined.

(** The greatest id number among personas, in the words of the claim. *)
Definition is_max_id_number (n : nat) (personas : list persona) : Prop :=
  (∃ p, p ∈ personas ∧ p !! "id" = Some (persona_id n)) ∧
  ∀ (p : persona) (k : nat),
    p ∈ personas -> p !! "id" = Some (persona_id k) -> (k ≤ n)%nat.

(** C9, as stated, at a failing input: the existing personas are P1 and P3,
    so the greatest id number is 3 and the new persona is due the id P4; it
    gets P3, the id of an existing persona. *)
Lemma additional_personas_max_id_counterexample :
  ¬ (∀ n new_personas,
       is_max_id_number n [mk_persona "P1"; mk_persona "P3"] ->
       generate_additional_personas Ok (answering one_persona_answer) "job"
         [mk_persona "P1"; mk_persona "P3"] 1 = Ok new_personas ->
       ∀ i p, new_personas !! i = Some p -> p !! "id" = Some (persona_id (n + 1 + i))).
Proof.
  intros H.
  assert (Hmax : is_max_id_number 3 [mk_persona "P1"; mk_persona "P3"]).
  { split.
    - exists (mk_persona "P3"). split; [set_solver | reflexivity].
    - intros p k Hp Hid.
      assert (Hid1 : mk_persona "P1" !! "id" = Some (JStr "P1")) by (vm_compute; reflexivity).
      assert (Hid3 : mk_persona "P3" !! "id" = Some (JStr "P3")) by (vm_compute; reflexivity).
      unfold persona_id in Hid.
      apply elem_of_cons in Hp as [-> | Hp].
      + rewrite Hid1 in Hid. injection Hid as Hk.
        change (str_nat 1 = str_nat k) in Hk. apply (inj pretty) in Hk. lia.
      + apply list_elem_of_singleton in Hp as ->.
        rewrite Hid3 in Hid. injection Hid as Hk.
        change (str_nat 3 = str_nat k) in Hk. apply (inj pretty) in Hk. lia. }
  specialize (H 3 [new_persona "P3"] Hmax ltac:(vm_compute; reflexivity)
                0 (new_persona "P3") eq_refl).
  vm_compute in H. discriminate.
Qed.

End Step2Facts.

(* ===================================================================== *)
(** * Facts on the JSON decoder *)
(* ===================================================================== *)

Module PyJsonFacts.
Import PyJson.
Local Open Scope list_scope.

(** ** Appending text after a scanned value *)

(** A character after which a number cannot go on. *)
Definition stop (c : ascii) : bool :=
  negb (is_digit c) && negb (c =? ".")%char && negb (c =? "e")%char
  && negb (c =? "E")%char.

Lemma is_ws_stop c : is_ws c = true -> stop c = true.
Proof.
  unfold is_ws. intros H.
  repeat (apply orb_true_iff in H as [H|H]);
    apply Ascii.eqb_eq in H; subst; reflexivity.
Qed.

Lemma skip_ws_app l c r t :
  skip_ws l = c :: r -> skip_ws (l ++ t) = c :: r ++ t.
Proof.
  induction l as [|a l IH]; cbn; [discriminate|].
  destruct (is_ws a); [exact IH|]. by intros [= -> ->].
Qed.

Lemma skip_ws_head l c r : skip_ws l = c :: r -> is_ws c = false.
Proof.
  induction l as [|a l IH]; cbn; [discriminate|].
  destruct (is_ws a) eqn:Ha; [exact IH|]. by intros [= <- _].
Qed.

(** The first character of a text whose blanks lead to a stop character is
    itself a stop character. *)
Lemma skip_ws_stop l d r :
  skip_ws l = d :: r -> stop d = true -> ∃ c l', l = c :: l' ∧ stop c = true.
Proof.
  destruct l as [|a l]; cbn; [discriminate|].
  destruct (is_ws a) eqn:Ha.
  - intros _ _. exists a, l. split; [done|]. by apply is_ws_stop.
  - intros [= -> ->] Hd. eauto.
Qed.

Lemma span_digits_app l ds c r t :
  span_digits l = (ds, c :: r) -> span_digits (l ++ t) = (ds, c :: r ++ t).
Proof.
  revert ds; induction l as [|a l IH]; intros ds; cbn; [discriminate|].
  destruct (is_digit a).
  - destruct (span_digits l) as [ds' r'] eqn:Hs. intros [= <- ->].
    by rewrite (IH ds' eq_refl).
  - by intros [= <- -> ->].
Qed.

Lemma scan_frac_app l f c r t :
  scan_frac l = (f, c :: r) -> (c =? ".")%char = false ->
  scan_frac (l ++ t) = (f, c :: r ++ t).
Proof.
  destruct l as [|a l]; cbn; [discriminate|].
  destruct (a =? ".")%char eqn:Ha.
  - destruct (span_digits l) as [[|d ds] r'] eqn:Hs.
    + intros [= <- <- <-] Hc. congruence.
    + intros [= <- ->] _. by rewrite (span_digits_app _ _ _ _ t Hs).
  - by intros [= <- <- <-] _.
Qed.

Lemma scan_sign_app l sign c r t :
  scan_sign l = (sign, c :: r) -> scan_sign (l ++ t) = (sign, c :: r ++ t).
Proof.
  destruct l as [|s l']; cbn; [discriminate|].
  destruct ((s =? "+")%char || (s =? "-")%char).
  - by intros [= <- ->].
  - by intros [= <- <- <-].
Qed.

Lemma scan_exp_app l e c r t :
  scan_exp l = (e, c :: r) ->
  (c =? "e")%char = false -> (c =? "E")%char = false ->
  scan_exp (l ++ t) = (e, c :: r ++ t).
Proof.
  destruct l as [|a l]; [discriminate|]. cbn [scan_exp app].
  destruct ((a =? "e")%char || (a =? "E")%char) eqn:Ha.
  2:{ by intros [= <- <- <-] _ _. }
  intros H Hc1 Hc2.
  destruct (scan_sign l) as [sign l''] eqn:Hsign.
  destruct (span_digits l'') as [[|d ds] r0] eqn:Hs.
  { injection H as <- <- <-. apply orb_true_iff in Ha as [Ha|Ha]; congruence. }
  injection H as <- ->.
  destruct l'' as [|c' l3]; [discriminate|].
  rewrite (scan_sign_app _ _ _ _ t Hsign).
  pose proof (span_digits_app _ _ _ _ t Hs) as Hs'. cbn [app] in Hs'.
  by rewrite Hs'.
Qed.


Lemma span_digits_rest l ds r : span_digits l = (ds, r) -> ∃ p, l = (p ++ r)%list.
Proof.
  revert ds; induction l as [|a l IH]; intros ds; cbn.
  - intros [= <- <-]. by exists [].
  - destruct (is_digit a).
    + destruct (span_digits l) as [ds' r'] eqn:Hs. intros [= <- <-].
      destruct (IH _ eq_refl) as [p ->]. by exists (a :: p).
    + intros [= <- <-]. by exists [].
Qed.

Lemma scan_frac_nonempty l f c r : scan_frac l = (f, c :: r) -> l ≠ [].
Proof. by destruct l. Qed.

(** A number followed by a stop character is read the same whatever comes
    after. *)
Lemma scan_number_app l v c r t :
  scan_number l = Some (v, c :: r) -> stop c = true ->
  scan_number (l ++ t) = Some (v, c :: r ++ t).
Proof.
  unfold stop. intros H Hstop.
  apply andb_true_iff in Hstop as [Hstop HE].
  apply andb_true_iff in Hstop as [Hstop He].
  apply andb_true_iff in Hstop as [Hdig Hdot].
  apply negb_true_iff in HE, He, Hdot, Hdig.
  unfold scan_number in *.
  destruct (scan_minus l) as [neg l1] eqn:Hneg.
  destruct l1 as [|d l2]; [discriminate|].
  assert (Hneg' : scan_minus (l ++ t) = (neg, d :: l2 ++ t)).
  { destruct l as [|a l']; [discriminate|]. cbn in *.
    destruct (a =? "-")%char; injection Hneg; intros; by subst. }
  rewrite Hneg'.
  destruct (is_digit d); [|discriminate].
  destruct (scan_int d l2) as [int_digits l3] eqn:Hint.
  destruct (scan_frac l3) as [frac l4] eqn:Hfrac.
  destruct (scan_exp l4) as [exp l5] eqn:Hexp.
  injection H as <- ->.
  destruct l4 as [|c4 r4]; [discriminate|].
  assert (Hc4 : (c4 =? ".")%char = false).
  { destruct (c4 =? ".")%char eqn:E; [|done].
    apply Ascii.eqb_eq in E as ->. cbn in Hexp.
    injection Hexp as <- <- <-. discriminate. }
  destruct l3 as [|c3 r3]; [discriminate|].
  assert (Hint' : scan_int d (l2 ++ t) = (int_digits, c3 :: r3 ++ t)).
  { unfold scan_int in *. destruct (d =? "0")%char.
    - by injection Hint as <- ->.
    - destruct (span_digits l2) as [ds r0] eqn:Hs. injection Hint as <- ->.
      by rewrite (span_digits_app _ _ _ _ t Hs). }
  rewrite Hint'.
  rewrite (scan_frac_app _ _ _ _ t Hfrac Hc4).
  by rewrite (scan_exp_app _ _ _ _ t Hexp He HE).
Qed.

Lemma strip_prefix_app p l r t :
  strip_prefix p l = Some r -> strip_prefix p (l ++ t) = Some (r ++ t).
Proof.
  revert l; induction p as [|a p IH]; intros l; cbn.
  - by intros [= ->].
  - destruct l as [|b l]; [discriminate|]. cbn.
    destruct (a =? b)%char; [apply IH | discriminate].
Qed.

Lemma scan_word_app word v l x r t :
  scan_word word v l = Some (x, r) -> scan_word word v (l ++ t) = Some (x, r ++ t).
Proof.
  unfold scan_word. destruct (strip_prefix (chars word) l) as [r0|] eqn:E; [|done].
  cbn. intros [= <- <-]. by rewrite (strip_prefix_app _ _ _ t E).
Qed.

Lemma scan_constant_app l v r t :
  scan_constant l = Some (v, r) -> scan_constant (l ++ t) = Some (v, r ++ t).
Proof.
  destruct l as [|c l1]; [discriminate|]. cbn [scan_constant app].
  repeat (case_match; [apply scan_word_app|]). discriminate.
Qed.

(** Where a number starts, no constant does, whatever follows. *)
Lemma scan_constant_number_app l x t :
  scan_constant l = None -> scan_number l = Some x -> scan_constant (l ++ t) = None.
Proof.
  destruct l as [|c l1]; [discriminate|]. cbn [scan_constant app].
  intros _ Hnum.
  repeat (case_match;
          [match goal with H : (c =? _)%char = true |- _ =>
             apply Ascii.eqb_eq in H; subst c end|]); [..|done].
  1-5: by vm_compute in Hnum.
  destruct l1 as [|d l2]; [by vm_compute in Hnum|].
  unfold scan_word. cbn [chars list_ascii_of_string strip_prefix app].
  destruct (Ascii.eqb_spec "I" d) as [<-|?]; [by vm_compute in Hnum | done].
Qed.

(** A string ends at its closing quote. *)
Lemma scan_string_app l pending acc s r t :
  scan_string l pending acc = Scanned s r ->
  scan_string (l ++ t) pending acc = Scanned s (r ++ t).
Proof.
  revert pending acc.
  induction l as [l IH] using (induction_ltof1 _ (@length ascii)).
  unfold ltof in IH. intros pending acc.
  destruct l as [|c l1]; [discriminate|]. cbn [scan_string app].
  destruct (c =? dquote)%char; [by intros [= <- <-]|].
  destruct (c =? "\")%char.
  - destruct l1 as [|e l2]; [discriminate|]. cbn [app].
    destruct (e =? "u")%char.
    + destruct l2 as [|h1 [|h2 [|h3 [|h4 l6]]]]; try discriminate. cbn [app].
      destruct (hex4 h1 h2 h3 h4) as [cp|]; [|discriminate].
      destruct (push_code_point cp pending acc) as [pending' acc'].
      apply IH. cbn. lia.
    + destruct (simple_escape e); [|discriminate]. apply IH. cbn. lia.
  - destruct (byte c <? 32)%N; [discriminate|]. apply IH. cbn. lia.
Qed.

(** A text that opens a string, an object or an array. *)
Definition opens (l : list ascii) : Prop :=
  ∃ c l', l = c :: l' ∧
    ((c =? dquote)%char || (c =? "{")%char || (c =? "[")%char) = true.

(** The value read from [l] with [r] left over does not depend on what
    follows [r]: it closes by itself, or a stop character follows it. *)
Definition settled (l r : list ascii) : Prop :=
  opens l ∨ ∃ c r', r = c :: r' ∧ stop c = true.

Lemma settled_by_blank l r d r' :
  skip_ws r = d :: r' -> stop d = true -> settled l r.
Proof.
  intros Hs Hd. right. destruct (skip_ws_stop _ _ _ Hs Hd) as (c & l' & -> & Hc). eauto.
Qed.

Lemma skip_ws_app_eq l c r t :
  skip_ws l = c :: r -> skip_ws (l ++ t) = skip_ws l ++ t.
Proof. intros H. by rewrite (skip_ws_app _ _ _ t H) H. Qed.

Lemma scan_app fuel :
  (∀ l v r fuel' t,
     scan_once fuel l = Scanned v r -> (fuel ≤ fuel')%nat -> settled l r ->
     scan_once fuel' (l ++ t) = Scanned v (r ++ t)) ∧
  (∀ l acc kvs r fuel' t,
     scan_members fuel l acc = Scanned kvs r -> (fuel ≤ fuel')%nat ->
     scan_members fuel' (l ++ t) acc = Scanned kvs (r ++ t)) ∧
  (∀ l acc vs r fuel' t,
     scan_elements fuel l acc = Scanned vs r -> (fuel ≤ fuel')%nat ->
     scan_elements fuel' (l ++ t) acc = Scanned vs (r ++ t)).
Proof.
  induction fuel as [|fuel (IHo & IHm & IHe)]; [by repeat split|].
  split; [|split].
  - intros l v r [|fuel'] t H Hle Hset; [lia|].
    destruct l as [|c l1]; [discriminate|].
    cbn [scan_once app] in *.
    destruct (c =? dquote)%char eqn:Hq.
    { destruct (scan_string l1 None []) as [s r0|] eqn:Hs; [|discriminate].
      injection H as <- <-. by rewrite (scan_string_app _ _ _ _ _ t Hs). }
    destruct (c =? "{")%char eqn:Hb.
    { destruct (skip_ws l1) as [|d l2] eqn:Hw; [discriminate|].
      rewrite (skip_ws_app _ _ _ t Hw).
      destruct (d =? "}")%char; [by injection H as <- <-|].
      destruct (d =? dquote)%char; [|discriminate].
      destruct (scan_members fuel l2 []) as [kvs r0|] eqn:Hm; [|discriminate].
      injection H as <- <-. by rewrite (IHm _ _ _ _ fuel' t Hm ltac:(lia)). }
    destruct (c =? "[")%char eqn:Ha.
    { destruct (skip_ws l1) as [|d l2] eqn:Hw; [discriminate|].
      rewrite (skip_ws_app _ _ _ t Hw).
      destruct (d =? "]")%char; [by injection H as <- <-|].
      destruct (scan_elements fuel (d :: l2) []) as [vs r0|] eqn:He; [|discriminate].
      injection H as <- <-.
      by rewrite (IHe _ _ _ _ fuel' t He ltac:(lia)). }
    destruct Hset as [(c' & l' & [= <- <-] & Hopen) | (c' & r' & -> & Hstop)].
    { by rewrite Hq Hb Ha in Hopen. }
    change (c :: l1 ++ t) with ((c :: l1) ++ t).
    destruct (scan_constant (c :: l1)) as [[v0 r0]|] eqn:Hc.
    { injection H as <- ->. by rewrite (scan_constant_app _ _ _ t Hc). }
    destruct (scan_number (c :: l1)) as [[v0 r0]|] eqn:Hn; [|discriminate].
    injection H as <- ->.
    rewrite (scan_constant_number_app _ _ t Hc Hn).
    by rewrite (scan_number_app _ _ _ _ t Hn Hstop).
  - intros l acc kvs r [|fuel'] t H Hle; [lia|].
    cbn [scan_members] in *.
    destruct (scan_string l None []) as [key l1|] eqn:Hs; [|discriminate].
    rewrite (scan_string_app _ _ _ _ _ t Hs).
    destruct (skip_ws l1) as [|c l2] eqn:Hw1; [discriminate|].
    rewrite (skip_ws_app _ _ _ t Hw1).
    destruct (c =? ":")%char; [|discriminate].
    destruct (scan_once fuel (skip_ws l2)) as [v l3|] eqn:Ho; [|discriminate].
    destruct (skip_ws l3) as [|d l4] eqn:Hw3; [discriminate|].
    assert (Hd : (d =? "}")%char || (d =? ",")%char = true).
    { destruct (d =? "}")%char; [done|]. by destruct (d =? ",")%char. }
    assert (Hstop : stop d = true).
    { apply orb_true_iff in Hd as [Hd|Hd]; apply Ascii.eqb_eq in Hd; by subst. }
    destruct (skip_ws l2) as [|c2 l2'] eqn:Hw2.
    { destruct fuel; discriminate. }
    rewrite (skip_ws_app _ _ _ t Hw2).
    change (c2 :: l2' ++ t) with ((c2 :: l2') ++ t).
    rewrite (IHo _ _ _ fuel' t Ho ltac:(lia) (settled_by_blank _ _ _ _ Hw3 Hstop)).
    rewrite (skip_ws_app _ _ _ t Hw3).
    destruct (d =? "}")%char; [by injection H as <- <-|].
    destruct (d =? ",")%char; [|discriminate].
    destruct (skip_ws l4) as [|q l5] eqn:Hw4; [discriminate|].
    rewrite (skip_ws_app _ _ _ t Hw4).
    destruct (q =? dquote)%char; [|discriminate].
    by apply IHm; [|lia].
  - intros l acc vs r [|fuel'] t H Hle; [lia|].
    cbn [scan_elements] in *.
    destruct (scan_once fuel l) as [v l1|] eqn:Ho; [|discriminate].
    destruct (skip_ws l1) as [|d l2] eqn:Hw; [discriminate|].
    assert (Hd : (d =? "]")%char || (d =? ",")%char = true).
    { destruct (d =? "]")%char; [done|]. by destruct (d =? ",")%char. }
    assert (Hstop : stop d = true).
    { apply orb_true_iff in Hd as [Hd|Hd]; apply Ascii.eqb_eq in Hd; by subst. }
    rewrite (IHo _ _ _ fuel' t Ho ltac:(lia) (settled_by_blank _ _ _ _ Hw Hstop)).
    rewrite (skip_ws_app _ _ _ t Hw).
    destruct (d =? "]")%char; [by injection H as <- <-|].
    destruct (d =? ",")%char; [|discriminate].
    destruct (skip_ws l2) as [|c2 l2'] eqn:Hw2.
    { destruct fuel as [|[|?]]; cbn in H; discriminate. }
    rewrite (skip_ws_app _ _ _ t Hw2).
    change (c2 :: l2' ++ t) with ((c2 :: l2') ++ t).
    by apply IHe; [|lia].
Qed.

(** ** Whole texts *)

Lemma chars_app (s1 s2 : string) : chars (s1 +:+ s2) = chars s1 ++ chars s2.
Proof.
  unfold chars. induction s1 as [|c s1 IH]; [done|].
  change (String c s1 +:+ s2) with (String c (s1 +:+ s2)).
  cbn [list_ascii_of_string app]. by rewrite IH.
Qed.

Lemma fuel_for_app l t : (fuel_for l ≤ fuel_for (l ++ t))%nat.
Proof. unfold fuel_for. rewrite length_app. lia. Qed.

Lemma opens_no_bom l : opens l -> strip_prefix BOM l = None.
Proof.
  intros (c & l' & -> & H).
  repeat (apply orb_true_iff in H as [H|H]); apply Ascii.eqb_eq in H; by subst.
Qed.

Lemma opens_no_blank l : opens l -> skip_ws l = l.
Proof.
  intros (c & l' & -> & H).
  repeat (apply orb_true_iff in H as [H|H]); apply Ascii.eqb_eq in H; by subst.
Qed.

Lemma opens_app l t : opens l -> opens (l ++ t).
Proof. intros (c & l' & -> & H). by exists c, (l' ++ t). Qed.

(** A text that opens a string, an object or an array and decodes as a
    whole still yields its value when anything is appended: [json.loads]
    returns the value or reports trailing data, and [raw_decode] returns the
    value. *)
Lemma json_loads_app (j t : string) (v : json) :
  json_loads j = Decoded v -> opens (chars j) ->
  (json_loads (j +:+ t) = Decoded v ∨ json_loads (j +:+ t) = NotDecoded ExtraData) ∧
  raw_decode (j +:+ t) = Decoded v.
Proof.
  intros H Hopen. unfold json_loads in H.
  rewrite (opens_no_bom _ Hopen) (opens_no_blank _ Hopen) in H.
  destruct (scan_once (fuel_for (chars j)) (chars j)) as [v0 rest|] eqn:Hs; [|discriminate].
  assert (v0 = v) as -> by (destruct (skip_ws rest); congruence).
  pose proof (proj1 (scan_app _) _ _ _ _ (chars t) Hs
                (fuel_for_app (chars j) (chars t)) (or_introl Hopen)) as Hs'.
  unfold json_loads, raw_decode. rewrite chars_app.
  rewrite (opens_no_bom _ (opens_app _ (chars t) Hopen)).
  rewrite (opens_no_blank _ (opens_app _ (chars t) Hopen)).
  rewrite Hs'. split; [|done].
  destruct (skip_ws (rest ++ chars t)); by [left | right].
Qed.

(** ** Texts that start no value *)

(** The characters a JSON value can start with. *)
Definition json_start (c : ascii) : bool :=
  (c =? dquote)%char || (c =? "{")%char || (c =? "[")%char
  || (c =? "n")%char || (c =? "t")%char || (c =? "f")%char
  || (c =? "N")%char || (c =? "I")%char || (c =? "-")%char || is_digit c.

Lemma scan_once_no_start fuel c l :
  json_start c = false -> scan_once fuel (c :: l) = Failed ExpectingValue.
Proof.
  unfold json_start. intros H.
  repeat (apply orb_false_iff in H as [H ?]).
  destruct fuel as [|fuel]; [done|]. cbn [scan_once].
  repeat match goal with E : (c =? _)%char = false |- _ => rewrite E; clear E end.
  assert (scan_constant (c :: l) = None) as ->.
  { cbn [scan_constant]. by repeat match goal with E : (c =? _)%char = false |- _ => rewrite E end. }
  unfold scan_number. cbn [scan_minus].
  by repeat match goal with E : _ = false |- _ => rewrite E; clear E end.
Qed.

End PyJsonFacts.

(* ===================================================================== *)
(** * Facts on the methods of [str] *)
(* ===================================================================== *)

Module StrFacts.
Local Open Scope list_scope.

Lemma chars_inj_string l : list_ascii_of_string (string_of_list_ascii l) = l.
Proof. apply list_ascii_of_string_of_list_ascii. Qed.

(** ** Whitespace encodings need a high byte after the first *)

Lemma ws2_low b1 b2 : (b2 < 128)%N -> ws2 b1 b2 = false.
Proof.
  unfold ws2. intros H.
  destruct (N.eqb_spec b2 133); [lia|]. destruct (N.eqb_spec b2 160); [lia|].
  by rewrite andb_false_r.
Qed.

Lemma ws3_low_second b1 b2 b3 : (b2 < 128)%N -> ws3 b1 b2 b3 = false.
Proof.
  unfold ws3. intros H.
  destruct (N.eqb_spec b2 154); [lia|]. destruct (N.eqb_spec b2 128); [lia|].
  destruct (N.eqb_spec b2 129); [lia|].
  by rewrite !andb_false_r.
Qed.

Lemma ws3_low_third b1 b2 b3 : (b3 < 128)%N -> ws3 b1 b2 b3 = false.
Proof.
  unfold ws3, between. intros H.
  destruct (N.eqb_spec b3 128); [lia|]. destruct (N.eqb_spec b3 168); [lia|].
  destruct (N.eqb_spec b3 169); [lia|]. destruct (N.eqb_spec b3 175); [lia|].
  destruct (N.eqb_spec b3 159); [lia|].
  destruct (N.leb_spec 128 b3); [lia|].
  by rewrite !andb_false_r.
Qed.

(** ** [lstrip] and [rstrip] cut, and cut nothing off a trimmed text *)

Lemma lstrip_suffix l : ∃ p, l = p ++ lstrip l.
Proof.
  induction l as [l IH] using (induction_ltof1 _ (@length ascii)).
  unfold ltof in IH.
  destruct l as [|a l1]; [by exists []|]. cbn [lstrip].
  destruct (ws1 (byte a)).
  { destruct (IH l1 ltac:(cbn; lia)) as [p Hp]. exists (a :: p). by rewrite /= -Hp. }
  destruct l1 as [|b l2]; [by exists []|].
  destruct (ws2 (byte a) (byte b)).
  { destruct (IH l2 ltac:(cbn; lia)) as [p Hp]. exists (a :: b :: p). by rewrite /= -Hp. }
  destruct l2 as [|c l3]; [by exists []|].
  destruct (ws3 (byte a) (byte b) (byte c)); [|by exists []].
  destruct (IH l3 ltac:(cbn; lia)) as [p Hp]. exists (a :: b :: c :: p). by rewrite /= -Hp.
Qed.

Lemma lstrip_length l : (length (lstrip l) ≤ length l)%nat.
Proof.
  destruct (lstrip_suffix l) as [p Hp].
  apply (f_equal length) in Hp. rewrite length_app in Hp. lia.
Qed.

Lemma rstrip_rev_suffix l : ∃ p, l = p ++ rstrip_rev l.
Proof.
  induction l as [l IH] using (induction_ltof1 _ (@length ascii)).
  unfold ltof in IH.
  destruct l as [|a l1]; [by exists []|]. cbn [rstrip_rev].
  destruct (ws1 (byte a)).
  { destruct (IH l1 ltac:(cbn; lia)) as [p Hp]. exists (a :: p). by rewrite /= -Hp. }
  destruct l1 as [|b l2]; [by exists []|].
  destruct (ws2 (byte b) (byte a)).
  { destruct (IH l2 ltac:(cbn; lia)) as [p Hp]. exists (a :: b :: p). by rewrite /= -Hp. }
  destruct l2 as [|c l3]; [by exists []|].
  destruct (ws3 (byte c) (byte b) (byte a)); [|by exists []].
  destruct (IH l3 ltac:(cbn; lia)) as [p Hp]. exists (a :: b :: c :: p). by rewrite /= -Hp.
Qed.

Lemma rstrip_length l : (length (rstrip l) ≤ length l)%nat.
Proof.
  unfold rstrip. rewrite length_rev.
  destruct (rstrip_rev_suffix (rev l)) as [p Hp].
  apply (f_equal length) in Hp. rewrite length_app length_rev in Hp. lia.
Qed.

(** A text is trimmed when neither end carries whitespace. *)
Definition trimmed (l : list ascii) : Prop := lstrip l = l ∧ rstrip l = l.

Lemma strip_fixed_trimmed (s : string) : strip s = s -> trimmed (list_ascii_of_string s).
Proof.
  intros H. set (l := list_ascii_of_string s).
  assert (Hl : rstrip (lstrip l) = l).
  { unfold strip in H. fold l in H.
    rewrite -(chars_inj_string (rstrip (lstrip l))) H. reflexivity. }
  pose proof (rstrip_length (lstrip l)) as H1.
  pose proof (lstrip_length l) as H2. rewrite Hl in H1.
  destruct (lstrip_suffix l) as [p Hp].
  assert (p = []) as ->.
  { apply length_zero_iff_nil. pose proof (f_equal length Hp) as Hlen.
    rewrite length_app in Hlen. lia. }
  cbn in Hp. split; [done|]. by rewrite -Hp in Hl.
Qed.

Lemma trimmed_strip (s : string) : trimmed (list_ascii_of_string s) -> strip s = s.
Proof.
  intros [H1 H2]. unfold strip. rewrite H1 H2. apply string_of_list_ascii_of_string.
Qed.

(** A trimmed text stays free of leading whitespace when a low byte and
    more follow it. *)
Lemma lstrip_app_low l x m :
  lstrip l = l -> l ≠ [] -> (byte x < 128)%N -> lstrip (l ++ x :: m) = l ++ x :: m.
Proof.
  intros H Hne Hx. destruct l as [|a l1]; [done|].
  cbn [lstrip app] in *.
  destruct (ws1 (byte a)).
  { pose proof (lstrip_length l1) as Hlen. rewrite H in Hlen. cbn in Hlen. lia. }
  destruct l1 as [|b l2]; cbn [app].
  { rewrite (ws2_low _ _ Hx). destruct m as [|y m']; [done|].
    by rewrite (ws3_low_second _ _ _ Hx). }
  destruct (ws2 (byte a) (byte b)).
  { pose proof (lstrip_length l2) as Hlen. rewrite H in Hlen. cbn in Hlen. lia. }
  destruct l2 as [|c l3]; cbn [app].
  { by rewrite (ws3_low_third _ _ _ Hx). }
  destruct (ws3 (byte a) (byte b) (byte c)); [|done].
  pose proof (lstrip_length l3) as Hlen. rewrite H in Hlen. cbn in Hlen. lia.
Qed.

(** A low byte that is no whitespace ends a text that [rstrip] leaves as it
    is. *)
Lemma rstrip_low_end l c :
  ws1 (byte c) = false -> (byte c < 128)%N -> rstrip (l ++ [c]) = l ++ [c].
Proof.
  intros Hws Hc. unfold rstrip. rewrite rev_app_distr. cbn [rev app rstrip_rev].
  rewrite Hws.
  assert (rstrip_rev_c : ∀ l', match l' with
            | [] => c :: l'
            | b :: l2 =>
                if ws2 (byte b) (byte c) then rstrip_rev l2
                else match l2 with
                     | [] => c :: l'
                     | c0 :: l3 =>
                         if ws3 (byte c0) (byte b) (byte c) then rstrip_rev l3
                         else c :: l'
                     end
            end = c :: l').
  { intros [|b [|c0 l3]]; [done|..]; rewrite (ws2_low _ _ Hc); [done|].
    by rewrite (ws3_low_third _ _ _ Hc). }
  rewrite rstrip_rev_c. cbn [rev]. by rewrite rev_involutive.
Qed.

Lemma rstrip_blank_end l c : ws1 (byte c) = true -> rstrip (l ++ [c]) = rstrip l.
Proof.
  intros Hws. unfold rstrip. rewrite rev_app_distr. cbn [rev app rstrip_rev].
  by rewrite Hws.
Qed.

Lemma lstrip_blank_start l c : ws1 (byte c) = true -> lstrip (c :: l) = lstrip l.
Proof. intros Hws. cbn [lstrip]. by rewrite Hws. Qed.

(** ** [startswith], [endswith] and slices *)

Lemma startswith_app p l : startswith p (p ++ l) = true.
Proof. induction p as [|a p IH]; cbn; [done|]. by rewrite Ascii.eqb_refl. Qed.

Lemma endswith_app p l : endswith p (l ++ p) = true.
Proof. unfold endswith. rewrite rev_app_distr. apply startswith_app. Qed.

Lemma drop_last_app l p n : length p = n -> drop_last n (l ++ p) = l.
Proof.
  intros <-. unfold drop_last. rewrite length_app.
  replace (length l + length p - length p)%nat with (length l) by lia.
  by rewrite take_app_length.
Qed.

Lemma endswith_last p l (a c : ascii) :
  a ≠ c -> endswith (p ++ [a]) (l ++ [c]) = false.
Proof.
  intros Hne. unfold endswith. rewrite !rev_app_distr. cbn.
  destruct (Ascii.eqb_spec a c); [done | done].
Qed.

End StrFacts.

(* ===================================================================== *)
(** * The structured-output parser *)
(* ===================================================================== *)

Module ParserFacts.
Import PyJson PyJsonFacts StrFacts LLMClient.
Local Open Scope list_scope.

(** ** The brace walk *)

Lemma from_first_brace_skip lp l :
  forallb (fun c => negb (c =? "{")%char) lp = true ->
  from_first_brace (lp ++ l) = from_first_brace l.
Proof.
  induction lp as [|c lp IH]; cbn; [done|].
  intros [Hc Hlp]%andb_true_iff. apply negb_true_iff in Hc. rewrite Hc. by apply IH.
Qed.

Lemma from_first_brace_spec l l' :
  from_first_brace l = Some l' ->
  ∃ pre body, l = pre ++ l' ∧ l' = "{"%char :: body.
Proof.
  induction l as [|c l IH]; cbn; [discriminate|].
  destruct (Ascii.eqb_spec c "{") as [->|Hc].
  - intros [= <-]. by exists [], l.
  - intros H. destruct (IH H) as (pre & body & -> & ->). by exists (c :: pre), body.
Qed.

(** The walk stops at a closing brace, and does not look past it. *)
Lemma walk_braces_app l depth in_string escape seen cand t :
  walk_braces l depth in_string escape seen = Some cand ->
  walk_braces (l ++ t) depth in_string escape seen = Some cand.
Proof.
  revert depth in_string escape seen.
  induction l as [|ch l IH]; intros depth in_string escape seen; cbn [walk_braces app];
    [discriminate|].
  repeat case_match; try done; apply IH.
Qed.

Lemma walk_braces_spec l depth in_string escape seen cand :
  walk_braces l depth in_string escape seen = Some cand ->
  ∃ body rest, l = body ++ "}"%char :: rest ∧ cand = rev seen ++ body ++ ["}"%char].
Proof.
  revert depth in_string escape seen.
  induction l as [|ch l IH]; intros depth in_string escape seen; cbn [walk_braces];
    [discriminate|].
  assert (Hstep : ∀ d s e,
            walk_braces l d s e (ch :: seen) = Some cand ->
            ∃ body rest, ch :: l = body ++ "}"%char :: rest
                         ∧ cand = rev seen ++ body ++ ["}"%char]).
  { intros d s e H. destruct (IH _ _ _ _ H) as (body & rest & -> & ->).
    exists (ch :: body), rest. split; [done|]. cbn [rev]. by rewrite -app_assoc. }
  repeat case_match; try (by apply Hstep);
    (intros [= <-];
     match goal with H : (ch =? "}")%char = true |- _ => apply Ascii.eqb_eq in H as -> end;
     exists [], l; split; [done|]; cbn [rev]; by rewrite app_nil_l).
Qed.

(** An object text: the candidate the last resort extracts from it is the
    whole of it. *)
Definition object_text (j : string) : Prop := first_object_candidate j = Some j.

Lemma object_text_shape j :
  object_text j ->
  ∃ body, chars j = ("{"%char :: body) ++ ["}"%char] ∧
          walk_braces (chars j) 0 false false [] = Some (chars j).
Proof.
  unfold object_text, first_object_candidate.
  destruct (from_first_brace (chars j)) as [l'|] eqn:Hf; [|discriminate]. cbn.
  destruct (walk_braces l' 0 false false []) as [lc|] eqn:Hw; [|discriminate]. cbn.
  intros [= Hj].
  assert (Hlc : lc = chars j) by (by rewrite -Hj /chars chars_inj_string).
  subst lc.
  destruct (from_first_brace_spec _ _ Hf) as (pre & body0 & Hpre & Hl').
  destruct (walk_braces_spec _ _ _ _ _ _ Hw) as (body & rest & Hbody & Hcand).
  cbn [rev app] in Hcand.
  assert (Hlen : pre = [] ∧ rest = []).
  { pose proof (f_equal length Hpre) as H1. pose proof (f_equal length Hbody) as H2.
    pose proof (f_equal length Hcand) as H3.
    rewrite !length_app in H1, H2, H3. cbn in H2, H3.
    assert (length pre = 0%nat ∧ length rest = 0%nat) as [Hp Hr] by lia.
    by destruct pre, rest. }
  destruct Hlen as [-> ->]. cbn [app] in Hpre. subst l'.
  rewrite Hl' in Hbody.
  destruct body as [|b body']; cbn in Hbody; [discriminate|].
  injection Hbody as <- _.
  exists body'. by split.
Qed.

Lemma object_text_opens j : object_text j -> opens (chars j).
Proof.
  intros (body & -> & _)%object_text_shape. by exists "{"%char, (body ++ ["}"%char]).
Qed.

(** Prose in front of an object text does not change the candidate, as long
    as it holds no opening brace; nor does text behind it. *)
Lemma candidate_in_prose p j t :
  object_text j ->
  forallb (fun c => negb (c =? "{")%char) (chars p) = true ->
  first_object_candidate (p +:+ j +:+ t) = Some j.
Proof.
  intros Hobj Hp. destruct (object_text_shape _ Hobj) as (body & Hj & Hw).
  unfold first_object_candidate. rewrite !chars_app.
  rewrite (from_first_brace_skip _ _ Hp).
  rewrite {1}Hj. cbn [app from_first_brace]. rewrite Ascii.eqb_refl.
  change ("{"%char :: (body ++ ["}"%char]) ++ chars t)
    with ((("{"%char :: body) ++ ["}"%char]) ++ chars t).
  rewrite -Hj. cbn.
  rewrite (walk_braces_app _ _ _ _ _ _ (chars t) Hw). cbn.
  by rewrite /chars string_of_list_ascii_of_string.
Qed.


(** ** One turn of the loop *)

Lemma parse_loop_decoded remaining attempt max_retries text original v :
  json_loads text = Decoded v ->
  parse_loop (S remaining) attempt max_retries text original = Ok v.
Proof. intros H. cbn [parse_loop]. by rewrite H. Qed.

Lemma parse_loop_extra_data remaining attempt max_retries text original v :
  json_loads text = NotDecoded ExtraData -> raw_decode text = Decoded v ->
  parse_loop (S remaining) attempt max_retries text original = Ok v.
Proof.
  intros H Hraw. cbn [parse_loop]. rewrite H Hraw.
  by change (contains "Extra data" (error_message ExtraData)) with true.
Qed.

Lemma parse_loop_retry remaining attempt max_retries text original :
  json_loads text = NotDecoded ExpectingValue ->
  (attempt < max_retries - 1)%nat ->
  parse_loop (S remaining) attempt max_retries text original
  = parse_loop remaining (S attempt) max_retries (clean text) original.
Proof.
  intros H Hlt. cbn [parse_loop]. rewrite H.
  change (contains "Extra data" (error_message ExpectingValue)) with false.
  by rewrite (bool_decide_eq_true_2 _ Hlt).
Qed.

Lemma parse_loop_last_resort remaining attempt max_retries text original candidate v :
  json_loads text = NotDecoded ExpectingValue ->
  ¬ (attempt < max_retries - 1)%nat ->
  first_object_candidate original = Some candidate ->
  json_loads candidate = Decoded v ->
  parse_loop (S remaining) attempt max_retries text original = Ok v.
Proof.
  intros H Hge Hc Hv. cbn [parse_loop]. rewrite H.
  change (contains "Extra data" (error_message ExpectingValue)) with false.
  by rewrite (bool_decide_eq_false_2 _ Hge) Hc Hv.
Qed.

(** ** Texts the decoder rejects at once *)

Lemma is_ws_ws1 c : is_ws c = true -> ws1 (byte c) = true.
Proof.
  unfold is_ws. intros H.
  repeat (apply orb_true_iff in H as [H|H]); apply Ascii.eqb_eq in H; by subst.
Qed.

Lemma json_loads_no_start (s : string) c l :
  chars s = c :: l ->
  json_start c = false -> is_ws c = false -> strip_prefix BOM (c :: l) = None ->
  json_loads s = NotDecoded ExpectingValue.
Proof.
  intros Hs Hstart Hws Hbom. unfold json_loads. rewrite Hs Hbom.
  cbn [skip_ws]. rewrite Hws. by rewrite scan_once_no_start.
Qed.

(** ** The cleaning *)

Definition strip_l (l : list ascii) : list ascii := rstrip (lstrip l).

(** The removal of the fence markers, on bytes. *)
Definition unfence (cleaned : list ascii) : list ascii :=
  let cleaned :=
    if startswith fence_json cleaned then drop 7 cleaned
    else if startswith fence cleaned then drop 3 cleaned
    else cleaned in
  if endswith fence cleaned then drop_last 3 cleaned else cleaned.

Lemma clean_spec (text : string) :
  clean text = string_of_list_ascii (strip_l (unfence (strip_l (chars text)))).
Proof.
  unfold clean, strip, strip_l, unfence, chars. by rewrite !chars_inj_string.
Qed.

Lemma strip_l_trimmed l : trimmed l -> strip_l l = l.
Proof. intros [H1 H2]. unfold strip_l. by rewrite H1 H2. Qed.

Definition backtick : ascii := "`"%char.

(** A text between a low non-blank first byte and a low non-blank last
    byte is trimmed. *)
Lemma trimmed_between a mid z :
  ws1 (byte a) = false -> (byte a < 128)%N ->
  ws1 (byte z) = false -> (byte z < 128)%N ->
  trimmed (a :: mid ++ [z]).
Proof.
  intros Ha1 Ha2 Hz1 Hz2. split.
  - assert (H1 : lstrip [a] = [a]) by (cbn; by rewrite Ha1).
    destruct mid as [|m mid']; cbn [app].
    + cbn [lstrip]. rewrite Ha1. by rewrite (ws2_low _ _ Hz2).
    + cbn [lstrip]. rewrite Ha1.
      destruct (ws2 (byte a) (byte m)) eqn:E2.
      { unfold ws2 in E2. destruct (N.eqb_spec (byte a) 194); [lia | done]. }
      destruct (mid' ++ [z]) as [|y ys]; [done|].
      destruct (ws3 (byte a) (byte m) (byte y)) eqn:E3; [|done].
      unfold ws3 in E3.
      destruct (N.eqb_spec (byte a) 225); [lia|].
      destruct (N.eqb_spec (byte a) 226); [lia|].
      destruct (N.eqb_spec (byte a) 227); [lia | done].
  - change (a :: mid ++ [z]) with ((a :: mid) ++ [z]). by apply rstrip_low_end.
Qed.

Lemma unfence_plain a mid z :
  a ≠ backtick -> z ≠ backtick -> unfence (a :: mid ++ [z]) = a :: mid ++ [z].
Proof.
  intros Ha Hz. unfold unfence.
  assert (Hs1 : startswith fence_json (a :: mid ++ [z]) = false).
  { unfold fence_json, chars. cbn [list_ascii_of_string startswith].
    destruct (Ascii.eqb_spec "`" a) as [E|E]; [by destruct Ha | done]. }
  assert (Hs2 : startswith fence (a :: mid ++ [z]) = false).
  { unfold fence, chars. cbn [list_ascii_of_string startswith].
    destruct (Ascii.eqb_spec "`" a) as [E|E]; [by destruct Ha | done]. }
  rewrite Hs1 Hs2.
  change (a :: mid ++ [z]) with ((a :: mid) ++ [z]).
  change fence with (["`"; "`"]%char ++ ["`"%char]).
  rewrite endswith_last; [intros E; apply Hz; by rewrite -E | done].
Qed.

(** The text between the markers of a fence. *)
Lemma unfence_tagged mid :
  unfence (fence_json ++ mid ++ fence) = mid.
Proof.
  unfold unfence. rewrite startswith_app.
  change (drop 7 (fence_json ++ mid ++ fence)) with (mid ++ fence).
  rewrite endswith_app. by apply drop_last_app.
Qed.

Lemma unfence_bare c mid :
  c ≠ "j"%char ->
  unfence (fence ++ (c :: mid) ++ fence) = c :: mid.
Proof.
  intros Hc. unfold unfence.
  assert (startswith fence_json (fence ++ (c :: mid) ++ fence) = false) as ->.
  { unfold fence_json, fence, chars. cbn [list_ascii_of_string startswith app].
    rewrite !Ascii.eqb_refl. cbn [andb].
    destruct (Ascii.eqb_spec "j" c) as [E|E]; [by destruct Hc | done]. }
  rewrite startswith_app.
  change (drop 3 (fence ++ (c :: mid) ++ fence)) with ((c :: mid) ++ fence).
  rewrite endswith_app. by apply drop_last_app.
Qed.

Definition newline : ascii := chr 10.

(** The text inside a fence comes out of the cleaning as it went in. *)
Lemma strip_l_lines l :
  trimmed l -> l ≠ [] -> strip_l (newline :: l ++ [newline]) = l.
Proof.
  intros [H1 H2] Hne. unfold strip_l.
  rewrite lstrip_blank_start; [done|].
  rewrite (lstrip_app_low l newline [] H1 Hne); [done|].
  rewrite rstrip_blank_end; [done|]. exact H2.
Qed.


(** ** The three wrappings *)

Definition nl : string := String newline "".

(** [j] between the markers of a fenced code block. *)
Definition fenced (opening j : string) : string :=
  opening +:+ nl +:+ j +:+ nl +:+ "```".

Lemma json_loads_nonempty j v : json_loads j = Decoded v -> chars j ≠ [].
Proof. intros H Hj. destruct j; [|done]. discriminate. Qed.

Lemma string_of_chars (s : string) : string_of_list_ascii (chars s) = s.
Proof. apply string_of_list_ascii_of_string. Qed.

Lemma clean_fenced_tagged j :
  strip j = j -> chars j ≠ [] -> clean (fenced "```json" j) = j.
Proof.
  intros Hj Hne. apply strip_fixed_trimmed in Hj. fold (chars j) in Hj.
  rewrite clean_spec. unfold fenced. rewrite !chars_app.
  change (chars "```json") with fence_json. change (chars "```") with fence.
  change (chars nl) with [newline].
  assert (Htrim : trimmed (fence_json ++ [newline] ++ chars j ++ [newline] ++ fence)).
  { change (fence_json ++ [newline] ++ chars j ++ [newline] ++ fence)
      with (backtick :: (chars "``json" ++ [newline] ++ chars j ++ [newline] ++ chars "```")).
    replace (chars "``json" ++ [newline] ++ chars j ++ [newline] ++ chars "```")
      with ((chars "``json" ++ [newline] ++ chars j ++ [newline] ++ chars "``") ++ [backtick]).
    - by apply trimmed_between.
    - rewrite -!app_assoc. reflexivity. }
  rewrite (strip_l_trimmed _ Htrim).
  replace (fence_json ++ [newline] ++ chars j ++ [newline] ++ fence)
    with (fence_json ++ (newline :: chars j ++ [newline]) ++ fence).
  2:{ cbn [app]. by rewrite -!app_assoc. }
  rewrite unfence_tagged (strip_l_lines _ Hj Hne). apply string_of_chars.
Qed.

Lemma clean_fenced_bare j :
  strip j = j -> chars j ≠ [] -> clean (fenced "```" j) = j.
Proof.
  intros Hj Hne. apply strip_fixed_trimmed in Hj. fold (chars j) in Hj.
  rewrite clean_spec. unfold fenced. rewrite !chars_app.
  change (chars "```") with fence. change (chars nl) with [newline].
  assert (Htrim : trimmed (fence ++ [newline] ++ chars j ++ [newline] ++ fence)).
  { change (fence ++ [newline] ++ chars j ++ [newline] ++ fence)
      with (backtick :: (chars "``" ++ [newline] ++ chars j ++ [newline] ++ chars "```")).
    replace (chars "``" ++ [newline] ++ chars j ++ [newline] ++ chars "```")
      with ((chars "``" ++ [newline] ++ chars j ++ [newline] ++ chars "``") ++ [backtick]).
    - by apply trimmed_between.
    - rewrite -!app_assoc. reflexivity. }
  rewrite (strip_l_trimmed _ Htrim).
  replace (fence ++ [newline] ++ chars j ++ [newline] ++ fence)
    with (fence ++ (newline :: chars j ++ [newline]) ++ fence).
  2:{ cbn [app]. by rewrite -!app_assoc. }
  rewrite unfence_bare; [done|]. rewrite (strip_l_lines _ Hj Hne). apply string_of_chars.
Qed.

Lemma json_loads_backtick (s : string) :
  json_loads (String backtick s) = NotDecoded ExpectingValue.
Proof. by eapply json_loads_no_start. Qed.

(** A fenced block, tagged [json] or bare. *)
Lemma parse_fenced opening j v :
  opening = "```json" ∨ opening = "```" ->
  json_loads j = Decoded v -> strip j = j ->
  _parse_json (fenced opening j) = Ok v.
Proof.
  intros Hopen Hv Hj. pose proof (json_loads_nonempty _ _ Hv) as Hne.
  unfold _parse_json.
  rewrite parse_loop_retry; [destruct Hopen as [-> | ->]; apply json_loads_backtick | lia |].
  assert (clean (fenced opening j) = j) as ->.
  { destruct Hopen as [-> | ->];
      [exact (clean_fenced_tagged j Hj Hne) | exact (clean_fenced_bare j Hj Hne)]. }
  by apply parse_loop_decoded.
Qed.

(** Text after a value that closes by itself. *)
Lemma parse_trailing j t v :
  json_loads j = Decoded v -> opens (chars j) -> _parse_json (j +:+ t) = Ok v.
Proof.
  intros Hv Hopen. destruct (json_loads_app j t v Hv Hopen) as [[H | H] Hraw].
  - by apply parse_loop_decoded.
  - by apply parse_loop_extra_data.
Qed.

(** Prose the parser sees through: it starts with no blank, with nothing a
    JSON value or a fence starts with, with no byte order mark, and holds no
    opening brace. *)
Definition prose (p : string) : bool :=
  match chars p with
  | [] => false
  | c :: _ =>
      bool_decide (lstrip (chars p) = chars p)
      && negb (json_start c) && negb (c =? "`")%char
      && bool_decide (strip_prefix BOM (chars p) = None)
      && forallb (fun c => negb (c =? "{")%char) (chars p)
  end.

Lemma no_bom_app l x m :
  strip_prefix BOM l = None -> l ≠ [] -> (byte x < 128)%N ->
  strip_prefix BOM (l ++ x :: m) = None.
Proof.
  intros H Hne Hx.
  assert (Hhigh : ∀ n, (128 ≤ n < 256)%N -> (chr n =? x)%char = false).
  { intros n Hn. apply Ascii.eqb_neq. intros <-.
    unfold byte, chr in Hx. rewrite N_ascii_embedding in Hx; lia. }
  destruct l as [|a [|b [|c l]]]; [done|..]; unfold BOM in *;
    cbn [strip_prefix app] in *.
  - destruct (chr 239 =? a)%char; [|done]. by rewrite Hhigh.
  - destruct (chr 239 =? a)%char; [|done].
    destruct (chr 187 =? b)%char; [|done]. by rewrite Hhigh.
  - destruct (chr 239 =? a)%char; [|done].
    destruct (chr 187 =? b)%char; [|done].
    by destruct (chr 191 =? c)%char.
Qed.

Lemma append_empty (s : string) : s +:+ "" = s.
Proof.
  induction s as [|c s IH]; [done|].
  change (String c s +:+ "") with (String c (s +:+ "")). by rewrite IH.
Qed.

(** Prose before an object text. *)
Lemma parse_prose p j v :
  json_loads j = Decoded v -> object_text j -> prose p = true ->
  _parse_json (p +:+ j) = Ok v.
Proof.
  intros Hv Hobj Hp. unfold prose in Hp.
  destruct (chars p) as [|c lp] eqn:Hcp; [discriminate|].
  repeat (apply andb_true_iff in Hp as [Hp ?]).
  apply bool_decide_eq_true in Hp.
  match goal with H : bool_decide _ = true |- _ => apply bool_decide_eq_true in H end.
  match goal with H : negb (json_start c) = true |- _ =>
    apply negb_true_iff in H; rename H into Hstart end.
  match goal with H : negb (c =? "`")%char = true |- _ =>
    apply negb_true_iff, Ascii.eqb_neq in H; rename H into Htick end.
  match goal with H : strip_prefix BOM _ = None |- _ => rename H into Hbom end.
  match goal with H : forallb _ _ = true |- _ => rename H into Hbrace end.
  destruct (object_text_shape _ Hobj) as (body & Hj & Hw).
  (* the bytes of the whole text: the prose, then the object text *)
  assert (HA : chars (p +:+ j) = (c :: lp) ++ "{"%char :: body ++ ["}"%char]).
  { by rewrite chars_app Hcp Hj. }
  (* the same bytes, between the first and the last *)
  assert (HB : chars (p +:+ j) = c :: (lp ++ "{"%char :: body) ++ ["}"%char]).
  { rewrite HA. cbn [app]. by rewrite -app_assoc. }
  assert (Hws1 : ws1 (byte c) = false).
  { destruct (ws1 (byte c)) eqn:E; [|done].
    cbn [lstrip] in Hp. rewrite E in Hp.
    pose proof (lstrip_length lp) as Hlen. rewrite Hp in Hlen. cbn in Hlen. lia. }
  assert (Hws : is_ws c = false).
  { destruct (is_ws c) eqn:E; [|done]. apply is_ws_ws1 in E. congruence. }
  (* every attempt is rejected at the first byte *)
  assert (Hload : json_loads (p +:+ j) = NotDecoded ExpectingValue).
  { apply (json_loads_no_start _ c (lp ++ "{"%char :: body ++ ["}"%char]));
      [exact HA | done | done |].
    by apply (no_bom_app (c :: lp)). }
  (* the cleaning leaves the text as it is *)
  assert (Htrim : trimmed (chars (p +:+ j))).
  { split.
    - rewrite HA. by apply lstrip_app_low.
    - rewrite HB. by apply (rstrip_low_end (c :: lp ++ "{"%char :: body)). }
  assert (Hclean : clean (p +:+ j) = p +:+ j).
  { rewrite clean_spec (strip_l_trimmed _ Htrim) HB unfence_plain; [done..|].
    rewrite -HB (strip_l_trimmed _ Htrim). apply string_of_chars. }
  unfold _parse_json.
  rewrite parse_loop_retry; [done | lia |]. rewrite Hclean.
  rewrite parse_loop_retry; [done | lia |]. rewrite Hclean.
  eapply parse_loop_last_resort; [done | lia | | exact Hv].
  rewrite -{1}(append_empty j). apply candidate_in_prose; [done|].
  by rewrite Hcp.
Qed.


(** ** C4 *)

(** A text that opens a string, an object or an array. *)
Definition self_delimiting (j : string) : bool :=
  match j with
  | String c _ => (c =? dquote)%char || (c =? "{")%char || (c =? "[")%char
  | EmptyString => false
  end.

Lemma self_delimiting_opens j : self_delimiting j = true -> opens (chars j).
Proof. destruct j as [|c s]; [done|]. intros H. by exists c, (chars s). Qed.


(** A record as the model writes it. *)
Definition sample_text : string :=
  Quote.requote "{'id': 'P1', 'companies': ['A', 'B', 'C'], 'note': 'a } in a text'}".

Definition sample_record : json :=
  JObj [("id", JStr "P1");
        ("companies", JArr [JStr "A"; JStr "B"; JStr "C"]);
        ("note", JStr "a } in a text")].

Lemma sample_decodes : json_loads sample_text = Decoded sample_record.
Proof. vm_compute. reflexivity. Qed.



(** Prose that starts like a JSON value is taken for the document. *)
Example parse_json_numbered_prose :
  _parse_json ("1. " +:+ sample_text) = Ok (JNum 1).
Proof. vm_compute. reflexivity. Qed.

(** An array is not found behind prose. *)
Example parse_json_array_in_prose :
  _parse_json "[1, 2]" = Ok (JArr [JNum 1; JNum 2]) ∧
  _parse_json "Result: [1, 2]" = Raise (parse_failure ExpectingValue).
Proof. split; vm_compute; reflexivity. Qed.

End ParserFacts.

(* ===================================================================== *)
(** * Further properties of the sources *)
(* ===================================================================== *)

(** The sections below cover code the claims above leave out: the other
    branches of the merge and the detection of its target, the validators,
    the client wrapper and its parser, the resynchronisation, the matrix
    stage, the fixing step of the self review, the axes update, the
    discussion stage and the question service. *)

(* --------------------------------------------------------------------- *)
(** ** services/modification_service.py: cell edits *)

Module ModificationMore.
Import Modification ModificationFacts.
Local Open Scope list_scope.

(** ** Cell edits *)

(** Two grids of the same shape: as many rows, each as long. *)
Definition same_shape (m m' : grid) : Prop :=
  length m' = length m ∧ ∀ i, length <$> (m' !! i) = length <$> (m !! i).

Lemma same_shape_refl m : same_shape m m.
Proof. by split. Qed.

Lemma same_shape_trans m1 m2 m3 :
  same_shape m1 m2 -> same_shape m2 m3 -> same_shape m1 m3.
Proof.
  intros [H1 H1'] [H2 H2']. split; [congruence|].
  intros i. by rewrite H2' H1'.
Qed.

Lemma norm_index_lt n i k : norm_index n i = Some k -> k < n.
Proof.
  unfold norm_index. repeat case_bool_decide; intros [= <-]; lia.
Qed.

Lemma set_cell_shape m r c x m' : set_cell m r c x = Ok m' -> same_shape m m'.
Proof.
  unfold set_cell.
  destruct (norm_index (length m) r) as [i|]; [|discriminate].
  destruct (m !! i) as [row|] eqn:Hrow; [|discriminate].
  destruct (norm_index (length row) c) as [j|] eqn:Hj; [|discriminate].
  intros [= <-]. apply norm_index_lt in Hj.
  destruct (set_cell_frame m i j x row Hrow Hj) as (_ & Hlen & Hrows & _).
  by split.
Qed.

Lemma apply_cell_update_shape m u m' : apply_cell_update m u = Ok m' -> same_shape m m'.
Proof.
  unfold apply_cell_update.
  destruct (row_index u) as [r|], (col_index u) as [c|];
    try (intros [= <-]; apply same_shape_refl).
  destruct (_ && _); [apply set_cell_shape | intros [= <-]; apply same_shape_refl].
Qed.

Lemma apply_cell_updates_shape us m m' :
  apply_cell_updates m us = Ok m' -> same_shape m m'.
Proof.
  revert m; induction us as [|u us IH]; intros m H; cbn in H.
  - injection H as <-. apply same_shape_refl.
  - inv_bind H. eapply same_shape_trans; [by eapply apply_cell_update_shape | by apply IH].
Qed.

(** The merge of type [matrix_cells], unfolded. *)
Lemma matrix_cells_merge (modified_data : delta) (current_data : state) :
  _apply_modifications "matrix_cells" modified_data current_data
  = (matrix ← apply_cell_updates (default [] (st_matrix current_data))
                                 (default [] (d_cell_updates modified_data));
     Ok (State (st_personas current_data) (st_axes current_data)
               (match st_matrix current_data with Some _ => Some matrix | None => None end)
               (st_discussion_points current_data) (st_rest current_data))).
Proof. reflexivity. Qed.

(** X1. Whenever a merge of cell edits returns, the grid has the shape it had:
    no row is added, removed, shortened or extended, whatever the edits
    are; and the personas, the axes, the discussion points and the other
    entries of the state are the ones given. *)
Theorem cell_edits_keep_shape (modified_data : delta) (current_data result : state) :
  _apply_modifications "matrix_cells" modified_data current_data = Ok result ->
  st_personas result = st_personas current_data ∧
  st_axes result = st_axes current_data ∧
  st_discussion_points result = st_discussion_points current_data ∧
  st_rest result = st_rest current_data ∧
  match st_matrix current_data with
  | None => st_matrix result = None
  | Some m =>
      ∃ m', st_matrix result = Some m' ∧ length m' = length m ∧
            ∀ i, length <$> (m' !! i) = length <$> (m !! i)
  end.
Proof.
  rewrite matrix_cells_merge. intros H. inv_bind H. injection H as <-. cbn.
  do 4 (split; [reflexivity|]).
  destruct (st_matrix current_data) as [m|]; [|done].
  apply apply_cell_updates_shape in Hstep as [Hlen Hrows]. by exists a.
Qed.

Lemma cell_edits_keep_shape_witness :
  ∃ result,
    _apply_modifications "matrix_cells"
      (cells_delta [CellUpdate (Some 1%Z) (Some 2%Z) (Some (JStr "〇"));
                    CellUpdate (Some (-1)%Z) (Some 1%Z) None])
      (grid_state sample_grid) = Ok result ∧
    ∃ m', st_matrix result = Some m' ∧ length m' = length sample_grid.
Proof.
  eexists. split; [vm_compute; reflexivity|].
  match goal with |- context [st_matrix ?r] =>
    destruct (cell_edits_keep_shape
                (cells_delta [CellUpdate (Some 1%Z) (Some 2%Z) (Some (JStr "〇"));
                              CellUpdate (Some (-1)%Z) (Some 1%Z) None])
                (grid_state sample_grid) r ltac:(vm_compute; reflexivity))
      as (_ & _ & _ & _ & m' & Hm & Hlen & _)
  end.
  exists m'. by split.
Defined.


(** A state with its grid replaced. *)
Definition with_matrix (st : state) (m : grid) : state :=
  State (st_personas st) (st_axes st) (Some m) (st_discussion_points st) (st_rest st).

Lemma single_cell_update st m u :
  st_matrix st = Some m ->
  _apply_modifications "matrix_cells" (cells_delta [u]) st
  = (m' ← apply_cell_update m u; Ok (with_matrix st m')).
Proof.
  intros Hm. rewrite matrix_cells_merge Hm. cbn.
  destruct (apply_cell_update m u); reflexivity.
Qed.

(** X2. An edit whose row and column indices are positive and within the grid
    is applied: the merge returns the state in which that one cell holds
    the new value ([None] when the edit carries none); every other cell of
    the grid is the one before. *)
Theorem cell_edit_overwrites_one_cell
  (st : state) (m : grid) (r c : Z) (v : option json) (row : list json) :
  st_matrix st = Some m ->
  (0 < r)%Z -> (0 < c)%Z ->
  m !! Z.to_nat r = Some row -> (c < Z.of_nat (length row))%Z ->
  ∃ m', _apply_modifications "matrix_cells"
          (cells_delta [CellUpdate (Some r) (Some c) v]) st
        = Ok (with_matrix st m') ∧
        cell m' (Z.to_nat r) (Z.to_nat c) = Some (default JNull v) ∧
        ∀ i j, (i, j) ≠ (Z.to_nat r, Z.to_nat c) -> cell m' i j = cell m i j.
Proof.
  intros Hm Hr Hc Hrow Hlen.
  rewrite (single_cell_update _ _ _ Hm).
  rewrite (apply_cell_update_in_range m r c v row Hr Hc Hrow Hlen). cbn.
  eexists. split; [reflexivity|].
  destruct (set_cell_frame m (Z.to_nat r) (Z.to_nat c) (default JNull v) row Hrow)
    as (Hset & _ & _ & Hframe); [lia|]. by split.
Qed.

Lemma cell_edit_overwrites_one_cell_witness :
  ∃ m', _apply_modifications "matrix_cells"
          (cells_delta [CellUpdate (Some 1%Z) (Some 2%Z) (Some (JStr "〇"))])
          (grid_state sample_grid)
        = Ok (with_matrix (grid_state sample_grid) m') ∧
        cell m' 1 2 = Some (JStr "〇") ∧
        cell m' 1 1 = cell sample_grid 1 1.
Proof.
  destruct (cell_edit_overwrites_one_cell (grid_state sample_grid) sample_grid
              1 2 (Some (JStr "〇")) [JStr "P1/25-29"; JStr "FA"; JStr "△"]
              eq_refl ltac:(lia) ltac:(lia) eq_refl ltac:(cbn; lia))
    as (m' & Hm & Hset & Hframe).
  exists m'. split; [exact Hm|]. split; [exact Hset|].
  apply Hframe. discriminate.
Defined.

(** The edits the guard [if row_idx and col_idx and row_idx < len(matrix)]
    lets pass without effect: an index that is missing or zero, or a row
    index at or past the end of the grid. *)
Definition skipped (m : grid) (u : cell_update) : Prop :=
  row_index u = None ∨ row_index u = Some 0%Z ∨
  col_index u = None ∨ col_index u = Some 0%Z ∨
  ∃ r, row_index u = Some r ∧ (Z.of_nat (length m) ≤ r)%Z.

Lemma apply_cell_update_skipped m u : skipped m u -> apply_cell_update m u = Ok m.
Proof.
  unfold apply_cell_update.
  intros [H|[H|[H|[H|(r & H & Hr)]]]]; rewrite H.
  - done.
  - by destruct (col_index u).
  - by destruct (row_index u).
  - destruct (row_index u) as [r|]; [|done]. cbn. by rewrite andb_false_r.
  - destruct (col_index u) as [c|]; [|done].
    rewrite (bool_decide_eq_false_2 (r < _)%Z); [lia|]. by rewrite andb_false_r.
Qed.

(** X3. A merge all of whose edits lack an index, name row or column 0, or name
    a row at or past the end of the grid returns the state as it was: such
    edits are dropped without an error. *)
Theorem skipped_cell_edits_change_nothing
  (st : state) (m : grid) (cell_updates : list cell_update) :
  st_matrix st = Some m ->
  Forall (skipped m) cell_updates ->
  _apply_modifications "matrix_cells" (cells_delta cell_updates) st = Ok st.
Proof.
  intros Hm Hall. rewrite matrix_cells_merge Hm. cbn.
  assert (apply_cell_updates m cell_updates = Ok m) as ->.
  { induction Hall as [|u us Hu _ IH]; cbn; [done|].
    by rewrite (apply_cell_update_skipped _ _ Hu). }
  cbn. destruct st; cbn in *. by rewrite Hm.
Qed.

Lemma skipped_cell_edits_change_nothing_witness :
  _apply_modifications "matrix_cells"
    (cells_delta [CellUpdate (Some 2%Z) (Some 1%Z) (Some (JStr "x"));
                  CellUpdate None (Some 1%Z) (Some (JStr "y"))])
    (grid_state sample_grid)
  = Ok (grid_state sample_grid).
Proof.
  apply (skipped_cell_edits_change_nothing (grid_state sample_grid) sample_grid);
    [reflexivity|].
  constructor; [|constructor; [|constructor]].
  - do 4 right. exists 2%Z. split; [reflexivity | cbn; lia].
  - by left.
Defined.

(** X4. A column index past the end of the addressed row is not guarded: when
    the row index is positive and within the grid and the column index is
    not zero and is at or past the end of that row (or before its start,
    counting from the end), the merge raises [IndexError] and returns
    nothing, whatever edits follow. *)
Theorem cell_edit_column_out_of_range_raises
  (st : state) (m : grid) (r c : Z) (v : option json) (row : list json)
  (rest : list cell_update) :
  st_matrix st = Some m ->
  (0 < r)%Z -> m !! Z.to_nat r = Some row ->
  c ≠ 0%Z -> (Z.of_nat (length row) ≤ c ∨ c < - Z.of_nat (length row))%Z ->
  _apply_modifications "matrix_cells"
    (cells_delta (CellUpdate (Some r) (Some c) v :: rest)) st
  = Raise (Exn IndexError "list assignment index out of range").
Proof.
  intros Hm Hr Hrow Hc0 Hc. rewrite matrix_cells_merge Hm. cbn.
  pose proof (lookup_lt_Some _ _ _ Hrow) as Hlt.
  unfold apply_cell_update, index_truthy, truthy; cbn.
  destruct (Z.eqb_spec r 0) as [?|_]; [lia|].
  destruct (Z.eqb_spec c 0) as [?|_]; [lia|]. cbn.
  rewrite bool_decide_eq_true_2; [lia|].
  unfold set_cell, norm_index.
  rewrite bool_decide_eq_true_2; [lia|]. rewrite Hrow.
  rewrite bool_decide_eq_false_2; [lia|].
  rewrite bool_decide_eq_false_2; [lia|]. reflexivity.
Qed.

Lemma cell_edit_column_out_of_range_raises_witness :
  _apply_modifications "matrix_cells"
    (cells_delta [CellUpdate (Some 1%Z) (Some 3%Z) (Some (JStr "x"));
                  CellUpdate (Some 1%Z) (Some 2%Z) (Some (JStr "〇"))])
    (grid_state sample_grid)
  = Raise (Exn IndexError "list assignment index out of range").
Proof.
  apply (cell_edit_column_out_of_range_raises (grid_state sample_grid) sample_grid
           1 3 _ [JStr "P1/25-29"; JStr "FA"; JStr "△"]);
    [reflexivity | lia | reflexivity | lia | cbn; lia].
Defined.

(** X5. A negative row index passes the guard and counts from the end, as
    Python list indexing does: for [-len(matrix) <= r < 0] and a column
    index positive and within the row, the edit overwrites the cell of row
    [len(matrix) + r].  With [r = -len(matrix)] this is the header row,
    which the index 0 cannot reach. *)
Theorem cell_edit_negative_row_counts_from_end
  (st : state) (m : grid) (r c : Z) (v : option json) (row : list json) :
  st_matrix st = Some m ->
  (- Z.of_nat (length m) ≤ r < 0)%Z ->
  m !! Z.to_nat (r + Z.of_nat (length m)) = Some row ->
  (0 < c < Z.of_nat (length row))%Z ->
  _apply_modifications "matrix_cells"
    (cells_delta [CellUpdate (Some r) (Some c) v]) st
  = Ok (with_matrix st
          (<[Z.to_nat (r + Z.of_nat (length m)) :=
               <[Z.to_nat c := default JNull v]> row]> m)).
Proof.
  intros Hm Hr Hrow Hc. rewrite (single_cell_update _ _ _ Hm).
  unfold apply_cell_update, index_truthy, truthy; cbn.
  destruct (Z.eqb_spec r 0) as [?|_]; [lia|].
  destruct (Z.eqb_spec c 0) as [?|_]; [lia|]. cbn.
  rewrite bool_decide_eq_true_2; [lia|].
  unfold set_cell, norm_index.
  rewrite bool_decide_eq_false_2; [lia|].
  rewrite bool_decide_eq_true_2; [lia|]. rewrite Hrow.
  rewrite bool_decide_eq_true_2; [lia|]. reflexivity.
Qed.

Lemma cell_edit_negative_row_counts_from_end_witness :
  _apply_modifications "matrix_cells"
    (cells_delta [CellUpdate (Some (-2)%Z) (Some 1%Z) (Some (JStr "x"))])
    (grid_state sample_grid)
  = Ok (grid_state
          [ [JStr "ペルソナID/年齢"; JStr "x"; JStr "フロー - 顧客折衝"];
            [JStr "P1/25-29"; JStr "FA"; JStr "△"] ]).
Proof.
  apply (cell_edit_negative_row_counts_from_end (grid_state sample_grid) sample_grid
           (-2) 1 (Some (JStr "x"))
           [JStr "ペルソナID/年齢"; JStr "業界"; JStr "フロー - 顧客折衝"]);
    [reflexivity | cbn; lia | reflexivity | cbn; lia].
Defined.

End ModificationMore.

(* --------------------------------------------------------------------- *)
(** ** services/modification_service.py: the target of a request *)

Module DetectionFacts.
Import Modification.

(** ** Substrings *)

(** [kw] occurs in [request]. *)
Definition occurs (kw request : string) : Prop :=
  ∃ pre post, request = pre +:+ kw +:+ post.

Lemma prefix_spec n s : String.prefix n s = true <-> ∃ post, s = n +:+ post.
Proof.
  revert s; induction n as [|a n IH]; intros s.
  - split; [intros _; exists s; reflexivity|]. intros _. by destruct s.
  - destruct s as [|b s]; cbn.
    + split; [discriminate | by intros [post H]].
    + change (String a n +:+ ?p) with (String a (n +:+ p)).
      destruct (Ascii.ascii_dec a b) as [->|Hne].
      * rewrite IH. split; intros [post H]; exists post; congruence.
      * split; [discriminate | intros [post [= ? _]]; congruence].
Qed.

Lemma contains_spec n s : contains n s = true <-> occurs n s.
Proof.
  unfold occurs. induction s as [|c s IH].
  - cbn [contains]. rewrite orb_false_r prefix_spec. split.
    + intros [post H]. exists "", post. exact H.
    + intros ([|? ?] & post & H); [exists post; exact H | discriminate].
  - cbn [contains]. rewrite orb_true_iff prefix_spec IH. split.
    + intros [[post H] | (pre & post & H)].
      * exists "", post. exact H.
      * exists (String c pre), post. rewrite H. reflexivity.
    + intros ([|c' pre] & post & H).
      * left. exists post. exact H.
      * right. injection H as -> H. exists pre, post. exact H.
Qed.

(** Some keyword of the list occurs in the request. *)
Definition mentions (keywords : list string) (request : string) : Prop :=
  ∃ kw, kw ∈ keywords ∧ occurs kw request.

Lemma any_in_spec keywords request :
  any_in keywords request = true <-> mentions keywords request.
Proof.
  unfold any_in, mentions. rewrite existsb_exists. split.
  - intros (kw & Hin & H). exists kw. split; [by apply list_elem_of_In|].
    by apply contains_spec.
  - intros (kw & Hin & H). exists kw. split; [by apply list_elem_of_In|].
    by apply contains_spec.
Qed.

Lemma any_in_false keywords request :
  ¬ mentions keywords request -> any_in keywords request = false.
Proof.
  intros H. destruct (any_in keywords request) eqn:E; [|done].
  by apply any_in_spec in E.
Qed.

(** X6. The detected target is decided by the first keyword list, in the order
    personas, axes, matrix cells, discussion points, of which some keyword
    occurs in the request: a request that mentions a persona keyword is a
    personas request even when it also names an axis, a cell or an
    evaluation mark, and so on down the order; a request that mentions no
    keyword at all is a general one. *)
Theorem detection_follows_keyword_priority (request : string) :
  let t := target_type (_detect_modification_target request) in
  (mentions persona_keywords request -> t = "personas") ∧
  (¬ mentions persona_keywords request ->
   mentions axes_keywords request -> t = "axes") ∧
  (¬ mentions persona_keywords request -> ¬ mentions axes_keywords request ->
   mentions matrix_keywords request -> t = "matrix_cells") ∧
  (¬ mentions persona_keywords request -> ¬ mentions axes_keywords request ->
   ¬ mentions matrix_keywords request ->
   mentions discussion_keywords request -> t = "discussion_points") ∧
  (¬ mentions persona_keywords request -> ¬ mentions axes_keywords request ->
   ¬ mentions matrix_keywords request -> ¬ mentions discussion_keywords request ->
   t = "general").
Proof.
  unfold _detect_modification_target. repeat split.
  - intros H. by rewrite (proj2 (any_in_spec _ _) H).
  - intros H1 H2. by rewrite (any_in_false _ _ H1) (proj2 (any_in_spec _ _) H2).
  - intros H1 H2 H3.
    by rewrite (any_in_false _ _ H1) (any_in_false _ _ H2) (proj2 (any_in_spec _ _) H3).
  - intros H1 H2 H3 H4.
    by rewrite (any_in_false _ _ H1) (any_in_false _ _ H2) (any_in_false _ _ H3)
               (proj2 (any_in_spec _ _) H4).
  - intros H1 H2 H3 H4.
    by rewrite (any_in_false _ _ H1) (any_in_false _ _ H2) (any_in_false _ _ H3)
               (any_in_false _ _ H4).
Qed.

(** A request to change an evaluation mark that names the companies column
    is taken for a personas request. *)
Lemma detection_follows_keyword_priority_witness :
  mentions persona_keywords "P1の企業の評価を〇に変更" ∧
  mentions matrix_keywords "P1の企業の評価を〇に変更" ∧
  target_type (_detect_modification_target "P1の企業の評価を〇に変更") = "personas".
Proof.
  assert (H : mentions persona_keywords "P1の企業の評価を〇に変更").
  { exists "企業". split; [by left|]. exists "P1の", "の評価を〇に変更". reflexivity. }
  split; [exact H|]. split.
  - exists "評価". split; [by left|]. exists "P1の企業の", "を〇に変更". reflexivity.
  - exact (proj1 (detection_follows_keyword_priority "P1の企業の評価を〇に変更") H).
Defined.

End DetectionFacts.

(* --------------------------------------------------------------------- *)
(** ** utils/validators.py *)

Module ValidatorsMore.
Import Validators ValidatorsFacts.
Local Open Scope list_scope.

(** ** Personas *)

(** What [validate_persona] asks of a persona. *)
Definition valid_persona (p : persona) : Prop :=
  is_Some (p !! "id") ∧ is_Some (p !! "industry") ∧ is_Some (p !! "job_type") ∧
  ∃ companies, p !! "companies" = Some (JArr companies) ∧
               (3 ≤ length companies ≤ 10)%nat.

Lemma check_required_ok keys p :
  check_required keys p = Ok () <-> Forall (fun key => is_Some (p !! key)) keys.
Proof.
  induction keys as [|key keys IH]; cbn.
  - split; [constructor | reflexivity].
  - destruct (p !! key) as [v|] eqn:Hk.
    + rewrite IH. split; [intros H; constructor; [by exists v | done]|].
      by inversion 1.
    + split; [discriminate|]. inversion 1 as [|? ? [v Hv]]; subst. congruence.
Qed.

Lemma check_required_cases keys p :
  check_required keys p = Ok () ∨
  ∃ msg, check_required keys p = Raise (Exn ValueError msg).
Proof.
  induction keys as [|key keys IH]; cbn; [by left|].
  destruct (p !! key); [apply IH | right; eauto].
Qed.

Lemma validate_persona_cases p :
  validate_persona p = Ok true ∨
  ∃ msg, validate_persona p = Raise (Exn ValueError msg).
Proof.
  unfold validate_persona.
  destruct (check_required_cases ["id"; "industry"; "job_type"; "companies"] p)
    as [-> | [msg ->]]; cbn; [|right; eauto].
  destruct (default (JArr []) (p !! "companies"));
    try (right; eexists; reflexivity).
  case_bool_decide; [right; eexists; reflexivity | by left].
Qed.

Lemma validate_persona_ok p : validate_persona p = Ok true <-> valid_persona p.
Proof.
  unfold validate_persona, valid_persona. split.
  - intros H. inv_bind H. destruct a.
    apply check_required_ok in Hstep.
    inversion Hstep as [|? ? Hid H1]; subst.
    inversion H1 as [|? ? Hind H2]; subst.
    inversion H2 as [|? ? Hjob H3]; subst.
    inversion H3 as [|? ? [c Hc] _]; subst.
    do 3 (split; [done|]). rewrite Hc in H; cbn in H.
    destruct c; try discriminate. exists l. split; [done|].
    case_bool_decide; [discriminate | lia].
  - intros (Hid & Hind & Hjob & l & Hc & Hlen).
    assert (check_required ["id"; "industry"; "job_type"; "companies"] p = Ok ()) as ->.
    { apply check_required_ok.
      do 3 (apply Forall_cons; split; [done|]).
      apply Forall_cons; split; [by exists (JArr l) | constructor]. }
    cbn. rewrite Hc; cbn. rewrite bool_decide_eq_false_2; [lia | done].
Qed.

(** X7. [validate_persona] accepts exactly the personas that carry the four
    entries id, industry, job_type and companies, with a list of 3 to 10
    companies; it rejects every other one with a [ValueError], and never
    returns [False]. *)
Theorem validate_persona_accepts_exactly (p : persona) :
  (validate_persona p = Ok true <-> valid_persona p) ∧
  (validate_persona p = Ok true ∨
   ∃ msg, validate_persona p = Raise (Exn ValueError msg)).
Proof. split; [apply validate_persona_ok | apply validate_persona_cases]. Qed.

Lemma validate_each_ok ps : validate_each ps = Ok () <-> Forall valid_persona ps.
Proof.
  induction ps as [|p ps IH]; cbn [validate_each].
  - split; [constructor | reflexivity].
  - destruct (validate_persona_cases p) as [Hp | [msg Hp]]; rewrite Hp; cbn.
    + rewrite IH. apply validate_persona_ok in Hp. split; [by constructor|].
      by inversion 1.
    + split; [discriminate|]. inversion 1 as [|? ? Hv _]; subst.
      apply validate_persona_ok in Hv. congruence.
Qed.

(** X8. [validate_personas] accepts a list exactly when it has the expected
    number of personas (any number when none is expected) and every persona
    of it is one [validate_persona] accepts. *)
Theorem validate_personas_accepts_exactly
  (personas : list persona) (expected_count : option nat) :
  validate_personas personas expected_count = Ok true <->
  (∀ n, expected_count = Some n -> length personas = n) ∧
  Forall valid_persona personas.
Proof.
  unfold validate_personas. destruct expected_count as [n|].
  - case_bool_decide as Hlen; cbn.
    + split; [discriminate|]. intros [H _]. by specialize (H n eq_refl).
    + destruct (validate_each personas) as [[]|e] eqn:He; cbn.
      * apply validate_each_ok in He. split; [|done]. intros _. split; [|done].
        intros k [= <-]. destruct (decide (length personas = n)); [done | contradiction].
      * split; [discriminate|]. intros [_ H]. apply validate_each_ok in H. congruence.
  - cbn. destruct (validate_each personas) as [[]|e] eqn:He; cbn.
    + apply validate_each_ok in He. split; [|done]. intros _. by split.
    + split; [discriminate|]. intros [_ H]. apply validate_each_ok in H. congruence.
Qed.

(** ** The matrix *)

(** X9. [validate_matrix] accepts a matrix exactly when it is not empty, has
    one more row than the expected number of data rows (any number when
    none is expected), and every row is as long as the header row. *)
Theorem validate_matrix_accepts_exactly (m : matrix) (expected_rows : option nat) :
  validate_matrix m expected_rows = Ok true <->
  m ≠ [] ∧
  (∀ n, expected_rows = Some n -> length m = n + 1) ∧
  Forall (fun row => length row = length (hd [] m)) m.
Proof.
  destruct expected_rows as [n|].
  - rewrite validate_matrix_ok. split.
    + intros [Hlen Hall]. split; [destruct m; [cbn in Hlen; lia | done]|].
      split; [by intros k [= <-] | done].
    + intros (_ & Hlen & Hall). split; [by apply Hlen | done].
  - destruct m as [|header rows]; cbn.
    + split; [discriminate | by intros [H _]].
    + destruct (check_columns_cases (length header) 1 rows) as [Hc | [msg Hc]];
        rewrite Hc; cbn.
      * apply check_columns_ok in Hc. split; [|done]. intros _.
        split; [done|]. split; [done | by constructor].
      * split; [discriminate|]. intros (_ & _ & Hall).
        inversion Hall as [|? ? _ Hrows]; subst.
        apply (check_columns_ok _ 1) in Hrows. congruence.
Qed.

(** ** The axes *)

Lemma check_axis_keys_ok i keys a :
  check_axis_keys i keys a = Ok () <-> Forall (fun key => is_Some (a !! key)) keys.
Proof.
  induction keys as [|key keys IH]; cbn.
  - split; [constructor | reflexivity].
  - destruct (a !! key) as [v|] eqn:Hk.
    + rewrite IH. split; [intros H; constructor; [by exists v | done]|].
      by inversion 1.
    + split; [discriminate|]. inversion 1 as [|? ? [v Hv]]; subst. congruence.
Qed.

Lemma check_axes_ok i axes :
  check_axes i axes = Ok () <->
  Forall (fun a => is_Some (a !! "category") ∧ is_Some (a !! "item")) axes.
Proof.
  revert i; induction axes as [|a axes IH]; intros i; cbn [check_axes].
  - split; [constructor | reflexivity].
  - destruct (check_axis_keys i ["category"; "item"] a) as [[]|e] eqn:Ha; cbn.
    + apply check_axis_keys_ok in Ha.
      inversion Ha as [|? ? Hc H1]; subst. inversion H1 as [|? ? Hi _]; subst.
      rewrite IH. split; [by constructor | by inversion 1].
    + split; [discriminate|]. inversion 1 as [|? ? [Hc Hi] _]; subst.
      assert (check_axis_keys i ["category"; "item"] a = Ok ()); [|congruence].
      apply check_axis_keys_ok. by repeat constructor.
Qed.

(** X10. [validate_axes] accepts a list of axes exactly when it is not empty and
    every axis carries a category and an item.  What the category is plays
    no part: an axis of a category outside the four standard ones is
    accepted as well. *)
Theorem validate_axes_accepts_exactly (axes : list (gmap string json)) :
  validate_axes axes = Ok true <->
  axes ≠ [] ∧
  Forall (fun a => is_Some (a !! "category") ∧ is_Some (a !! "item")) axes.
Proof.
  destruct axes as [|a axes]; cbn [validate_axes].
  - split; [discriminate | by intros [H _]].
  - destruct (check_axes 0 (a :: axes)) as [[]|e] eqn:He; cbn.
    + apply check_axes_ok in He. by split.
    + split; [discriminate|]. intros [_ H]. apply (check_axes_ok 0) in H. congruence.
Qed.

End ValidatorsMore.

(* --------------------------------------------------------------------- *)
(** ** utils/llm_client.py: generation and retries *)

Module ClientFacts.
Import PyJson PyJsonFacts StrFacts LLMClient RetryFacts ParserFacts.
Local Open Scope nat_scope.
Local Open Scope list_scope.

(** ** [generate] *)

Lemma generate_ok_iff (response : res completion) (text : string) :
  generate response = Ok text <->
  ∃ reason, response = Ok (Completion reason (Some text)) ∧ strip text ≠ "".
Proof.
  unfold generate. destruct response as [[reason [result|]]|e]; cbn.
  - destruct (decide (strip result = "")) as [Hb|Hb].
    + rewrite !(bool_decide_eq_true_2 _ Hb) andb_false_r. split; [discriminate|].
      intros (reason' & [= _ <-] & Hne). contradiction.
    + rewrite !(bool_decide_eq_false_2 _ Hb).
      assert ((if bool_decide (reason = "length") && negb false
               then Ok result else Ok result) = Ok result) as ->
        by (by destruct (bool_decide _)).
      split.
      * intros [= <-]. by exists reason.
      * by intros (reason' & [= _ <-] & _).
  - rewrite andb_false_r. split; [discriminate | by intros (? & [=] & _)].
  - split; [discriminate | by intros (? & [=] & _)].
Qed.

(** X11. [generate] returns a text exactly when the service answered with that
    text as content and the text is not blank; the text comes back as the
    service sent it, untrimmed, and whatever the finish reason is -- an
    answer cut at the token limit is returned like a complete one. *)
Theorem generate_returns_exactly_nonblank_content
  (response : res completion) (text : string) :
  generate response = Ok text <->
  ∃ reason, response = Ok (Completion reason (Some text)) ∧ strip text ≠ "".
Proof. apply generate_ok_iff. Qed.

(** ** [generate_with_retry] *)

Section Retry.
Variable service : nat -> res completion.

(** The pause after a failed attempt that is not the last: one second
    doubled by each earlier attempt when the failure mentions a rate limit,
    the fixed delay otherwise. *)
Definition pause (failure : nat -> exn) (attempt : nat) : nat :=
  if is_rate_limit (failure attempt) then 2 ^ attempt else RETRY_DELAY.

Lemma retry_loop_first_success (K k : nat) (text : string) (failure : nat -> exn) :
  k < K ->
  (∀ i, i < k -> generate (service i) = Raise (failure i)) ->
  generate (service k) = Ok text ->
  ∀ remaining attempt waits,
    attempt ≤ k -> attempt + remaining = K ->
    retry_loop service remaining attempt K waits
    = (Ok text, waits ++ (pause failure <$> seq attempt (k - attempt))).
Proof.
  intros HK Hfail Hok remaining.
  induction remaining as [|r IH]; intros attempt waits Hle Hsum; [lia|].
  cbn [retry_loop]. destruct (decide (attempt = k)) as [->|Hne].
  - rewrite Hok Nat.sub_diag. cbn. by rewrite app_nil_r.
  - rewrite (Hfail attempt ltac:(lia)).
    rewrite !(bool_decide_eq_true_2 (attempt < K - 1)); [lia..|].
    replace (k - attempt) with (S (k - S attempt)) by lia.
    cbn [seq fmap list_fmap].
    assert (Hp : pause failure attempt
                 = if is_rate_limit (failure attempt) then 2 ^ attempt else RETRY_DELAY)
      by reflexivity.
    rewrite Hp.
    destruct (is_rate_limit (failure attempt));
      (rewrite IH; [lia | lia |]); by rewrite -app_assoc.
Qed.

(** X12. When the attempts numbered 0 .. k-1 fail and attempt k (k below the
    number of tries) succeeds, the wrapper returns the text of attempt k,
    makes no further attempt, and has slept once after each failure: 2^i
    seconds after a failure of attempt i that mentions a rate limit, the
    fixed delay after any other. *)
Theorem generate_with_retry_returns_first_success
  (K k : nat) (text : string) (failure : nat -> exn) :
  k < K ->
  (∀ i, i < k -> generate (service i) = Raise (failure i)) ->
  generate (service k) = Ok text ->
  generate_with_retry service (Some K) = (Ok text, pause failure <$> seq 0 k).
Proof.
  intros HK Hfail Hok. unfold generate_with_retry; cbn [default].
  rewrite (retry_loop_first_success K k text failure HK Hfail Hok K 0 []
             ltac:(lia) ltac:(lia)).
  by rewrite Nat.sub_0_r.
Qed.

(** The pauses recorded so far are those of the attempts made. *)
Definition pauses_ok (waits : list nat) : Prop :=
  ∀ i w, waits !! i = Some w -> w = RETRY_DELAY ∨ w = 2 ^ i.

Lemma retry_loop_pauses (K : nat) :
  ∀ remaining attempt waits,
    0 < remaining -> attempt + remaining = K ->
    length waits = attempt -> pauses_ok waits ->
    length (retry_loop service remaining attempt K waits).2 ≤ K - 1 ∧
    pauses_ok (retry_loop service remaining attempt K waits).2.
Proof.
  intros remaining.
  induction remaining as [|r IH]; intros attempt waits Hpos Hsum Hlen Hok; [lia|].
  cbn [retry_loop].
  assert (Hnext : ∀ w, w = RETRY_DELAY ∨ w = 2 ^ attempt ->
            attempt < K - 1 ->
            length (retry_loop service r (S attempt) K (waits ++ [w])).2 ≤ K - 1 ∧
            pauses_ok (retry_loop service r (S attempt) K (waits ++ [w])).2).
  { intros w Hw Hlt. apply IH; [lia | lia | rewrite length_app /=; lia |].
    intros i x Hx. apply lookup_app_Some in Hx as [Hx | [Hge Hx]]; [by apply Hok|].
    rewrite Hlen in Hge, Hx.
    destruct (i - attempt) as [|n] eqn:Hi; cbn in Hx; [|done].
    injection Hx as <-. by replace i with attempt by lia. }
  destruct (generate (service attempt)) as [text|e]; cbn [snd]; [split; [lia | done]|].
  destruct (is_rate_limit e); case_bool_decide as Hlt; cbn [snd];
    try (split; [lia | done]); apply Hnext; auto.
Qed.

(** X13. Whatever the service does, the wrapper sleeps at most K - 1 times for K
    tries (never after the last one), and the i-th sleep (from 0) lasts
    either the fixed delay or 2^i seconds. *)
Theorem generate_with_retry_sleeps_between_attempts (K : nat) :
  length (generate_with_retry service (Some K)).2 ≤ K - 1 ∧
  ∀ i w, (generate_with_retry service (Some K)).2 !! i = Some w ->
         w = RETRY_DELAY ∨ w = 2 ^ i.
Proof.
  unfold generate_with_retry; cbn [default].
  destruct K as [|K]; [cbn; split; [lia | by intros i w H]|].
  apply (retry_loop_pauses (S K) (S K) 0 []); [lia | lia | done | by intros i w H].
Qed.

End Retry.

(** Two failures, the first one throttled, then an answer. *)
Definition flaky (attempt : nat) : res completion :=
  match attempt with
  | 0 => Raise throttled
  | 1 => Raise connection_error
  | _ => Ok (Completion "stop" (Some "ok"))
  end.

Lemma generate_with_retry_returns_first_success_witness :
  generate_with_retry flaky (Some 3) = (Ok "ok", [1; 2]).
Proof.
  apply (generate_with_retry_returns_first_success flaky 3 2 "ok"
           (fun i => match i with 0 => throttled | _ => connection_error end)).
  - lia.
  - intros [|[|i]] Hi; [reflexivity | reflexivity | lia].
  - reflexivity.
Defined.

End ClientFacts.

(* --------------------------------------------------------------------- *)
(** ** utils/llm_client.py: the parser *)

Module ParserMore.
Import PyJson PyJsonFacts StrFacts LLMClient ParserFacts.
Local Open Scope nat_scope.
Local Open Scope list_scope.

(** ** When the parser gives up *)

Lemma parse_loop_raise remaining attempt max_retries text original x :
  parse_loop (S remaining) attempt max_retries text original = Raise x ->
  ∃ e, json_loads text = NotDecoded e ∧
    if bool_decide (attempt < max_retries - 1)
    then parse_loop remaining (S attempt) max_retries (clean text) original = Raise x
    else x = parse_failure e ∧
         ∀ c, first_object_candidate original = Some c ->
              ∃ e', json_loads c = NotDecoded e'.
Proof.
  cbn [parse_loop].
  destruct (json_loads text) as [v|e] eqn:Hl; [discriminate|].
  intros H. exists e. split; [done|].
  assert (Hfb :
    (if bool_decide (attempt < max_retries - 1)
     then parse_loop remaining (S attempt) max_retries (clean text) original
     else match first_object_candidate original with
          | Some candidate =>
              match json_loads candidate with
              | Decoded result => Ok result
              | NotDecoded _ => Raise (parse_failure e)
              end
          | None => Raise (parse_failure e)
          end) = Raise x).
  { destruct (contains "Extra data" (error_message e)); [|exact H].
    destruct (raw_decode text); [discriminate | exact H]. }
  clear H. case_bool_decide; [exact Hfb|].
  destruct (first_object_candidate original) as [c|].
  - destruct (json_loads c) as [v|e'] eqn:Hc; [discriminate|].
    injection Hfb as <-. split; [done|]. intros c' [= <-]. by exists e'.
  - injection Hfb as <-. split; [done|]. by intros c' [=].
Qed.



(** ** The candidate of the last resort *)

Lemma from_first_brace_prefix l l' :
  from_first_brace l = Some l' ->
  ∃ pre body, l = pre ++ l' ∧ l' = "{"%char :: body ∧ "{"%char ∉ pre.
Proof.
  induction l as [|c l IH]; cbn; [discriminate|].
  destruct (Ascii.eqb_spec c "{") as [->|Hc].
  - intros [= <-]. exists [], l. split; [done|]. split; [done|]. apply not_elem_of_nil.
  - intros H. destruct (IH H) as (pre & body & -> & -> & Hpre).
    exists (c :: pre), body. split; [done|]. split; [done|].
    apply not_elem_of_cons. by split.
Qed.

(** X15. The candidate the last resort cuts from a text is a stretch of it: it
    starts at the first opening brace of the text -- nothing before it is an
    opening brace -- and it ends with a closing brace. *)
Theorem last_resort_candidate_is_braced_stretch (text candidate : string) :
  first_object_candidate text = Some candidate ->
  ∃ pre body post,
    chars text = pre ++ chars candidate ++ post ∧
    chars candidate = "{"%char :: body ++ ["}"%char] ∧
    "{"%char ∉ pre.
Proof.
  unfold first_object_candidate.
  destruct (from_first_brace (chars text)) as [l|] eqn:Hf; [|discriminate]. cbn.
  destruct (walk_braces l 0 false false []) as [lc|] eqn:Hw; [|discriminate]. cbn.
  intros [= <-]. rewrite /chars chars_inj_string.
  destruct (from_first_brace_prefix _ _ Hf) as (pre & body0 & Hpre & Hl & Hno).
  destruct (walk_braces_spec _ _ _ _ _ _ Hw) as (body & rest & Hbody & Hcand).
  cbn [rev app] in Hcand. subst lc.
  rewrite Hl in Hbody.
  destruct body as [|b body']; cbn in Hbody; [discriminate|].
  injection Hbody as <- Hbody0.
  exists pre, body', rest. split; [|by split].
  fold (chars text). rewrite Hpre Hl Hbody0. cbn [app]. by rewrite -app_assoc.
Qed.

Lemma last_resort_candidate_is_braced_stretch_witness :
  first_object_candidate "see {a} and {b}" = Some "{a}" ∧
  ∃ pre body post,
    chars "see {a} and {b}" = pre ++ chars "{a}" ++ post ∧
    chars "{a}" = "{"%char :: body ++ ["}"%char] ∧
    "{"%char ∉ pre.
Proof.
  split; [vm_compute; reflexivity|].
  apply (last_resort_candidate_is_braced_stretch "see {a} and {b}" "{a}").
  vm_compute; reflexivity.
Defined.

(** ** Two fences *)

Lemma fenced_trimmed opening j :
  opening = "```json" ∨ opening = "```" ->
  strip (fenced opening j) = fenced opening j.
Proof.
  intros Hopen. apply trimmed_strip. fold (chars (fenced opening j)).
  unfold fenced. rewrite !chars_app.
  destruct Hopen as [-> | ->].
  - change (chars "```json" ++ chars nl ++ chars j ++ chars nl ++ chars "```")
      with (backtick :: (chars "``json" ++ chars nl ++ chars j ++ chars nl ++ chars "```")).
    replace (chars "``json" ++ chars nl ++ chars j ++ chars nl ++ chars "```")
      with ((chars "``json" ++ chars nl ++ chars j ++ chars nl ++ chars "``") ++ [backtick]).
    + by apply trimmed_between.
    + rewrite -!app_assoc. reflexivity.
  - change (chars "```" ++ chars nl ++ chars j ++ chars nl ++ chars "```")
      with (backtick :: (chars "``" ++ chars nl ++ chars j ++ chars nl ++ chars "```")).
    replace (chars "``" ++ chars nl ++ chars j ++ chars nl ++ chars "```")
      with ((chars "``" ++ chars nl ++ chars j ++ chars nl ++ chars "``") ++ [backtick]).
    + by apply trimmed_between.
    + rewrite -!app_assoc. reflexivity.
Qed.

Lemma clean_fenced opening j :
  opening = "```json" ∨ opening = "```" ->
  strip j = j -> chars j ≠ [] -> clean (fenced opening j) = j.
Proof.
  intros [-> | ->] Hj Hne;
    [exact (clean_fenced_tagged j Hj Hne) | exact (clean_fenced_bare j Hj Hne)].
Qed.

Lemma fenced_backtick opening j :
  opening = "```json" ∨ opening = "```" ->
  ∃ s, fenced opening j = String backtick s.
Proof. intros [-> | ->]; eexists; reflexivity. Qed.

(** X16. The cleaning runs between the attempts, twice at most: a JSON text
    wrapped in two fenced blocks, one inside the other, is parsed to its
    value (each block tagged [json] or bare, the text itself trimmed). *)
Theorem parse_json_peels_two_fences (outer inner j : string) (v : json) :
  outer = "```json" ∨ outer = "```" ->
  inner = "```json" ∨ inner = "```" ->
  json_loads j = Decoded v -> strip j = j ->
  _parse_json (fenced outer (fenced inner j)) = Ok v.
Proof.
  intros Houter Hinner Hv Hj. pose proof (json_loads_nonempty _ _ Hv) as Hne.
  unfold _parse_json.
  destruct (fenced_backtick outer (fenced inner j) Houter) as [s1 Hs1].
  destruct (fenced_backtick inner j Hinner) as [s2 Hs2].
  rewrite parse_loop_retry; [rewrite Hs1; apply json_loads_backtick | lia |].
  rewrite (clean_fenced outer (fenced inner j) Houter (fenced_trimmed inner j Hinner)).
  { rewrite Hs2. discriminate. }
  rewrite parse_loop_retry; [rewrite Hs2; apply json_loads_backtick | lia |].
  rewrite (clean_fenced inner j Hinner Hj Hne).
  by apply parse_loop_decoded.
Qed.

Lemma parse_json_peels_two_fences_witness :
  _parse_json (fenced "```" (fenced "```json" "[1, 2]")) = Ok (JArr [JNum 1; JNum 2]).
Proof.
  apply (parse_json_peels_two_fences "```" "```json" "[1, 2]");
    [by right | by left | vm_compute; reflexivity | vm_compute; reflexivity].
Defined.

End ParserMore.

(* --------------------------------------------------------------------- *)
(** ** utils/matrix_sync.py *)

Module MatrixSyncMore.
Import MatrixSync MatrixSyncFacts.
Local Open Scope nat_scope.
Local Open Scope list_scope.

Section SyncMore.
Variable str : json -> string.

(** ** The entry of a persona in the table *)

Lemma build_table_entry (s : string) (c : json) personas :
  s ≠ "" ->
  (∀ q, q ∈ personas -> q !! "id" = Some (JStr s) ->
        default (JArr []) (q !! "companies") = c) ->
  ∀ acc tbl,
    build_table personas acc = Ok tbl ->
    (∃ p, p ∈ personas ∧ p !! "id" = Some (JStr s)) ∨ acc !! s = Some c ->
    tbl !! s = Some c.
Proof.
  intros Hs. induction personas as [|q ps IH]; intros Hsame acc tbl H Hsrc; cbn in H.
  - injection H as <-. destruct Hsrc as [(p & Hp & _)|Hacc]; [|done].
    by apply elem_of_nil in Hp.
  - assert (Hps : ∀ q', q' ∈ ps -> q' !! "id" = Some (JStr s) ->
                        default (JArr []) (q' !! "companies") = c).
    { intros q' Hq'. apply Hsame. by right. }
    assert (Hskip : q !! "id" ≠ Some (JStr s) -> build_table ps acc = Ok tbl ->
                    tbl !! s = Some c).
    { intros Hq Hb. apply (IH Hps acc tbl Hb).
      destruct Hsrc as [(p & Hp & Hid)|Hacc]; [|by right].
      left. exists p. split; [|done].
      apply elem_of_cons in Hp as [->|Hp]; [contradiction | done]. }
    destruct (q !! "id") as [pid|] eqn:Hq; [|by apply Hskip].
    destruct (truthy pid) eqn:Ht; cbn in H.
    2:{ apply Hskip; [|done]. intros [= ->]. cbn in Ht.
        by rewrite bool_decide_eq_false_2 in Ht. }
    destruct pid; try discriminate; try (by apply Hskip).
    destruct (decide (s0 = s)) as [->|Hne].
    + apply (IH Hps _ tbl H). right. rewrite lookup_insert_eq. f_equal.
      apply Hsame; [by left | done].
    + apply (IH Hps _ tbl H).
      destruct Hsrc as [(p & Hp & Hid)|Hacc].
      * left. exists p. split; [|done].
        apply elem_of_cons in Hp as [->|Hp]; [congruence | done].
      * right. by rewrite lookup_insert_ne.
Qed.

(** X17. The pass does what it is for.  In a matrix whose header holds both
    columns, a data row that reaches both columns and whose trimmed leading
    id token is the id of a persona gets, in the companies column, the
    companies of that persona joined by the ideographic comma (the personas
    having ids that can be hashed, and those that share the id sharing the
    company list, a list). *)
Theorem resync_writes_joined_companies
  (header : list string) (rows : list (list string)) (personas : list persona)
  (id_col companies_col i : nat) (row : list string) (cell : string)
  (p : persona) (companies : list json) :
  index ID_HEADER header = Some id_col ->
  index COMPANIES_HEADER header = Some companies_col ->
  Forall hashable_id personas ->
  rows !! i = Some row ->
  Nat.max id_col companies_col < length row ->
  row !! id_col = Some cell ->
  leading_id cell ≠ "" ->
  p ∈ personas -> p !! "id" = Some (JStr (leading_id cell)) ->
  p !! "companies" = Some (JArr companies) ->
  (∀ q, q ∈ personas -> q !! "id" = Some (JStr (leading_id cell)) ->
        q !! "companies" = p !! "companies") ->
  ∃ m' row',
    sync_matrix_companies_with_personas str (header :: rows) personas = Ok m' ∧
    m' !! S i = Some row' ∧
    row' !! companies_col = Some (join "、" (str <$> companies)).
Proof.
  intros Hid Hco Hhash Hrow Hlen Hcell Hne Hp Hpid Hpc Hsame.
  destruct rows as [|r rows']; [by rewrite lookup_nil in Hrow|].
  rewrite sync_long Hid Hco.
  destruct (build_table_total personas ∅ Hhash) as [tbl Htbl].
  rewrite Htbl; cbn [mbind res_bind].
  assert (Hentry : tbl !! leading_id cell = Some (JArr companies)).
  { apply (build_table_entry (leading_id cell) (JArr companies) personas Hne)
      with (acc := ∅); [|done|].
    - intros q Hq Hqid. by rewrite (Hsame q Hq Hqid) Hpc.
    - left. by exists p. }
  eexists _, _. split; [reflexivity|]. split.
  - change ((header :: (sync_row str id_col companies_col tbl <$> r :: rows')) !! S i)
      with ((sync_row str id_col companies_col tbl <$> r :: rows') !! i).
    by rewrite list_lookup_fmap Hrow.
  - unfold sync_row. rewrite bool_decide_eq_false_2; [lia|].
    rewrite Hcell. rewrite bool_decide_eq_false_2; [done|].
    rewrite Hentry. cbn [companies_str].
    apply list_lookup_insert_eq. lia.
Qed.

(** ** Ids that cannot be hashed *)

Lemma build_table_unhashable personas acc :
  Exists (fun p => ∃ v, p !! "id" = Some v ∧ truthy v = true ∧ unhashable v = true)
         personas ->
  build_table personas acc = Raise (Exn TypeError "unhashable type").
Proof.
  intros H; revert acc; induction personas as [|p ps IH]; intros acc.
  - by apply Exists_nil in H.
  - cbn. apply Exists_cons in H as [(v & Hv & Ht & Hu) | H].
    + rewrite Hv Ht. cbn. by destruct v.
    + destruct (p !! "id") as [pid|]; [|by apply IH].
      destruct (truthy pid); cbn; [|by apply IH].
      destruct pid; try done; by apply IH.
Qed.

(** X18. A persona whose id is a non-empty list or dictionary cannot be entered
    in the table of company lists.  It makes the pass raise [TypeError], but
    only once the personas are read: for a matrix with a data row and both
    columns in its header.  A matrix with fewer than two rows, or whose
    header lacks the id column or the companies column, is returned as it
    is even then. *)
Theorem resync_unhashable_id_raises_once_personas_are_read
  (m : matrix) (personas : list persona) :
  Exists (fun p => ∃ v, p !! "id" = Some v ∧ truthy v = true ∧ unhashable v = true)
         personas ->
  (length m < 2 ∨ index ID_HEADER (hd [] m) = None ∨
   index COMPANIES_HEADER (hd [] m) = None ->
   sync_matrix_companies_with_personas str m personas = Ok m) ∧
  (2 ≤ length m -> is_Some (index ID_HEADER (hd [] m)) ->
   is_Some (index COMPANIES_HEADER (hd [] m)) ->
   sync_matrix_companies_with_personas str m personas
   = Raise (Exn TypeError "unhashable type")).
Proof.
  intros Hbad. split.
  - intros [Hshort | Hcols]; [by apply sync_short|].
    destruct m as [|header [|row rows]]; [by apply sync_short; cbn; lia..|].
    rewrite sync_long. cbn [hd] in Hcols. destruct Hcols as [-> | ->]; [done|].
    by destruct (index ID_HEADER header).
  - intros Hlen [id_col Hid] [companies_col Hco].
    destruct m as [|header [|row rows]]; [cbn in Hlen; lia..|].
    cbn [hd] in Hid, Hco.
    rewrite sync_long Hid Hco. by rewrite (build_table_unhashable _ _ Hbad).
Qed.

End SyncMore.

Lemma resync_writes_joined_companies_witness :
  ∃ m' row',
    sync_matrix_companies_with_personas py_str sample_matrix [P1] = Ok m' ∧
    m' !! 1 = Some row' ∧ row' !! 3 = Some "A、B、C".
Proof.
  apply (resync_writes_joined_companies py_str
           [ID_HEADER; "業界"; "職種"; COMPANIES_HEADER; "フロー - 顧客折衝"]
           [ ["P1/25-29"; "FA"; "control"; "old"; "〇"];
             ["P2/25-29"; "auto"; "mech"; "kept"; "△"];
             ["P1/30-39"; "FA"] ]
           [P1] 0 3 0 ["P1/25-29"; "FA"; "control"; "old"; "〇"] "P1/25-29" P1
           [JStr "A"; JStr "B"; JStr "C"]).
  - reflexivity.
  - reflexivity.
  - repeat constructor.
  - reflexivity.
  - cbn. lia.
  - reflexivity.
  - vm_compute. discriminate.
  - by left.
  - vm_compute. reflexivity.
  - vm_compute. reflexivity.
  - intros q Hq _. by apply list_elem_of_singleton in Hq as ->.
Defined.

Lemma resync_unhashable_id_raises_once_personas_are_read_witness :
  sync_matrix_companies_with_personas py_str
    [ ["業界"; COMPANIES_HEADER]; ["FA"; "old"] ]
    [ {[ "id" := JArr [JStr "P1"] ]} ]
  = Ok [ ["業界"; COMPANIES_HEADER]; ["FA"; "old"] ] ∧
  sync_matrix_companies_with_personas py_str
    [ [ID_HEADER; COMPANIES_HEADER]; ["P1/25-29"; "old"] ]
    [ {[ "id" := JArr [JStr "P1"] ]} ]
  = Raise (Exn TypeError "unhashable type").
Proof.
  assert (Hbad : Exists (fun p : persona =>
                           ∃ v, p !! "id" = Some v ∧ truthy v = true ∧ unhashable v = true)
                        [ {[ "id" := JArr [JStr "P1"] ]} ]).
  { apply Exists_cons. left. exists (JArr [JStr "P1"]). by repeat split. }
  split.
  - apply (proj1 (resync_unhashable_id_raises_once_personas_are_read py_str
                    [ ["業界"; COMPANIES_HEADER]; ["FA"; "old"] ] _ Hbad)).
    right. left. reflexivity.
  - apply (proj2 (resync_unhashable_id_raises_once_personas_are_read py_str
                    [ [ID_HEADER; COMPANIES_HEADER]; ["P1/25-29"; "old"] ] _ Hbad)).
    + cbn. lia.
    + by exists 0.
    + by exists 1.
Defined.

End MatrixSyncMore.

(* --------------------------------------------------------------------- *)
(** ** core/step4_matrix_evaluation.py *)

Module Step4More.
Import Validators ValidatorsFacts Step4 Step4Facts.
Local Open Scope nat_scope.
Local Open Scope list_scope.

Section EvaluateMore.
Context {persona : Type}.
Variable generate_json : nat -> persona -> res (option (list row_data)).

(** The calls answer: the call for the persona at each position returns the
    record at that position of [answers] (a record without a ['matrix']
    entry being [None]). *)
Definition calls_answer (idx : nat) (personas : list persona)
  (answers : list (option (list row_data))) : Prop :=
  length answers = length personas ∧
  ∀ i p a, personas !! i = Some p -> answers !! i = Some a ->
           generate_json (idx + i) p = Ok a.

(** The row records of all answers, block after block. *)
Definition all_rows (answers : list (option (list row_data))) : list row_data :=
  concat (default [] <$> answers).

Lemma collect_answered idx personas answers :
  calls_answer idx personas answers ->
  collect generate_json idx personas = Ok (all_rows answers).
Proof.
  revert idx answers; induction personas as [|p ps IH]; intros idx answers [Hlen H].
  - destruct answers; [done | discriminate].
  - destruct answers as [|a answers]; [discriminate|].
    cbn [collect]. rewrite -(Nat.add_0_r idx) (H 0 p a eq_refl eq_refl) Nat.add_0_r.
    cbn [mbind res_bind]. rewrite (IH (S idx) answers); [|done].
    split; [by injection Hlen|]. intros i q b Hq Hb.
    replace (S idx + i) with (idx + S i) by lia. by apply H.
Qed.


Lemma collect_failure (k : nat) (e : exn) :
  ∀ idx personas p,
    personas !! k = Some p ->
    generate_json (idx + k) p = Raise e ->
    (∀ i q, i < k -> personas !! i = Some q -> ∃ a, generate_json (idx + i) q = Ok a) ->
    collect generate_json idx personas = Raise e.
Proof.
  induction k as [|k IH]; intros idx personas p Hp He Hbefore;
    destruct personas as [|q ps]; try discriminate; cbn [collect].
  - injection Hp as ->. by rewrite -(Nat.add_0_r idx) He.
  - destruct (Hbefore 0 q ltac:(lia) eq_refl) as [a Ha].
    rewrite Nat.add_0_r in Ha. rewrite Ha. cbn [mbind res_bind].
    rewrite (IH (S idx) ps p Hp); [| |done].
    + by replace (S idx + k) with (idx + S k) by lia.
    + intros i q' Hi Hq'. replace (S idx + i) with (idx + S i) by lia.
      apply Hbefore; [lia | done].
Qed.

(** X20. The first call that fails ends the stage: when the calls for the
    personas before position k answer and the call for the persona at
    position k raises, the stage raises that very exception, whatever the
    calls for the later personas would do. *)
Theorem evaluate_matrix_raises_first_failure
  (personas : list persona) (axes : list axis) (age_ranges : list string)
  (k : nat) (p : persona) (e : exn) :
  personas !! k = Some p ->
  generate_json k p = Raise e ->
  (∀ i q, i < k -> personas !! i = Some q -> ∃ a, generate_json i q = Ok a) ->
  evaluate_matrix generate_json personas axes age_ranges = Raise e.
Proof.
  intros Hp He Hbefore. unfold evaluate_matrix.
  by rewrite (collect_failure k e 0 personas p Hp He Hbefore).
Qed.

End EvaluateMore.

(** ** Axes that cannot be labelled *)

Lemma column_name_malformed a :
  ¬ axis_ok a ->
  ∃ key, (key = "category" ∨ key = "item") ∧ column_name a = Raise (Exn KeyError key).
Proof.
  intros Hbad. unfold column_name, getitem.
  destruct (a !! "category") as [c|] eqn:Hc; cbn.
  - destruct (a !! "item") as [i|] eqn:Hi; cbn.
    + destruct Hbad. by split; eexists.
    + exists "item". by split; [right|].
  - exists "category". by split; [left|].
Qed.

Lemma column_names_malformed axes :
  Exists (fun a => ¬ axis_ok a) axes ->
  ∃ key, (key = "category" ∨ key = "item") ∧
         column_names axes = Raise (Exn KeyError key).
Proof.
  induction axes as [|a axes IH]; intros H; [by apply Exists_nil in H|].
  cbn [column_names].
  destruct (a !! "category") as [c|] eqn:Hc.
  2:{ exists "category". split; [by left|]. unfold column_name, getitem. by rewrite Hc. }
  destruct (a !! "item") as [i|] eqn:Hi.
  2:{ exists "item". split; [by right|]. unfold column_name, getitem.
      rewrite Hc; cbn. by rewrite Hi. }
  assert (column_name a = Ok (c +:+ " - " +:+ i)) as ->.
  { unfold column_name, getitem. rewrite Hc; cbn. by rewrite Hi. }
  cbn [mbind res_bind].
  apply Exists_cons in H as [Hbad | H].
  - destruct Hbad. by split; eexists.
  - destruct (IH H) as (key & Hkey & ->). by exists key.
Qed.

(** X21. An axis without a category or without an item cannot be labelled: the
    assembly raises [KeyError] naming the missing entry, whatever the row
    records are -- even when there is none. *)
Theorem convert_to_2d_list_raises_on_malformed_axis
  (matrix_data : list row_data) (axes : list axis) :
  Exists (fun a => ¬ axis_ok a) axes ->
  ∃ key, (key = "category" ∨ key = "item") ∧
         _convert_to_2d_list matrix_data axes = Raise (Exn KeyError key).
Proof.
  intros H. destruct (column_names_malformed axes H) as (key & Hkey & Hn).
  exists key. split; [done|]. unfold _convert_to_2d_list. by rewrite Hn.
Qed.

(** Two personas, the first calls_answer with three rows and the second with
    one, under two age ranges. *)
Definition uneven_llm (idx : nat) (p : string) : res (option (list row_data)) :=
  match idx with
  | 0 => Ok (Some [RowData (Some p) (Some "25-29") None None None None;
                   RowData (Some p) (Some "30-39") None None None None;
                   RowData (Some p) (Some "40-49") None None None None])
  | _ => Ok (Some [RowData (Some p) (Some "25-29") None None None None])
  end.


Lemma evaluate_matrix_raises_first_failure_witness :
  evaluate_matrix
    (fun idx (p : string) =>
       match idx with
       | 1 => Raise (Exn Exception "応答が空です。finish_reason: length")
       | _ => Ok (Some [RowData (Some p) (Some "25-29") None None None None])
       end)
    ["P1"; "P2"; "P3"] sample_axes ["25-29"]
  = Raise (Exn Exception "応答が空です。finish_reason: length").
Proof.
  apply (evaluate_matrix_raises_first_failure _ _ _ _ 1 "P2");
    [reflexivity | reflexivity |].
  intros [|i] q Hi Hq; [eexists; reflexivity | lia].
Defined.

Lemma convert_to_2d_list_raises_on_malformed_axis_witness :
  ∃ key, (key = "category" ∨ key = "item") ∧
         _convert_to_2d_list [] [ {[ "category" := "フロー" ]} ]
         = Raise (Exn KeyError key).
Proof.
  apply convert_to_2d_list_raises_on_malformed_axis.
  apply Exists_cons. left. intros [_ [i Hi]]. vm_compute in Hi. discriminate.
Defined.

End Step4More.

(* --------------------------------------------------------------------- *)
(** ** core/step4_5_self_review.py *)

Module SelfReviewMore.
Import LLMClient Record SelfReview SelfReviewFacts.
Local Open Scope nat_scope.
Local Open Scope list_scope.

(** ** [apply_fixes] *)

(** Values [for issue in issues] cannot walk. *)
Definition not_iterable (v : json) : bool :=
  match v with JArr _ | JStr _ | JObj _ => false | _ => true end.

Lemma apply_fixes_outcome (matrix : list (list string)) (review_result : gmap string json) :
  apply_fixes matrix review_result
  = if truthy (default (JArr []) (review_result !! "issues"))
       && not_iterable (default (JArr []) (review_result !! "issues"))
    then Raise (Exn TypeError "object is not iterable")
    else Ok matrix.
Proof.
  unfold apply_fixes. rewrite list_fmap_id.
  destruct (default (JArr []) (review_result !! "issues")) as [|b|z|x|s|l|kvs]; cbn;
    try done.
  - by destruct b.
  - by destruct (z =? 0)%Z.
  - by destruct (real_is_zero x).
  - by destruct (bool_decide (s = "")).
  - by destruct (bool_decide (length l = 0)).
  - by destruct (bool_decide (length kvs = 0)).
Qed.


Section ReviewMore.
Variable format_prompt : string -> string -> res string.
Variable service : string -> res completion.

Lemma py_len_iterable v n : py_len v = Ok n -> not_iterable v = false.
Proof. by destruct v. Qed.

(** X23. After a review, fixing is a no-op that cannot fail: whatever [review]
    returned -- the answer of the model or the default of a failed review
    -- [apply_fixes] with that result returns the matrix it was given. *)
Theorem apply_fixes_after_review_is_identity
  (matrix reviewed : list (list string)) (job_description : string)
  (review_result : gmap string json) :
  review format_prompt service reviewed job_description = Ok review_result ->
  apply_fixes matrix review_result = Ok matrix.
Proof.
  intros H. rewrite apply_fixes_outcome.
  unfold review in H.
  destruct (review_body format_prompt service reviewed job_description)
    as [r|e] eqn:Hbody; cbn in H; injection H as <-.
  - unfold review_body in Hbody. inv_bind Hbody. injection Hbody as <-.
    by rewrite (py_len_iterable _ _ Hstep3) andb_false_r.
  - reflexivity.
Qed.

(** Values [f"{confidence:.2f}"] cannot format. *)
Definition not_a_number (v : json) : bool :=
  match v with JNum _ | JReal _ | JBool _ => false | _ => true end.

(** X24. An answer the review cannot log is thrown away.  When the model
    answers with a JSON object whose [confidence_score] is not a number, or
    whose [issues] is a value without a length (null, a number, a boolean),
    writing the log lines fails inside the [try], and [review] returns the
    default of a failed review in place of the answer. *)
Theorem review_discards_answer_it_cannot_log
  (matrix : list (list string)) (job_description prompt : string)
  (kvs : list (string * json)) :
  format_prompt job_description (_matrix_to_markdown matrix) = Ok prompt ->
  generate_json (service prompt) = Ok (JObj kvs) ->
  (∃ v, dict_of kvs !! "confidence_score" = Some v ∧ not_a_number v = true) ∨
  (∃ v, dict_of kvs !! "issues" = Some v ∧ not_iterable v = true) ->
  review format_prompt service matrix job_description = Ok review_failed.
Proof.
  intros Hp Hg Hbad.
  assert (∃ e, review_body format_prompt service matrix job_description = Raise e)
    as [e He]; [|by apply (review_of_failure _ _ _ _ e)].
  unfold review_body. rewrite Hp; cbn [mbind res_bind]. rewrite Hg; cbn [mbind res_bind as_dict].
  destruct Hbad as [(v & Hv & Hbad) | (v & Hv & Hbad)]; rewrite Hv; cbn [default].
  - destruct v; try discriminate; cbn; eauto.
  - destruct (format_2f _); cbn [mbind res_bind]; [|eauto].
    destruct v; try discriminate; cbn; eauto.
Qed.

End ReviewMore.

Lemma apply_fixes_after_review_is_identity_witness :
  review plain_prompt (fun _ => Raise RetryFacts.connection_error) [["h"]; ["x"]] "job"
    = Ok review_failed ∧
  apply_fixes [["h"]; ["x"]] review_failed = Ok [["h"]; ["x"]].
Proof.
  assert (H : review plain_prompt (fun _ => Raise RetryFacts.connection_error)
                     [["h"]; ["x"]] "job" = Ok review_failed)
    by (vm_compute; reflexivity).
  split; [exact H|].
  exact (apply_fixes_after_review_is_identity plain_prompt _ [["h"]; ["x"]]
           [["h"]; ["x"]] "job" review_failed H).
Defined.

Lemma review_discards_answer_it_cannot_log_witness :
  review plain_prompt
    (fun _ => Ok (Completion "stop"
                    (Some (Quote.requote "{'has_issues': true, 'confidence_score': 'high'}"))))
    [["h"]; ["x"]] "job"
  = Ok review_failed.
Proof.
  eapply (review_discards_answer_it_cannot_log plain_prompt _ [["h"]; ["x"]] "job").
  - reflexivity.
  - vm_compute. reflexivity.
  - left. exists (JStr "high"). split; [vm_compute; reflexivity | reflexivity].
Defined.

End SelfReviewMore.

(* --------------------------------------------------------------------- *)
(** ** core/step2_persona_generation.py, step3_axes_generation.py, step5_discussion.py *)

Module Step2More.
Import Validators LLMClient Record Step2 Step2Facts ValidatorsMore.
Local Open Scope nat_scope.
Local Open Scope list_scope.

Lemma validate_personas_valid ps n b :
  validate_personas ps n = Ok b -> Forall valid_persona ps.
Proof.
  unfold validate_personas. intros H. inv_bind H.
  destruct a0. by apply validate_each_ok.
Qed.

Lemma persona_id_inj i j : persona_id i = persona_id j -> i = j.
Proof.
  unfold persona_id. intros [= H].
  change (str_nat i = str_nat j) in H. by apply (inj pretty) in H.
Qed.

Section AdditionalMore.
Variable format_prompt : string -> res string.
Variable service : string -> res completion.

(** X25. The personas returned by the additive run are usable as they are: each
    carries an id, an industry, a job type and a list of 3 to 10
    companies; no two of them carry the same id; and none carries one of
    the ids P1 .. Pm, m being the number of existing personas -- whatever
    ids the model wrote in its answer. *)
Theorem additional_personas_valid_with_fresh_ids
  (job_description : string) (existing_personas : list persona)
  (additional_count : nat) (new_personas : list persona) :
  generate_additional_personas format_prompt service job_description
    existing_personas additional_count = Ok new_personas ->
  Forall valid_persona new_personas ∧
  NoDup ((.!! "id") <$> new_personas) ∧
  ∀ p j, p ∈ new_personas -> 1 ≤ j ≤ length existing_personas ->
         p !! "id" ≠ Some (JStr ("P" +:+ str_nat j)).
Proof.
  intros H. pose proof (additional_personas_spec _ _ _ _ _ _ H) as [_ Hids].
  assert (Hvalid : Forall valid_persona new_personas).
  { unfold generate_additional_personas in H. inv_bind H. injection H as <-.
    by eapply validate_personas_valid. }
  split; [exact Hvalid|]. split.
  - apply NoDup_alt. intros i j x Hi Hj.
    rewrite list_lookup_fmap in Hi. rewrite list_lookup_fmap in Hj.
    destruct (new_personas !! i) as [p|] eqn:Hp; [|done].
    destruct (new_personas !! j) as [q|] eqn:Hq; [|done].
    cbn in Hi, Hj. rewrite (Hids _ _ Hp) in Hi. rewrite (Hids _ _ Hq) in Hj.
    rewrite -Hj in Hi. do 2 apply (inj Some) in Hi.
    apply persona_id_inj in Hi. lia.
  - intros p j Hp Hj Hid. apply list_elem_of_lookup in Hp as [i Hp].
    rewrite (Hids _ _ Hp) in Hid.
    change (Some (persona_id (length existing_personas + 1 + i)) = Some (persona_id j))
      in Hid.
    apply (inj Some) in Hid. apply persona_id_inj in Hid. lia.
Qed.

End AdditionalMore.

Lemma additional_personas_valid_with_fresh_ids_witness :
  ∃ new_personas,
    generate_additional_personas (fun job => Ok job) (answering one_persona_answer)
      "job" [mk_persona "P1"; mk_persona "P2"; mk_persona "P3"] 1 = Ok new_personas ∧
    Forall valid_persona new_personas ∧ NoDup ((.!! "id") <$> new_personas).
Proof.
  eexists. split; [vm_compute; reflexivity|].
  match goal with |- Forall _ ?l ∧ _ =>
    destruct (additional_personas_valid_with_fresh_ids
                (fun job => Ok job) (answering one_persona_answer)
                "job" [mk_persona "P1"; mk_persona "P2"; mk_persona "P3"] 1 l
                ltac:(vm_compute; reflexivity)) as (Hv & Hd & _)
  end.
  by split.
Defined.

End Step2More.

Module Step3Facts.
Import LLMClient Record Step3.
Local Open Scope nat_scope.
Local Open Scope list_scope.

Section UpdateFacts.
Variable response : res completion.

(** X26. [update_axes] never raises and never loses an axis: it returns the
    existing axes, in their order, followed by the axes it adds; and it adds
    axes only when the model answered with an object whose [needs_update]
    is truthy, in which case the added axes are the list under
    [additional_axes].  In every other case -- the call failed, the answer
    was no JSON or no object, the object asked for no update, or its
    [additional_axes] was no list -- the existing axes are returned as
    they are. *)
Theorem update_axes_keeps_existing_axes (existing_axes : list json) :
  ∃ additional,
    update_axes response existing_axes = Ok (existing_axes ++ additional) ∧
    (additional ≠ [] ->
     ∃ kvs, generate_json response = Ok (JObj kvs) ∧
            truthy (default (JBool false) (dict_of kvs !! "needs_update")) = true ∧
            dict_of kvs !! "additional_axes" = Some (JArr additional)).
Proof.
  assert (Hsame : ∃ additional,
            Ok existing_axes = Ok (existing_axes ++ additional) ∧
            (additional ≠ [] ->
             ∃ kvs, generate_json response = Ok (JObj kvs) ∧
                    truthy (default (JBool false) (dict_of kvs !! "needs_update")) = true ∧
                    dict_of kvs !! "additional_axes" = Some (JArr additional))).
  { exists []. by rewrite app_nil_r. }
  unfold update_axes, update_axes_body.
  destruct (generate_json response) as [parsed|e]; [|exact Hsame].
  destruct parsed as [| | | | | |kvs]; try exact Hsame.
  cbn [mbind res_bind as_dict].
  destruct (truthy (default (JBool false) (dict_of kvs !! "needs_update"))) eqn:Hneeds;
    [|exact Hsame].
  destruct (dict_of kvs !! "additional_axes") as [v|] eqn:Hadd; cbn [default].
  - destruct v; try exact Hsame. cbn [try_except].
    exists l. split; [done|]. intros _. by exists kvs.
  - exists []. split; [reflexivity | done].
Qed.

End UpdateFacts.

End Step3Facts.

Module Step5Facts.
Import Validators LLMClient Step5 ClientFacts.
Local Open Scope nat_scope.
Local Open Scope list_scope.

Section ExtractFacts.
Context {persona axis : Type}.
Variable format_prompt : string -> string -> list persona -> list axis -> res string.
Variable service : string -> res completion.

(** X27. The validation of the discussion points never rejects what the client
    returned: once the prompt is built, the extraction returns exactly what
    [generate] returns for it -- the text of the model unchanged, or the
    exception of the client -- because [generate] has already refused a
    blank answer. *)
Theorem extract_discussion_points_returns_generated_text
  (matrix : list (list string)) (job_description prompt : string)
  (personas : list persona) (axes : list axis) :
  format_prompt job_description (_matrix_to_markdown matrix) personas axes
    = Ok prompt ->
  extract_discussion_points format_prompt service matrix job_description personas axes
  = generate (service prompt).
Proof.
  intros Hp. unfold extract_discussion_points. rewrite Hp. cbn [mbind res_bind].
  destruct (generate (service prompt)) as [text|e] eqn:Hg; [|done].
  cbn [mbind res_bind].
  apply generate_ok_iff in Hg as (reason & _ & Hne).
  unfold validate_discussion_points.
  rewrite (bool_decide_eq_false_2 (strip text = "")); [done|].
  rewrite (bool_decide_eq_false_2 (text = "")); [|done].
  intros ->. by apply Hne.
Qed.

End ExtractFacts.

Lemma extract_discussion_points_returns_generated_text_witness :
  extract_discussion_points (persona := string) (axis := string)
    (fun job matrix _ _ => Ok (job +:+ matrix))
    (fun _ => Ok (Completion "length" (Some "【論点】 1")))
    [["h"]; ["x"]] "job" ["P1"] ["a"]
  = Ok "【論点】 1".
Proof.
  rewrite (extract_discussion_points_returns_generated_text
             (fun job matrix _ _ => Ok (job +:+ matrix))
             (fun _ => Ok (Completion "length" (Some "【論点】 1")))
             [["h"]; ["x"]] "job" _ ["P1"] ["a"] eq_refl).
  vm_compute. reflexivity.
Defined.

End Step5Facts.

(* --------------------------------------------------------------------- *)
(** ** services/qa_service.py *)

Module QAFacts.
Import LLMClient QA ClientFacts.
Local Open Scope nat_scope.
Local Open Scope list_scope.

Section TrimFacts.
Variable dumps_len : turn -> nat.

Notation total := (total dumps_len).
Notation pop_over := (pop_over dumps_len).
Notation trim := (_trim_qa_history dumps_len).

Lemma total_app l1 l2 : total (l1 ++ l2) = total l1 + total l2.
Proof.
  unfold QA.total. induction l1 as [|x l1 IH]; cbn; [done|]. rewrite IH. lia.
Qed.

Lemma total_suffix s l : s `suffix_of` l -> total s ≤ total l.
Proof. intros [k ->]. rewrite total_app. lia. Qed.

(** *** The budget loop *)

Lemma pop_over_suffix max_chars l : pop_over max_chars l `suffix_of` l.
Proof.
  induction l as [|x l IH]; cbn [QA.pop_over]; [done|].
  case_bool_decide; [by apply suffix_cons_r | done].
Qed.

Lemma pop_over_total max_chars l : total (pop_over max_chars l) ≤ max_chars.
Proof.
  induction l as [|x l IH]; cbn [QA.pop_over]; [cbn; lia|].
  case_bool_decide; [done | lia].
Qed.

Lemma pop_over_longest max_chars l s :
  s `suffix_of` l -> total s ≤ max_chars -> s `suffix_of` pop_over max_chars l.
Proof.
  induction l as [|x l IH]; intros Hs Htot; cbn [QA.pop_over]; [done|].
  case_bool_decide as Hover; [|done].
  apply IH; [|done]. destruct Hs as [[|y k] Hk].
  - cbn in Hk. subst s. lia.
  - injection Hk as _ ->. by exists k.
Qed.

(** *** The last items *)

Lemma last_items_suffix n l : last_items n l `suffix_of` l.
Proof. apply suffix_drop. Qed.

Lemma last_items_length n l : length (last_items n l) ≤ n.
Proof. unfold last_items. rewrite length_drop. lia. Qed.

Lemma last_items_longest n l s :
  s `suffix_of` l -> length s ≤ n -> s `suffix_of` last_items n l.
Proof.
  intros [k ->] Hlen. unfold last_items. rewrite length_app.
  exists (drop (length k + length s - n) k).
  rewrite drop_app. f_equal.
  replace (length k + length s - n - length k) with 0 by lia. done.
Qed.

Lemma trim_unfold history :
  trim history = pop_over QA_HISTORY_MAX_CHARS (last_items QA_HISTORY_MAX_ITEMS history).
Proof. by destruct history. Qed.

(** X28. The trimmed history is what remains of the history after dropping
    turns from its front: it holds at most [QA_HISTORY_MAX_ITEMS] turns, the
    serialised lengths of its turns sum to at most [QA_HISTORY_MAX_CHARS],
    and no turn is reordered or altered. *)
Theorem trim_qa_history_within_limits (history : list turn) :
  trim history `suffix_of` history ∧
  length (trim history) ≤ QA_HISTORY_MAX_ITEMS ∧
  total (trim history) ≤ QA_HISTORY_MAX_CHARS.
Proof.
  rewrite trim_unfold. split; [|split].
  - etrans; [apply pop_over_suffix | apply last_items_suffix].
  - etrans; [apply suffix_length, pop_over_suffix | apply last_items_length].
  - apply pop_over_total.
Qed.

(** X29. The trimming drops no more than it must: every run of latest turns
    that respects both limits is kept whole.  In particular a history that
    respects both limits comes back as it is. *)
Theorem trim_qa_history_keeps_longest_fitting_suffix (history kept : list turn) :
  kept `suffix_of` history ->
  length kept ≤ QA_HISTORY_MAX_ITEMS ->
  total kept ≤ QA_HISTORY_MAX_CHARS ->
  kept `suffix_of` trim history ∧
  (kept = history -> trim history = history).
Proof.
  intros Hs Hlen Htot. rewrite trim_unfold.
  assert (H : kept `suffix_of`
                pop_over QA_HISTORY_MAX_CHARS (last_items QA_HISTORY_MAX_ITEMS history)).
  { apply pop_over_longest; [|done]. by apply last_items_longest. }
  split; [done|]. intros ->.
  apply (anti_symm suffix); [|done].
  etrans; [apply pop_over_suffix | apply last_items_suffix].
Qed.

(** *** One question *)

Variable service : string -> res completion.

Notation answer_question := (answer_question dumps_len service).

(** X30. A question that is answered yields the trimmed text of the model as
    answer, which is not empty, and a history within both limits.  The new
    turn -- the question with that answer -- is the last turn of the
    returned history whenever its own serialisation fits the character
    budget; when it does not, the returned history is empty. *)
Theorem answer_question_records_turn_within_limits
  (question context_json : string) (history : option (list turn)) (r : answered) :
  answer_question question context_json history = Ok r ->
  let new_entry : turn := {[ "q" := question; "a" := answer r ]} in
  (∃ text,
     generate (service (user_prompt context_json (trim (default [] history)) question))
       = Ok text ∧
     answer r = strip text) ∧
  answer r ≠ "" ∧
  length (updated_history r) ≤ QA_HISTORY_MAX_ITEMS ∧
  total (updated_history r) ≤ QA_HISTORY_MAX_CHARS ∧
  (dumps_len new_entry ≤ QA_HISTORY_MAX_CHARS -> last (updated_history r) = Some new_entry) ∧
  (QA_HISTORY_MAX_CHARS < dumps_len new_entry -> updated_history r = []).
Proof.
  unfold QA.answer_question. intros H. inv_bind H. injection H as <-. cbn [answer updated_history].
  pose proof Hstep as Hg. apply generate_ok_iff in Hg as (reason & _ & Hne).
  set (old := trim (default [] history)) in *.
  set (e := ({[ "q" := question; "a" := strip a ]} : turn)).
  split; [by exists a|]. split; [done|].
  rewrite trim_unfold.
  set (new := pop_over QA_HISTORY_MAX_CHARS (last_items QA_HISTORY_MAX_ITEMS (old ++ [e]))).
  assert (Hsuf : new `suffix_of` old ++ [e]).
  { etrans; [apply pop_over_suffix | apply last_items_suffix]. }
  split; [|split; [|split]].
  - etrans; [apply suffix_length, pop_over_suffix | apply last_items_length].
  - apply pop_over_total.
  - intros Hfit.
    assert (He : [e] `suffix_of` new).
    { apply pop_over_longest; [|by rewrite /QA.total /=; lia].
      apply last_items_longest; [by exists old | cbn; unfold QA_HISTORY_MAX_ITEMS; lia]. }
    destruct He as [k ->]. by rewrite last_snoc.
  - intros Hbig.
    pose proof (pop_over_total QA_HISTORY_MAX_CHARS
                  (last_items QA_HISTORY_MAX_ITEMS (old ++ [e]))) as Htot.
    fold new in Htot.
    destruct (decide (new = [])) as [Hnil|Hnn]; [done|].
    assert (He : [e] `suffix_of` new).
    { destruct Hsuf as [k Hk]. destruct (exists_last Hnn) as (front & x & Hx).
      rewrite Hx in Hk. rewrite app_assoc in Hk.
      apply app_inj_tail in Hk as [_ <-]. rewrite Hx. by exists front. }
    apply total_suffix in He. rewrite /QA.total /= in He. rewrite /QA.total in Htot. lia.
Qed.

End TrimFacts.

(** Every turn counted as 4000 characters: of four turns the last two
    fit the budget of 10000. *)
Lemma trim_qa_history_keeps_longest_fitting_suffix_witness :
  [ ({[ "q" := "c" ]} : turn); {[ "q" := "d" ]} ]
    `suffix_of`
  _trim_qa_history (fun _ => 4000)
    [ {[ "q" := "a" ]}; {[ "q" := "b" ]}; {[ "q" := "c" ]}; {[ "q" := "d" ]} ].
Proof.
  apply (trim_qa_history_keeps_longest_fitting_suffix (fun _ => 4000)).
  - by exists [ {[ "q" := "a" ]}; {[ "q" := "b" ]} ].
  - unfold QA_HISTORY_MAX_ITEMS. cbn. lia.
  - unfold QA_HISTORY_MAX_CHARS. cbn. lia.
Defined.

Lemma answer_question_records_turn_within_limits_witness :
  ∃ r, answer_question (fun _ => 100)
         (fun _ => Ok (Completion "stop" (Some " yes ")))
         "ok?" "{}" None = Ok r ∧
       answer r = "yes" ∧
       length (updated_history r) ≤ QA_HISTORY_MAX_ITEMS.
Proof.
  eexists. split; [vm_compute; reflexivity|]. split; [vm_compute; reflexivity|].
  match goal with |- context [updated_history ?r] =>
    destruct (answer_question_records_turn_within_limits (fun _ => 100)
                (fun _ => Ok (Completion "stop" (Some " yes ")))
                "ok?" "{}" None r ltac:(vm_compute; reflexivity))
      as (_ & _ & Hlen & _)
  end.
  exact Hlen.
Defined.

End QAFacts.

